(** * Coaster: class-based views and the application logger

    A shallow embedding of [coaster/views/classview.py] and
    [coaster/logger.py], and the properties of these two modules.

    Python objects are modelled by what the code observes of them: a
    dictionary that is iterated is an association list in insertion order,
    a dictionary that is only looked up is a [gmap], a set is a [gset],
    an exception is a left injection, and mutable state is threaded through
    a state-and-exception monad. *)

From Stdlib Require Import ZArith Lia Ascii String.
From stdpp Require Import base option list strings gmap pretty.

Set Default Proof Using "Type".
Set Warnings "-register-all,-clear-no-such-hyp".

(* ===================================================================== *)
(** * Python values, exceptions and effects *)
(* ===================================================================== *)

Module Py.

(** The exceptions the embedded code can meet. *)
Inductive exn :=
| AttributeError (name : string)
| KeyError (key : string)
| IndexError
| TypeError
| NotFound            (* werkzeug's abort(404) *)
| RequestException    (* a failure inside requests.post *)
| ValueError.

Definition result (A : Type) : Type := exn + A.

(** Plain data: configuration values, URL variables, route options. *)
Inductive pyvalue :=
| VNone
| VBool (b : bool)
| VInt (z : Z)
| VStr (s : string)
| VList (l : list pyvalue)
| VTuple (l : list pyvalue)
| VDict (d : list (string * pyvalue))
| VObject (id : positive).   (* any other object, known by identity *)

(** [bool(v)] *)
Definition truthy (v : pyvalue) : bool :=
  match v with
  | VNone => false
  | VBool b => b
  | VInt z => negb (z =? 0)%Z
  | VStr s => negb (bool_decide (s = ""))
  | VList l | VTuple l => negb (bool_decide (l = []))
  | VDict d => negb (bool_decide (d = []))
  | VObject _ => true
  end.

(** ** Strings *)

(** [s.startswith(p)] *)
Definition startswith (p s : string) : bool := String.prefix p s.

(** [s.endswith(p)] *)
Definition endswith (p s : string) : bool :=
  String.prefix (String.rev p) (String.rev s).

(** [c in s] for a one-character [c] *)
Fixpoint contains_char (c : ascii) (s : string) : bool :=
  match s with
  | EmptyString => false
  | String a s' => if Ascii.eqb a c then true else contains_char c s'
  end.

(** [s.split(sep)] for a non-empty separator: the pieces between the
    non-overlapping occurrences of [sep], scanned from the left.  [skip]
    counts the characters of a separator still to be passed over. *)
Fixpoint split_go (sep : string) (skip : nat) (s cur : string) : list string :=
  match s with
  | EmptyString => [cur]
  | String a s' =>
      match skip with
      | S k => split_go sep k s' cur
      | O =>
          if String.prefix sep s
          then cur :: split_go sep (String.length sep - 1) s' ""
          else split_go sep 0 s' (cur +:+ String a "")
      end
  end.

Definition split (sep s : string) : list string := split_go sep 0 s "".

(** [sep.join(l)] *)
Fixpoint join (sep : string) (l : list string) : string :=
  match l with
  | [] => ""
  | [x] => x
  | x :: rest => x +:+ sep +:+ join sep rest
  end.

(** ** Dictionaries that are iterated: association lists in insertion
    order, every key at most once. *)

Fixpoint dict_get {A} (k : string) (d : list (string * A)) : option A :=
  match d with
  | [] => None
  | (k', v) :: d' => if decide (k' = k) then Some v else dict_get k d'
  end.

(** [d[k] = v]: an existing key keeps its place. *)
Fixpoint dict_set {A} (k : string) (v : A) (d : list (string * A))
  : list (string * A) :=
  match d with
  | [] => [(k, v)]
  | (k', v') :: d' =>
      if decide (k' = k) then (k, v) :: d' else (k', v') :: dict_set k v d'
  end.

(** ** State and exceptions *)

Definition M (S A : Type) : Type := S → result A * S.

Definition ret {S A} (a : A) : M S A := λ s, (inr a, s).
Definition raise {S A} (e : exn) : M S A := λ s, (inl e, s).
Definition bind {S A B} (m : M S A) (k : A → M S B) : M S B :=
  λ s, match m s with
       | (inr a, s') => k a s'
       | (inl e, s') => (inl e, s')
       end.
Definition lift {S A} (r : result A) : M S A := λ s, (r, s).
Definition gets {S A} (f : S → A) : M S A := λ s, (inr (f s), s).
Definition modify {S} (f : S → S) : M S unit := λ s, (inr (), f s).

(** [try: m  except: h] with a bare [except]. *)
Definition try_except {S A} (m : M S A) (h : M S A) : M S A :=
  λ s, match m s with
       | (inr a, s') => (inr a, s')
       | (inl _, s') => h s'
       end.

(** [for x in l: acc = body(x, acc)] *)
Fixpoint for_each {S A B} (l : list A) (body : A → B → M S B) (acc : B)
  : M S B :=
  match l with
  | [] => ret acc
  | x :: l' => bind (body x acc) (for_each l' body)
  end.

End Py.

Import Py.

Notation "x <- m ;; k" := (bind m (λ x, k))
  (at level 100, m at next level, right associativity).
Notation "m ;;; k" := (bind m (λ _, k))
  (at level 100, right associativity).

(* ===================================================================== *)
(** * coaster/views/classview.py *)
(* ===================================================================== *)

Module classview.

(** ** The objects the views work on *)

(** Route options ([**options]) are only looked up and merged. *)
Abbreviation options := (gmap string pyvalue).

(** Keyword arguments of a view call: the URL rule variables, iterated. *)
Abbreviation kwargs := (list (string * pyvalue)).

(** References to the objects of the ORM: model classes, mappers,
    instrumented attributes, properties. *)
Abbreviation ref := positive.

(** What [isinstance] and the attributes read by [loader] tell of an ORM
    object. *)
Inductive kind :=
| KClass                                (* a model class *)
| KMapper (class_ : ref)                (* Mapper, with its [class_] *)
| KInstrumentedAttribute (property : ref)
| KRelationshipProperty (argument : ref)
| KOther.

(** A query object is the query it was made from and the calls made on it. *)
Inductive query_op :=
| Join (target : ref)                   (* query.join(target) *)
| Filter (lhs : ref) (rhs : pyvalue).   (* query.filter(lhs == rhs) *)

Record Query := { q_model : ref; q_ops : list query_op }.

Definition query_join (q : Query) (target : ref) : Query :=
  {| q_model := q_model q; q_ops := q_ops q ++ [Join target] |}.

Definition query_filter (q : Query) (lhs : ref) (rhs : pyvalue) : Query :=
  {| q_model := q_model q; q_ops := q_ops q ++ [Filter lhs rhs] |}.

(** The state owned by the ORM: the metadata of its objects (read by
    [getattr] and [isinstance]), the database behind [one_or_404], and the
    queries sent to the database so far. *)
Record World := {
  w_kind : ref → kind;
  w_getattr : ref → string → option ref;
  w_one_or_404 : Query → result pyvalue;
  w_issued : list Query
}.

(** [getattr(source, name)] *)
Definition getattr (source : option ref) (name : string) : M World ref :=
  λ w, match source with
       | None => (inl (AttributeError name), w)
       | Some o =>
           match w_getattr w o name with
           | Some a => (inr a, w)
           | None => (inl (AttributeError name), w)
           end
       end.

(** [query.one_or_404()] sends the query. *)
Definition one_or_404 (q : Query) : M World pyvalue :=
  λ w, (w_one_or_404 w q,
        {| w_kind := w_kind w; w_getattr := w_getattr w;
           w_one_or_404 := w_one_or_404 w; w_issued := w_issued w ++ [q] |}).

(** A view instance: the attributes [before_request] places on [self]. *)
Record instance := {
  self_kwargs : option kwargs;
  self_obj : option pyvalue
}.

(** A view handler method, or any function called as
    [f(self, *args, **kwargs)]: what the call gives, the binding of the
    arguments to the parameters of [f] included. *)
Definition handler : Type := instance → list pyvalue → kwargs → result pyvalue.

Definition decorator : Type := handler → handler.

(** The functions this module defines in its classes, and any other. *)
Inductive function :=
| fn_ClassView_before_request
| fn_ModelView_before_request
| fn_ModelView_loader
| fn_InstanceLoader_loader
| UserFunction (body : handler).

(** [ViewDecorator]: what [route(rule, **options)(f)] returns. *)
Record ViewDecorator := {
  routes : list (string * options);
  func : handler;
  name : string
}.

(** [ViewDecorator.__set_name__] *)
Definition __set_name__ (self : ViewDecorator) (name' : string) : ViewDecorator :=
  {| routes := routes self; func := func self; name := name' |}.

(** What a class namespace can hold. *)
Inductive attr :=
| AViewDecorator (v : ViewDecorator)
| AFunction (f : function)
| ARoutes (rs : list (string * options))       (* __routes__ *)
| ADecorators (ds : list decorator)            (* __decorators__ *)
| AModel (m : option ref)                      (* model *)
| AQuery (q : option Query)                    (* query *)
| ARouteModelMap (m : gmap string string)      (* route_model_map *)
| AOther.

(** One class statement: its name and its namespace.  A class is given by
    its method-resolution order, itself first. *)
Record class := { __name__ : string; __dict__ : list (string * attr) }.

Abbreviation mro := (list class).

Definition cls_name (cls : mro) : string :=
  match cls with
  | c :: _ => __name__ c
  | [] => ""
  end.

(** Attribute lookup on a class: the first class of the MRO that has the
    name, with the classes after it (what [super] starts from). *)
Fixpoint mro_lookup (name : string) (cls : mro) : option (attr * mro) :=
  match cls with
  | [] => None
  | base :: rest =>
      match dict_get name (__dict__ base) with
      | Some a => Some (a, rest)
      | None => mro_lookup name rest
      end
  end.

(** ** rulejoin *)

Definition rulejoin (class_rule method_rule : string) : string :=
  if startswith "/" method_rule then method_rule
  else class_rule
       +:+ (if endswith "/" class_rule || negb (truthy (VStr method_rule))
            then "" else "/")
       +:+ method_rule.

(** ** ViewDecorator.init_app *)

(** The function registered with the app. *)
Record view_func := {
  vf_name : string;           (* view_func.__name__ *)
  wrapped_func : handler;     (* view_func.wrapped_func *)
  view_class : mro            (* view_func.view_class *)
}.

(** One call of [app.add_url_rule], or of the callback. *)
Record url_rule := {
  rule : string;
  endpoint : pyvalue;
  view : view_func;
  rule_options : options
}.

(** The app: the rules added to it, and the calls the callback received. *)
Record Flask := {
  url_map : list url_rule;
  callback_calls : list url_rule
}.

Definition add_url_rule (r : url_rule) : M Flask unit :=
  modify (λ app, {| url_map := url_map app ++ [r];
                    callback_calls := callback_calls app |}).

Definition call_callback (r : url_rule) : M Flask unit :=
  modify (λ app, {| url_map := url_map app;
                    callback_calls := callback_calls app ++ [r] |}).

(** [cls.__decorators__] *)
Definition get_decorators (cls : mro) : result (list decorator) :=
  match mro_lookup "__decorators__" cls with
  | Some (ADecorators ds, _) => inr ds
  | Some _ => inl TypeError
  | None => inl (AttributeError "__decorators__")
  end.

(** [cls.__routes__] *)
Definition get_routes (cls : mro) : result (list (string * options)) :=
  match mro_lookup "__routes__" cls with
  | Some (ARoutes rs, _) => inr rs
  | Some _ => inl TypeError
  | None => inl (AttributeError "__routes__")
  end.

(** The body of the two nested loops; the loop variable [endpoint] is
    carried from one rule to the next. *)
Definition register_rule (view_func : view_func) (callback : bool)
    (class_route method_route : string * options) (endpoint : pyvalue)
  : M Flask pyvalue :=
  let '(class_rule, class_options) := class_route in
  let '(method_rule, method_options) := method_route in
  (* use_options = dict(method_options); use_options.update(class_options) *)
  let use_options := class_options ∪ method_options in
  (* endpoint = use_options.pop('endpoint', endpoint) *)
  let endpoint := default endpoint (use_options !! "endpoint") in
  let use_options := delete "endpoint" use_options in
  let use_rule := rulejoin class_rule method_rule in
  let r := {| rule := use_rule; endpoint := endpoint; view := view_func;
              rule_options := use_options |} in
  add_url_rule r ;;;
  (if callback then call_callback r else ret ()) ;;;
  ret endpoint.

Definition ViewDecorator_init_app (self : ViewDecorator) (cls : mro)
    (callback : bool) : M Flask unit :=
  let endpoint := VStr (cls_name cls +:+ "_" +:+ name self) in
  decorators <- lift (get_decorators cls) ;;
  let wrapped_func := foldl (λ wrapped decorator, decorator wrapped)
                            (func self) decorators in
  let view_func := {| vf_name := name self; wrapped_func := wrapped_func;
                      view_class := cls |} in
  class_routes <- lift (get_routes cls) ;;
  for_each class_routes (λ class_route endpoint,
    for_each (routes self) (register_rule view_func callback class_route)
             endpoint) endpoint ;;;
  ret ().

(** ** ClassView.init_app *)

(** The body of the inner loop, over the items of one namespace. *)
Definition init_app_item (cls : mro) (callback : bool)
    (item : string * attr) (processed : gset string) : M Flask (gset string) :=
  let '(name, attr) := item in
  if decide (name ∈ processed) then ret processed
  else
    let processed := {[name]} ∪ processed in
    match attr with
    | AViewDecorator attr =>
        ViewDecorator_init_app (__set_name__ attr name) cls callback ;;;
        ret processed
    | _ => ret processed
    end.

Definition ClassView_init_app (cls : mro) (callback : bool) : M Flask unit :=
  for_each cls (λ base processed,
    for_each (__dict__ base) (init_app_item cls callback) processed) ∅ ;;;
  ret ().

(** ** ModelView *)

(** A call [f(x, ..., **kwargs)] binds its arguments to the parameters of
    [f]: when [kwargs] has a key that names a parameter which has its
    positional argument, the call raises [TypeError] (multiple values for
    the argument) and the body of [f] does not run. *)
Definition names_parameter (params : list string) (kw : kwargs) : bool :=
  existsb (λ item, bool_decide (item.1 ∈ params)) kw.

(** [inner(self, **kwargs)] is called as [inner(viewinst, *args, **kwargs)]. *)
Definition _modelview_view_decorator : decorator :=
  λ f, λ self args kwargs,
    match args with
    | [] => if names_parameter ["self"] kwargs then inl TypeError
            else f self [] []
    | _ :: _ => inl TypeError     (* inner() takes one positional argument *)
    end.

(** [self.route_model_map], [self.query], [self.model]: class attributes. *)
Definition get_route_model_map (cls : mro) : result (gmap string string) :=
  match mro_lookup "route_model_map" cls with
  | Some (ARouteModelMap m, _) => inr m
  | Some _ => inl TypeError
  | None => inl (AttributeError "route_model_map")
  end.

Definition get_query (cls : mro) : result (option Query) :=
  match mro_lookup "query" cls with
  | Some (AQuery q, _) => inr q
  | Some _ => inl TypeError
  | None => inl (AttributeError "query")
  end.

Definition get_model (cls : mro) : result (option ref) :=
  match mro_lookup "model" cls with
  | Some (AModel m, _) => inr m
  | Some _ => inl TypeError
  | None => inl (AttributeError "model")
  end.

(** [self.kwargs] *)
Definition get_kwargs (self : instance) : result kwargs :=
  match self_kwargs self with
  | Some kw => inr kw
  | None => inl (AttributeError "kwargs")
  end.

(** ** InstanceLoader.loader *)

(** [{self.route_model_map[key]: value for key, value in self.kwargs.items()
      if key in self.route_model_map}] *)
Definition make_filters (route_model_map : gmap string string) (kw : kwargs)
  : list (string * pyvalue) :=
  foldl (λ filters item,
           match route_model_map !! item.1 with
           | Some attr_name => dict_set attr_name item.2 filters
           | None => filters
           end) [] kw.

(** [Model.query]: a fresh query on the model. *)
Definition model_query (model : ref) : Query :=
  {| q_model := model; q_ops := [] |}.

(** The body of the loop over [name.split('.')]. *)
Definition traverse (subname : string) (st : Query * gset ref * ref)
  : M World (Query * gset ref * ref) :=
  let '(query, joined_models, source) := st in
  source <- getattr (Some source) subname ;;
  source_kind <- gets (λ w, w_kind w source) ;;
  match source_kind with
  | KInstrumentedAttribute property =>
      property_kind <- gets (λ w, w_kind w property) ;;
      match property_kind with
      | KRelationshipProperty argument =>
          argument_kind <- gets (λ w, w_kind w argument) ;;
          let source := match argument_kind with
                        | KMapper class_ => class_
                        | _ => argument
                        end in
          if decide (source ∈ joined_models)
          then ret (query, joined_models, source)
          else ret (query_join query source, {[source]} ∪ joined_models, source)
      | _ => ret (query, joined_models, source)
      end
  | _ => ret (query, joined_models, source)
  end.

(** The body of the loop over [filters.items()]. *)
Definition apply_filter (cls : mro) (item : string * pyvalue)
    (st : Query * gset ref) : M World (Query * gset ref) :=
  let '(name, value) := item in
  let '(query, joined_models) := st in
  model <- lift (get_model cls) ;;
  if contains_char "." name then
    match model with
    | None =>     (* getattr(None, subname) *)
        raise (AttributeError (hd "" (split "." name)))
    | Some source =>
        st <- for_each (split "." name) traverse (query, joined_models, source) ;;
        let '(query, joined_models, source) := st in
        ret (query_filter query source value, joined_models)
    end
  else
    column <- getattr model name ;;
    ret (query_filter query column value, joined_models).

Definition InstanceLoader_loader (cls : mro) (self : instance) : M World pyvalue :=
  kw <- lift (get_kwargs self) ;;
  match kw with
  | [] => ret VNone
  | _ :: _ =>
      route_model_map <- lift (get_route_model_map cls) ;;
      if existsb (λ item, bool_decide (is_Some (route_model_map !! item.1))) kw
      then
        let filters := make_filters route_model_map kw in
        (* query = self.query or self.model.query *)
        self_query <- lift (get_query cls) ;;
        query <- match self_query with
                 | Some q => ret q
                 | None =>
                     model <- lift (get_model cls) ;;
                     match model with
                     | Some m => ret (model_query m)
                     | None => raise (AttributeError "query")
                     end
                 end ;;
        st <- for_each filters (apply_filter cls) (query, ∅) ;;
        one_or_404 st.1
      else ret VNone
  end.

(** ** Method calls on a view instance *)

(** [ClassView.before_request] *)
Definition ClassView_before_request (self : instance) (_view : string)
    (kw : kwargs) : M World instance :=
  ret self.

(** [ModelView.loader] *)
Definition ModelView_loader (self : instance) : M World pyvalue :=
  ret VNone.

(** [ModelView.before_request]; [super_before_request] stands for
    [super(ModelView, self).before_request] and [loader] for
    [self.loader]. *)
Definition ModelView_before_request
    (super_before_request : instance → string → kwargs → M World instance)
    (loader : instance → M World pyvalue)
    (self : instance) (_view : string) (kw : kwargs) : M World instance :=
  self <- super_before_request self _view kw ;;
  (* self.kwargs = kwargs *)
  let self := {| self_kwargs := Some kw; self_obj := self_obj self |} in
  (* self.obj = self.loader() *)
  obj <- loader self ;;
  ret {| self_kwargs := self_kwargs self; self_obj := Some obj |}.

(** [self.loader()] *)
Definition call_loader (cls : mro) (self : instance) : M World pyvalue :=
  match mro_lookup "loader" cls with
  | Some (AFunction fn_ModelView_loader, _) => ModelView_loader self
  | Some (AFunction fn_InstanceLoader_loader, _) => InstanceLoader_loader cls self
  | Some (AFunction (UserFunction body), _) => lift (body self [] [])
  | Some _ => raise TypeError
  | None => raise (AttributeError "loader")
  end.

(** [self.before_request(_view, **kwargs)], looked up from [bases] on:
    the whole MRO for a call on the instance, the classes after
    [ModelView] for the [super] call of [ModelView.before_request].  The
    two methods of this module have the parameters [self] and [_view]: a
    keyword argument of one of these names makes the call raise. *)
Fixpoint call_before_request (cls bases : mro) (self : instance)
    (_view : string) (kw : kwargs) : M World instance :=
  match bases with
  | [] => raise (AttributeError "before_request")
  | base :: rest =>
      match dict_get "before_request" (__dict__ base) with
      | None => call_before_request cls rest self _view kw
      | Some (AFunction fn_ClassView_before_request) =>
          (* def before_request(self, _view, **kwargs) *)
          if names_parameter ["self"; "_view"] kw then raise TypeError
          else ClassView_before_request self _view kw
      | Some (AFunction fn_ModelView_before_request) =>
          (* def before_request(self, _view, **kwargs) *)
          if names_parameter ["self"; "_view"] kw then raise TypeError
          else ModelView_before_request (call_before_request cls rest)
                                        (call_loader cls) self _view kw
      | Some (AFunction (UserFunction body)) =>
          lift (body self [VStr _view] kw) ;;; ret self
      | Some _ => raise TypeError
      end
  end.

(** The [view_func] closure of [ViewDecorator.init_app], called by the app
    with the URL rule variables; it takes any arguments and passes them
    on, to be bound by [before_request] and by the wrapped handler. *)
Definition call_view_func (vf : view_func) (args : list pyvalue) (kw : kwargs)
  : M World pyvalue :=
  (* viewinst = view_func.view_class() *)
  let viewinst := {| self_kwargs := None; self_obj := None |} in
  viewinst <- call_before_request (view_class vf) (view_class vf)
                                  viewinst (vf_name vf) kw ;;
  lift (wrapped_func vf viewinst args kw).

(** ** The classes of the module *)

Definition object : class := {| __name__ := "object"; __dict__ := [] |}.

Definition ClassView : class :=
  {| __name__ := "ClassView";
     __dict__ := [("__routes__", ARoutes [("", ∅)]);
                  ("__decorators__", ADecorators []);
                  ("before_request", AFunction fn_ClassView_before_request);
                  ("_ClassView__get_raw_attr", AOther);
                  ("add_route_for", AOther);
                  ("init_app", AOther)] |}.

Definition ModelView : class :=
  {| __name__ := "ModelView";
     __dict__ := [("__decorators__", ADecorators ([] ++ [_modelview_view_decorator]));
                  ("model", AModel None);
                  ("query", AQuery None);
                  ("route_model_map", ARouteModelMap ∅);
                  ("loader", AFunction fn_ModelView_loader);
                  ("before_request", AFunction fn_ModelView_before_request)] |}.

Definition UrlForView : class :=
  {| __name__ := "UrlForView"; __dict__ := [("init_app", AOther)] |}.

Definition InstanceLoader : class :=
  {| __name__ := "InstanceLoader";
     __dict__ := [("loader", AFunction fn_InstanceLoader_loader)] |}.

End classview.

(* ===================================================================== *)
(** * coaster/logger.py *)
(* ===================================================================== *)

Module logger.

(** ** Text *)

Definition NL : string := String "010"%char "".
Definition TAB : string := String "009"%char "".

(** [' ' * n] *)
Fixpoint spaces (n : nat) : string :=
  match n with
  | O => ""
  | S k => String " "%char (spaces k)
  end.

(** ["%20s" % s] *)
Definition rjust20 (s : string) : string :=
  spaces (20 - String.length s) +:+ s.

(** [print(s, file=sio)] and [print(s, end=' ', file=sio)]: the buffer
    afterwards. *)
Definition print (s : string) (sio : string) : string := sio +:+ s +:+ NL.
Definition print_end_space (s : string) (sio : string) : string :=
  sio +:+ s +:+ " ".

(** Whitespace as [str.strip()] sees it among the first 128 characters. *)
Definition is_space (a : ascii) : bool :=
  let n := nat_of_ascii a in
  (n =? 32) || ((9 <=? n) && (n <=? 13)) || ((28 <=? n) && (n <=? 31)).

Fixpoint lstrip (s : string) : string :=
  match s with
  | EmptyString => ""
  | String a s' => if is_space a then lstrip s' else s
  end.

(** [s.strip()] *)
Definition strip (s : string) : string :=
  String.rev (lstrip (String.rev (lstrip s))).

(** [s.split('\n', 1)] *)
Fixpoint split_once_go (s cur : string) : list string :=
  match s with
  | EmptyString => [cur]
  | String a s' =>
      if Ascii.eqb a "010"%char then [cur; s']
      else split_once_go s' (cur +:+ String a "")
  end.

Definition split_newline_once (s : string) : list string := split_once_go s "".

(** [s[:-1] if s[-1:] == '\n' else s] *)
Fixpoint chomp (s : string) : string :=
  match s with
  | EmptyString => ""
  | String a EmptyString => if Ascii.eqb a "010"%char then "" else s
  | String a s' => String a (chomp s')
  end.

(** [sub in s] on strings *)
Fixpoint is_substring (sub s : string) : bool :=
  if String.prefix sub s then true
  else match s with
       | EmptyString => false
       | String _ s' => is_substring sub s'
       end.

(** ** Operations on plain values *)

(** [iter(v)] *)
Definition py_iter (v : pyvalue) : result (list pyvalue) :=
  match v with
  | VList l | VTuple l => inr l
  | VDict d => inr (map (λ kv, VStr kv.1) d)
  | VStr s => inr (map (λ a, VStr (String a "")) (String.list_ascii_of_string s))
  | _ => inl TypeError
  end.

(** [s in v] for a string [s] *)
Definition py_contains_str (s : string) (v : pyvalue) : result bool :=
  match v with
  | VList l | VTuple l =>
      inr (existsb (λ x, match x with
                         | VStr s' => bool_decide (s' = s)
                         | _ => false
                         end) l)
  | VDict d => inr (bool_decide (is_Some (dict_get s d)))
  | VStr s' => inr (is_substring s s')
  | _ => inl TypeError
  end.

(** [v.get(key, default)] *)
Definition py_get (v : pyvalue) (key : string) (default : pyvalue)
  : result pyvalue :=
  match v with
  | VDict d => inr (from_option id default (dict_get key d))
  | _ => inl (AttributeError "get")
  end.

(** [v[key]] *)
Definition py_getitem (v : pyvalue) (key : string) : result pyvalue :=
  match v with
  | VDict d => match dict_get key d with
               | Some x => inr x
               | None => inl (KeyError key)
               end
  | _ => inl TypeError
  end.

(** [v.startswith(p)] *)
Definition py_startswith (v : pyvalue) (p : string) : result bool :=
  match v with
  | VStr s => inr (startswith p s)
  | _ => inl (AttributeError "startswith")
  end.

(** ** Objects of the interpreter and of the frameworks *)

(** An arbitrary object, known by what [repr] does on it. *)
Record pyobject := { repr : result string }.

(** A stack frame. *)
Inductive frame :=
| Frame (co_name co_filename : string) (f_lineno : Z)
        (f_locals : list (string * pyobject)) (f_back : option frame).

Inductive traceback :=
| Traceback (tb_frame : frame) (tb_next : option traceback).

(** [sys.exc_info()]: the exception, its traceback, and what
    [traceback.print_exception] prints for them. *)
Record ExcInfo := {
  exc_value : pyobject;
  exc_traceback : traceback;
  exc_printed : string
}.

(** A context-local object of the web framework ([request], [session],
    [g], [current_auth]): its truth value, and what the [pprint] of the
    data read from it writes, or the exception met inside the [try].
    Reading the attributes of [request] is taken not to raise. *)
Record context_local := { ctx_bool : bool; ctx_pprint : result string }.

Record FlaskContext := {
  request : context_local;
  session : context_local;
  g : context_local;
  current_auth : context_local
}.

(** [logging.LogRecord]; [message] is only there once a formatter has
    formatted the record. *)
Record LogRecord := {
  module : string;
  lineno : Z;
  levelname : string;
  message : option string;
  exc_info : option ExcInfo;
  exc_text : option string
}.

(** ** pprint_with_indent *)

Definition pprint_with_indent (pprinted : result string) (outfile : string)
  : result string :=
  match pprinted with
  | inl e => inl e
  | inr out =>
      let lines := split NL out in
      inr (outfile +:+ join NL (map (λ l, spaces 4 +:+ l) lines))
  end.

(** ** LocalVarFormatter.formatException *)

Fixpoint last_traceback (tb : traceback) : traceback :=
  match tb with
  | Traceback _ None => tb
  | Traceback _ (Some next) => last_traceback next
  end.

Definition tb_frame (tb : traceback) : frame :=
  match tb with Traceback f _ => f end.

(** [while f: stack.append(f); f = f.f_back] *)
Fixpoint frames_from (f : frame) : list frame :=
  match f with
  | Frame _ _ _ _ None => [f]
  | Frame _ _ _ _ (Some back) => f :: frames_from back
  end.

Definition ERROR_WHILE_PRINTING : string := "<ERROR WHILE PRINTING VALUE>".

(** The body of the loop over [frame.f_locals.items()]. *)
Definition format_local (item : string * pyobject) (sio : string)
  : M FlaskContext string :=
  let '(key, value) := item in
  let sio := print_end_space (TAB +:+ rjust20 key +:+ " = ") sio in
  try_except
    (r <- lift (repr value) ;; ret (print r sio))
    (ret (print ERROR_WHILE_PRINTING sio)).

(** The body of the loop over [stack]. *)
Definition format_frame (f : frame) (sio : string) : M FlaskContext string :=
  match f with
  | Frame co_name co_filename f_lineno f_locals _ =>
      let sio := print (NL +:+ "----" +:+ NL) sio in
      let sio := print ("Frame " +:+ co_name +:+ " in " +:+ co_filename
                        +:+ " at line " +:+ pretty f_lineno) sio in
      for_each f_locals format_local sio
  end.

(** One of the four sections on the context-local objects. *)
Definition format_context (read : FlaskContext → context_local)
    (title : string) (sio : string) : M FlaskContext string :=
  ctx <- gets read ;;
  if ctx_bool ctx then
    let sio := print (NL +:+ "----------" +:+ NL) sio in
    let sio := print title sio in
    try_except
      (lift (pprint_with_indent (ctx_pprint ctx) sio))
      (ret (print ERROR_WHILE_PRINTING sio))
  else ret sio.

Definition formatException (ei : ExcInfo) : M FlaskContext string :=
  let tb := last_traceback (exc_traceback ei) in
  let stack := frames_from (tb_frame tb) in
  let sio := "" in
  (* traceback.print_exception(ei[0], ei[1], ei[2], None, sio) *)
  let sio := sio +:+ exc_printed ei in
  let sio := print (NL +:+ "----------" +:+ NL) sio in
  let sio := print "Stack frames (most recent call first):" sio in
  sio <- for_each stack format_frame sio ;;
  sio <- format_context request "Request context:" sio ;;
  sio <- format_context session "Session cookie contents:" sio ;;
  sio <- format_context g "App context:" sio ;;
  sio <- format_context current_auth "Current auth:" sio ;;
  ret (chomp sio).

(** ** The handlers and what they act on *)

(** A URL: a value, or a template with its [{sid}] field. *)
Inductive url_expr :=
| UrlValue (v : pyvalue)
| UrlFormat (template : string) (sid : pyvalue).

Record attachment := {
  mrkdwn_in : list string;
  fallback : string;
  pretext : string;
  att_text : string
}.

(** The JSON payload of a webhook post: [data], and the keys copied from
    the webhook. *)
Record payload := {
  text : string;
  attachments : list attachment;
  copied : list (string * pyvalue)
}.

(** One call of [requests.post]. *)
Record http_request := {
  url : url_expr;
  auth : option (pyvalue * pyvalue);
  data : list (string * pyvalue);
  json : option payload;
  headers : list (string * string)
}.

(** The state the handlers act on: the two module-level throttle
    dictionaries, the clock behind [datetime.utcnow()] (the value of its
    n-th reading, in microseconds), and the network behind [requests.post]
    (the exception a request meets, if any) with the requests made. *)
Record Net := {
  error_throttle_timestamp_sms : gmap (string * Z) Z;
  error_throttle_timestamp_slack : gmap (string * Z) Z;
  clock : nat → Z;
  ticks : nat;
  network : http_request → option exn;
  posts : list http_request
}.

(** [datetime.utcnow()] *)
Definition utcnow : M Net Z :=
  λ s, (inr (clock s (ticks s)),
        {| error_throttle_timestamp_sms := error_throttle_timestamp_sms s;
           error_throttle_timestamp_slack := error_throttle_timestamp_slack s;
           clock := clock s; ticks := S (ticks s);
           network := network s; posts := posts s |}).

(** [requests.post(...)] *)
Definition requests_post (r : http_request) : M Net unit :=
  λ s, (match network s r with Some e => inl e | None => inr () end,
        {| error_throttle_timestamp_sms := error_throttle_timestamp_sms s;
           error_throttle_timestamp_slack := error_throttle_timestamp_slack s;
           clock := clock s; ticks := ticks s;
           network := network s; posts := posts s ++ [r] |}).

Definition set_throttle_sms (key : string * Z) (t : Z) : M Net unit :=
  modify (λ s,
    {| error_throttle_timestamp_sms := <[key := t]> (error_throttle_timestamp_sms s);
       error_throttle_timestamp_slack := error_throttle_timestamp_slack s;
       clock := clock s; ticks := ticks s;
       network := network s; posts := posts s |}).

Definition set_throttle_slack (key : string * Z) (t : Z) : M Net unit :=
  modify (λ s,
    {| error_throttle_timestamp_sms := error_throttle_timestamp_sms s;
       error_throttle_timestamp_slack := <[key := t]> (error_throttle_timestamp_slack s);
       clock := clock s; ticks := ticks s;
       network := network s; posts := posts s |}).

(** [timedelta(minutes=5)], in microseconds *)
Definition five_minutes : Z := 300000000.

(** [key not in throttle or (datetime.utcnow() - throttle[key]) >
    timedelta(minutes=5)]; the clock is read only when the key is there. *)
Definition throttle_open (throttle : Net → gmap (string * Z) Z)
    (key : string * Z) : M Net bool :=
  last <- gets (λ s, throttle s !! key) ;;
  match last with
  | None => ret true
  | Some t => now <- utcnow ;; ret (bool_decide (now - t > five_minutes)%Z)
  end.

(** [record.message] *)
Definition get_message (record : LogRecord) : result string :=
  match message record with
  | Some m => inr m
  | None => inl (AttributeError "message")
  end.

(** [repr(record.exc_info[1]) if record.exc_info else ''] *)
Definition exc_info_repr (record : LogRecord) : result string :=
  match exc_info record with
  | Some ei => repr (exc_value ei)
  | None => inr ""
  end.

(** ** SMSHandler *)

Record SMSHandler := {
  sms_app_name : string;
  exotel_sid : pyvalue;
  exotel_token : pyvalue;
  exotel_from : pyvalue;
  twilio_sid : pyvalue;
  twilio_token : pyvalue;
  twilio_from : pyvalue;
  phonenumbers : pyvalue
}.

Definition SMSHandler_sendsms (self : SMSHandler) (number : pyvalue)
    (body : string) : M Net unit :=
  try_except
    (indian <- lift (py_startswith number "+91") ;;
     if (indian : bool) then
       requests_post
         {| url := UrlFormat "https://twilix.exotel.in/v1/Accounts/{sid}/Sms/send.json"
                             (exotel_sid self);
            auth := Some (exotel_sid self, exotel_token self);
            data := [("From", exotel_from self); ("To", number);
                     ("Body", VStr body)];
            json := None; headers := [] |}
     else
       requests_post
         {| url := UrlFormat
                     "https://api.twilio.com/2010-04-01/Accounts/{sid}/Messages.json"
                     (twilio_sid self);
            auth := Some (twilio_sid self, twilio_token self);
            data := [("From", twilio_from self); ("To", number);
                     ("Body", VStr body)];
            json := None; headers := [] |})
    (ret ()).

Definition SMSHandler_emit (self : SMSHandler) (record : LogRecord)
  : M Net unit :=
  let throttle_key := (module record, lineno record) in
  open <- throttle_open error_throttle_timestamp_sms throttle_key ;;
  if (open : bool) then
    message <- lift (get_message record) ;;
    info <- lift (exc_info_repr record) ;;
    let msg := message +:+ ": " +:+ info in
    numbers <- lift (py_iter (phonenumbers self)) ;;
    for_each numbers (λ phonenumber (_ : unit),
      SMSHandler_sendsms self phonenumber
        ("Error in " +:+ sms_app_name self +:+ ". " +:+ msg
         +:+ ". Please check your email for details")) () ;;;
    now <- utcnow ;;
    set_throttle_sms throttle_key now
  else ret ().

(** ** SlackHandler *)

Record SlackHandler := {
  slack_app_name : string;
  webhooks : pyvalue
}.

(** [[lname for webhook in self.webhooks
      for lname in webhook.get('levelnames', [])]] *)
Definition add_levelnames (acc : result (list pyvalue)) (webhook : pyvalue)
  : result (list pyvalue) :=
  match acc with
  | inl e => inl e
  | inr names =>
      match py_get webhook "levelnames" (VList []) with
      | inl e => inl e
      | inr lv => match py_iter lv with
                  | inl e => inl e
                  | inr l => inr (names ++ l)
                  end
      end
  end.

Definition all_levelnames (hooks : list pyvalue) : result (list pyvalue) :=
  foldl add_levelnames (inr []) hooks.

(** The sections of [record.exc_text], each with its first line apart. *)
Definition exc_text_sections (record : LogRecord) : list (list string) :=
  match exc_text record with
  | Some t =>
      if bool_decide (t = "") then []
      else
        let double_split := map (split "----") (split "----------" t) in
        let flat_list := concat double_split in
        map (λ s, split_newline_once (strip s)) flat_list
  | None => []
  end.

Definition section_attachment (section : list string) : attachment :=
  {| mrkdwn_in := ["text"];
     fallback := hd "" section;
     pretext := hd "" section;
     att_text := match section with
                 | _ :: rest :: _ => "```" +:+ NL +:+ rest +:+ NL +:+ "```"
                 | _ => ""
                 end |}.

(** [for attr in ('channel', 'username', 'icon_emoji'): if attr in webhook:
    payload[attr] = webhook[attr]] *)
Definition copy_webhook_attrs (webhook : pyvalue) (p : payload) : result payload :=
  foldl (λ acc attr_name,
           match acc with
           | inl e => inl e
           | inr p =>
               match py_contains_str attr_name webhook with
               | inl e => inl e
               | inr false => inr p
               | inr true =>
                   match py_getitem webhook attr_name with
                   | inl e => inl e
                   | inr v => inr {| text := text p; attachments := attachments p;
                                     copied := dict_set attr_name v (copied p) |}
                   end
               end
           end) (inr p) ["channel"; "username"; "icon_emoji"].

(** The body of the loop over [self.webhooks]. *)
Definition post_to_webhook (record : LogRecord) (throttle_key : string * Z)
    (data : payload) (webhook : pyvalue) (_ : unit) : M Net unit :=
  levelnames <- lift (py_get webhook "levelnames" (VList [])) ;;
  wanted <- lift (py_contains_str (levelname record) levelnames) ;;
  if (wanted : bool) then
    payload <- lift (copy_webhook_attrs webhook data) ;;
    try_except
      (hook_url <- lift (py_getitem webhook "url") ;;
       requests_post {| url := UrlValue hook_url; auth := None; data := [];
                        json := Some payload;
                        headers := [("Content-Type", "application/json")] |})
      (ret ()) ;;;
    now <- utcnow ;;
    set_throttle_slack throttle_key now
  else ret ().

Definition SlackHandler_emit (self : SlackHandler) (record : LogRecord)
  : M Net unit :=
  let throttle_key := (module record, lineno record) in
  open <- throttle_open error_throttle_timestamp_slack throttle_key ;;
  if (open : bool) then
    hooks <- lift (py_iter (webhooks self)) ;;
    names <- lift (all_levelnames hooks) ;;
    if negb (existsb (λ x, match x with
                           | VStr s => bool_decide (s = levelname record)
                           | _ => false
                           end) names)
    then ret ()
    else
      let sections := exc_text_sections record in
      message <- lift (get_message record) ;;
      info <- lift (exc_info_repr record) ;;
      let data := {| text := "*" +:+ levelname record +:+ "* in "
                             +:+ slack_app_name self +:+ ": " +:+ message
                             +:+ ": `" +:+ info +:+ "`";
                     attachments := map section_attachment sections;
                     copied := [] |} in
      for_each hooks (post_to_webhook record throttle_key data) ()
  else ret ().

(** ** init_app *)

Inductive Formatter := LocalVarFormatter.

Inductive handler_kind :=
| FileHandler (filename : pyvalue)
| SMS (h : SMSHandler)
| Slack (h : SlackHandler)
| SMTPHandler (mailhost fromaddr toaddrs : pyvalue) (subject : string)
              (credentials : option (pyvalue * pyvalue)).

(** A logging handler, with what [setFormatter] and [setLevel] set.
    Making a handler of the standard library ([logging.FileHandler],
    [logging.handlers.SMTPHandler]) is taken to succeed. *)
Record Handler := {
  kind : handler_kind;
  formatter : option Formatter;
  level : Z
}.

Definition NOTSET : Z := 0.
Definition WARNING : Z := 30.
Definition ERROR : Z := 40.

(** What a name of the [logging.handlers] module can be bound to. *)
Inductive module_attr :=
| SMSHandler_class          (* the class SMSHandler of this module *)
| SlackHandler_class        (* the class SlackHandler of this module *)
| library_object (id : positive).

(** The state [init_app] acts on: the app (its name, its configuration,
    the handlers of its logger) and the namespace of the standard
    library's [logging.handlers] module. *)
Record Logging := {
  app_name : string;
  app_config : gmap string pyvalue;
  app_logger_handlers : list Handler;
  logging_handlers : gmap string module_attr
}.

(** [app.logger.addHandler(h)] *)
Definition addHandler (h : Handler) : M Logging unit :=
  modify (λ s, {| app_name := app_name s; app_config := app_config s;
                  app_logger_handlers := app_logger_handlers s ++ [h];
                  logging_handlers := logging_handlers s |}).

(** [logging.handlers.<name> = v] *)
Definition set_logging_handlers (name : string) (v : module_attr)
  : M Logging unit :=
  modify (λ s, {| app_name := app_name s; app_config := app_config s;
                  app_logger_handlers := app_logger_handlers s;
                  logging_handlers := <[name := v]> (logging_handlers s) |}).

(** [app.config.get(key)] and [app.config.get(key, default)] *)
Definition config_get (key : string) (default : pyvalue) : M Logging pyvalue :=
  gets (λ s, from_option id default (app_config s !! key)).

(** [app.config[key]] *)
Definition config_getitem (key : string) : M Logging pyvalue :=
  c <- gets app_config ;;
  match c !! key with
  | Some v => ret v
  | None => raise (KeyError key)
  end.

(** [key in app.config] *)
Definition config_has (key : string) : M Logging bool :=
  gets (λ s, bool_decide (is_Some (app_config s !! key))).

Definition sms_keys : list string :=
  ["SMS_EXOTEL_SID"; "SMS_EXOTEL_TOKEN"; "SMS_EXOTEL_FROM";
   "SMS_TWILIO_SID"; "SMS_TWILIO_TOKEN"; "SMS_TWILIO_FROM"].

Definition init_file_handler (formatter : Formatter) : M Logging unit :=
  error_log_file <- config_get "LOGFILE" (VStr "error.log") ;;
  if truthy error_log_file then
    addHandler {| kind := FileHandler error_log_file;
                  formatter := Some formatter; level := WARNING |}
  else ret ().

Definition init_sms_handler : M Logging unit :=
  admin_numbers <- config_get "ADMIN_NUMBERS" VNone ;;
  if truthy admin_numbers then
    all_keys <- for_each sms_keys (λ key (acc : bool),
                  if acc then config_has key else ret false) true ;;
    if (all_keys : bool) then
      set_logging_handlers "SMSHandler" SMSHandler_class ;;;
      name <- gets app_name ;;
      sid_e <- config_getitem "SMS_EXOTEL_SID" ;;
      token_e <- config_getitem "SMS_EXOTEL_TOKEN" ;;
      from_e <- config_getitem "SMS_EXOTEL_FROM" ;;
      sid_t <- config_getitem "SMS_TWILIO_SID" ;;
      token_t <- config_getitem "SMS_TWILIO_TOKEN" ;;
      from_t <- config_getitem "SMS_TWILIO_FROM" ;;
      numbers <- config_getitem "ADMIN_NUMBERS" ;;
      addHandler {| kind := SMS {| sms_app_name := name;
                                   exotel_sid := sid_e; exotel_token := token_e;
                                   exotel_from := from_e;
                                   twilio_sid := sid_t; twilio_token := token_t;
                                   twilio_from := from_t;
                                   phonenumbers := numbers |};
                    formatter := None; level := ERROR |}
    else ret ()
  else ret ().

Definition init_slack_handler (formatter : Formatter) : M Logging unit :=
  hooks <- config_get "SLACK_LOGGING_WEBHOOKS" VNone ;;
  if truthy hooks then
    set_logging_handlers "SlackHandler" SlackHandler_class ;;;
    name <- gets app_name ;;
    hooks <- config_getitem "SLACK_LOGGING_WEBHOOKS" ;;
    addHandler {| kind := Slack {| slack_app_name := name; webhooks := hooks |};
                  formatter := Some formatter; level := NOTSET |}
  else ret ().

Definition init_mail_handler (formatter : Formatter) : M Logging unit :=
  admins <- config_get "ADMINS" VNone ;;
  if truthy admins then
    sender <- config_get "MAIL_DEFAULT_SENDER" VNone ;;
    mail_sender <- (if truthy sender then ret sender
                    else config_get "DEFAULT_MAIL_SENDER" (VStr "logs@example.com")) ;;
    mail_sender <- match mail_sender with
                   | VList l | VTuple l =>     (* mail_sender[1] *)
                       match l !! 1%nat with
                       | Some x => ret x
                       | None => raise IndexError
                       end
                   | _ => ret mail_sender
                   end ;;
    username <- config_get "MAIL_USERNAME" VNone ;;
    has_credentials <- (if truthy username
                        then password <- config_get "MAIL_PASSWORD" VNone ;;
                             ret (truthy password)
                        else ret false) ;;
    credentials <- (if (has_credentials : bool)
                    then u <- config_getitem "MAIL_USERNAME" ;;
                         p <- config_getitem "MAIL_PASSWORD" ;;
                         ret (Some (u, p))
                    else ret None) ;;
    mailhost <- config_get "MAIL_SERVER" (VStr "localhost") ;;
    toaddrs <- config_getitem "ADMINS" ;;
    name <- gets app_name ;;
    addHandler {| kind := SMTPHandler mailhost mail_sender toaddrs
                                      (name +:+ " failure") credentials;
                  formatter := Some formatter; level := ERROR |}
  else ret ().

Definition init_app : M Logging unit :=
  let formatter := LocalVarFormatter in
  init_file_handler formatter ;;;
  init_sms_handler ;;;
  init_slack_handler formatter ;;;
  init_mail_handler formatter.

End logger.

(* ===================================================================== *)
(** * Properties of the class-based views *)
(* ===================================================================== *)

Module classview_props.
Import classview.

(** ** Strings *)

Lemma append_cons a s1 s2 : String a s1 +:+ s2 = String a (s1 +:+ s2).
Proof. reflexivity. Qed.

Lemma append_nil_l s : "" +:+ s = s.
Proof. reflexivity. Qed.

Lemma append_nil_r s : s +:+ "" = s.
Proof. induction s as [|a s IH]; [done|]. by rewrite append_cons, IH. Qed.

Lemma append_assoc s1 s2 s3 : (s1 +:+ s2) +:+ s3 = s1 +:+ (s2 +:+ s3).
Proof.
  induction s1 as [|a s1 IH]; [done|]. by rewrite !append_cons, IH.
Qed.

Lemma rev_app_spec s acc : String.rev_app s acc = String.rev s +:+ acc.
Proof.
  unfold String.rev. revert acc.
  induction s as [|a s IH]; intros acc; simpl; [done|].
  rewrite (IH (String a acc)), (IH (String a "")).
  by rewrite append_assoc.
Qed.

Lemma rev_cons a s : String.rev (String a s) = String.rev s +:+ String a "".
Proof. unfold String.rev at 1. simpl. apply rev_app_spec. Qed.

Lemma rev_append s1 s2 :
  String.rev (s1 +:+ s2) = String.rev s2 +:+ String.rev s1.
Proof.
  induction s1 as [|a s1 IH].
  - by rewrite append_nil_l, append_nil_r.
  - by rewrite append_cons, !rev_cons, IH, append_assoc.
Qed.

Lemma rev_involutive s : String.rev (String.rev s) = s.
Proof.
  induction s as [|a s IH]; [done|].
  by rewrite rev_cons, rev_append, IH.
Qed.

Lemma prefix_nil s : String.prefix "" s = true.
Proof. by destruct s. Qed.

Lemma startswith_char a s :
  startswith (String a "") s = true ↔ ∃ rest, s = String a rest.
Proof.
  unfold startswith. destruct s as [|b s]; simpl.
  - split; [done|]. by intros [? ?].
  - destruct (ascii_dec a b) as [->|Hne].
    + rewrite prefix_nil. split; eauto.
    + split; [done|]. intros [? ?]. congruence.
Qed.

Lemma endswith_char a s :
  endswith (String a "") s = true ↔ ∃ front, s = front +:+ String a "".
Proof.
  unfold endswith. change (String.rev (String a "")) with (String a "").
  fold (startswith (String a "") (String.rev s)).
  rewrite startswith_char. split.
  - intros [rest Hrest]. exists (String.rev rest).
    by rewrite <-(rev_involutive s), Hrest, rev_cons.
  - intros [front ->]. exists (String.rev front).
    by rewrite rev_append.
Qed.

(** ** rulejoin *)

Example rulejoin_doctest_1 : rulejoin "/" "" = "/".
Proof. reflexivity. Qed.
Example rulejoin_doctest_2 : rulejoin "/" "first" = "/first".
Proof. reflexivity. Qed.
Example rulejoin_doctest_3 : rulejoin "/first" "/second" = "/second".
Proof. reflexivity. Qed.
Example rulejoin_doctest_4 : rulejoin "/first" "second" = "/first/second".
Proof. reflexivity. Qed.
Example rulejoin_doctest_5 : rulejoin "/first/" "second" = "/first/second".
Proof. reflexivity. Qed.
Example rulejoin_doctest_6 : rulejoin "/first/<second>" "" = "/first/<second>".
Proof. reflexivity. Qed.

(** [s] begins with the character '/'. *)
Definition begins_with_slash (s : string) : Prop := ∃ rest, s = String "/" rest.

(** [s] ends with the character '/'. *)
Definition ends_with_slash (s : string) : Prop := ∃ front, s = front +:+ "/".

(** C2.  [rulejoin class_rule method_rule] is [method_rule] when
    [method_rule] begins with '/'; otherwise it is [class_rule] directly
    followed by [method_rule] when [class_rule] ends with '/' or
    [method_rule] is empty, and [class_rule], then '/', then [method_rule]
    in every other case. *)
Theorem rulejoin_cases (class_rule method_rule : string) :
  (begins_with_slash method_rule →
     rulejoin class_rule method_rule = method_rule)
  ∧ (¬ begins_with_slash method_rule →
       (ends_with_slash class_rule ∨ method_rule = "" →
          rulejoin class_rule method_rule = class_rule +:+ method_rule)
       ∧ (¬ (ends_with_slash class_rule ∨ method_rule = "") →
            rulejoin class_rule method_rule
            = class_rule +:+ "/" +:+ method_rule)).
Proof.
  unfold rulejoin, begins_with_slash, ends_with_slash.
  pose proof (startswith_char "/" method_rule) as Hs.
  pose proof (endswith_char "/" class_rule) as He.
  destruct (startswith "/" method_rule).
  - split; [done|]. intros Hn. exfalso. apply Hn, Hs. done.
  - split; [intros Hb; apply Hs in Hb; done|]. intros _.
    destruct (endswith "/" class_rule); simpl.
    + split; [done|]. intros Hn. exfalso. apply Hn. left. by apply He.
    + case_bool_decide as Hm; simpl.
      * split; [done|]. intros Hn. exfalso. apply Hn. by right.
      * split; [|done]. intros [Hf| ->]; [|done].
        apply He in Hf. done.
Qed.

Lemma rulejoin_cases_witness :
  rulejoin "/first" "/second" = "/second"
  ∧ rulejoin "/first/" "second" = "/first/" +:+ "second"
  ∧ rulejoin "/first" "second" = "/first" +:+ "/" +:+ "second".
Proof.
  split; [|split].
  - apply (rulejoin_cases "/first" "/second"). by exists "second".
  - apply (rulejoin_cases "/first/" "second").
    + intros [rest Hrest]. discriminate Hrest.
    + left. by exists "/first".
  - apply (rulejoin_cases "/first" "second").
    + intros [rest Hrest]. discriminate Hrest.
    + intros [[front Hfront]|Hempty]; [|discriminate Hempty].
      apply (f_equal String.rev) in Hfront.
      rewrite rev_append in Hfront. discriminate Hfront.
Defined.

(** ** ClassView.init_app *)

(** The monad, run on a state. *)

Lemma bind_run {S A B} (m : M S A) (k : A → M S B) s :
  bind m k s = match m s with
               | (inr a, s') => k a s'
               | (inl e, s') => (inl e, s')
               end.
Proof. reflexivity. Qed.

Lemma for_each_app {S A B} (l1 l2 : list A) (body : A → B → M S B) acc s :
  for_each (l1 ++ l2) body acc s
  = bind (for_each l1 body acc) (for_each l2 body) s.
Proof.
  revert acc s. induction l1 as [|x l1 IH]; intros acc s; simpl.
  - reflexivity.
  - rewrite !bind_run. destruct (body x acc s) as [[e|b] s']; [done|].
    apply IH.
Qed.

(** Two results of a run that differ in how a set is written. *)
Ltac same_run :=
  unfold ret;
  repeat (apply (f_equal2 pair) || apply (f_equal inr));
  try done; set_solver.

(** The views of one namespace that the inner loop of [init_app] reaches,
    and the names processed afterwards. *)
Fixpoint select_items (items : list (string * attr)) (processed : gset string)
  : list (string * ViewDecorator) * gset string :=
  match items with
  | [] => ([], processed)
  | (name, a) :: rest =>
      if decide (name ∈ processed) then select_items rest processed
      else
        let r := select_items rest ({[name]} ∪ processed) in
        (match a with
         | AViewDecorator v => (name, v) :: r.1
         | _ => r.1
         end, r.2)
  end.

Fixpoint select_mro (cls : mro) (processed : gset string)
  : list (string * ViewDecorator) :=
  match cls with
  | [] => []
  | base :: rest =>
      let r := select_items (__dict__ base) processed in
      r.1 ++ select_mro rest r.2
  end.

(** Registering a list of views under their names, one after the other. *)
Definition register_views (cls : mro) (callback : bool)
    (views : list (string * ViewDecorator)) : M Flask unit :=
  for_each views
    (λ nv _, ViewDecorator_init_app (__set_name__ nv.2 nv.1) cls callback) ().

Lemma register_views_app cls callback vs ws app :
  register_views cls callback (vs ++ ws) app
  = bind (register_views cls callback vs)
         (λ _, register_views cls callback ws) app.
Proof.
  unfold register_views. rewrite for_each_app, !bind_run.
  by destruct (for_each vs _ () app) as [[e|[]] app'].
Qed.

Lemma init_app_items_run cls callback items processed app :
  for_each items (init_app_item cls callback) processed app
  = bind (register_views cls callback (select_items items processed).1)
         (λ _, ret (select_items items processed).2) app.
Proof.
  revert processed app.
  induction items as [|[name a] items IH]; intros processed app; [done|].
  cbn [for_each select_items]. unfold init_app_item at 1.
  destruct (decide (name ∈ processed)) as [Hin|Hnin].
  { rewrite bind_run. cbn. apply IH. }
  destruct a as [v| | | | | | |];
    try (rewrite bind_run; cbn; apply IH).
  cbn [fst snd]. specialize (IH ({[name]} ∪ processed)).
  unfold register_views in *. cbn [for_each fst snd]. unfold bind, ret in *.
  destruct (ViewDecorator_init_app (__set_name__ v name) cls callback app)
    as [[e|[]] app1]; [done|].
  apply IH.
Qed.

Lemma init_app_mro_run cls0 callback cls processed app :
  (for_each cls (λ base processed,
     for_each (__dict__ base) (init_app_item cls0 callback) processed)
     processed ;;; ret ()) app
  = register_views cls0 callback (select_mro cls processed) app.
Proof.
  revert processed app.
  induction cls as [|base rest IH]; intros processed app; [done|].
  cbn [for_each select_mro]. rewrite register_views_app.
  rewrite !bind_run, init_app_items_run, !bind_run.
  destruct (register_views cls0 callback _ app) as [[e|[]] app1]; cbn; [done|].
  specialize (IH (select_items (__dict__ base) processed).2 app1).
  rewrite bind_run in IH. exact IH.
Qed.

(** What [select_items] keeps. *)

Lemma select_items_processed items processed n :
  n ∈ (select_items items processed).2
  ↔ n ∈ processed ∨ is_Some (dict_get n items).
Proof.
  revert processed.
  induction items as [|[name a] items IH]; intros processed; simpl.
  - split; [by left|]. intros [?|[? ?]]; done.
  - destruct (decide (name ∈ processed)) as [Hin|Hnin]; cbn [snd];
      rewrite IH; destruct (decide (name = n)) as [->|Hne].
    + split; [|intros [?|?]; by left]. intros [?|?]; by left.
    + done.
    + split; [intros _; right; eauto|]. intros _. left. set_solver.
    + split; (intros [?|?]; [left; set_solver|by right]).
Qed.

Lemma select_items_elem items processed n v :
  (n, v) ∈ (select_items items processed).1
  ↔ (n ∉ processed) ∧ dict_get n items = Some (AViewDecorator v).
Proof.
  revert processed.
  induction items as [|[name a] items IH]; intros processed; simpl.
  - split; [by intros ?%elem_of_nil|by intros [_ ?]].
  - destruct (decide (name ∈ processed)) as [Hin|Hnin].
    + rewrite IH. destruct (decide (name = n)) as [->|Hne]; [|done].
      split; intros [? ?]; done.
    + cbn [fst].
      assert ((n, v) ∈ (select_items items ({[name]} ∪ processed)).1
              ↔ name ≠ n ∧ (n ∉ processed)
                ∧ dict_get n items = Some (AViewDecorator v)) as Hrest.
      { rewrite IH. set_solver. }
      destruct (decide (name = n)) as [->|Hne].
      * destruct a as [v'| | | | | | |];
          try (rewrite Hrest; split; [by intros [? _]|by intros [_ ?]]).
        rewrite elem_of_cons, Hrest. split.
        -- intros [[= ->]|[? _]]; done.
        -- intros [_ [= ->]]. by left.
      * destruct a as [v'| | | | | | |];
          try (rewrite Hrest; split; [by intros (_ & ? & ?)|by intros [? ?]]).
        rewrite elem_of_cons, Hrest. split.
        -- intros [[= ? ?]|(_ & ? & ?)]; done.
        -- intros [? ?]. by right.
Qed.

Lemma select_items_NoDup items processed :
  NoDup (select_items items processed).1.*1.
Proof.
  revert processed.
  induction items as [|[name a] items IH]; intros processed; simpl.
  - constructor.
  - destruct (decide (name ∈ processed)) as [Hin|Hnin]; [apply IH|].
    cbn [fst]. destruct a as [v| | | | | | |]; try apply IH.
    rewrite fmap_cons. constructor; [|apply IH].
    intros ((n' & v') & Heq & Hin)%list_elem_of_fmap. simpl in Heq. subst n'.
    apply select_items_elem in Hin as [Hnp _]. set_solver.
Qed.

Lemma select_mro_elem cls processed n v :
  (n, v) ∈ select_mro cls processed
  ↔ (n ∉ processed) ∧ ∃ rest, mro_lookup n cls = Some (AViewDecorator v, rest).
Proof.
  revert processed.
  induction cls as [|base bases IH]; intros processed; simpl.
  - split; [by intros ?%elem_of_nil|by intros [_ [? ?]]].
  - rewrite elem_of_app, select_items_elem, IH, select_items_processed.
    destruct (dict_get n (__dict__ base)) as [a|] eqn:Hget.
    + split.
      * intros [[? [= ->]]|[Hn _]]; [eauto|].
        exfalso. apply Hn. right. eauto.
      * intros [? [rest [= -> ->]]]. by left.
    + split.
      * intros [[_ ?]|[Hn ?]]; [done|]. split; [|done]. tauto.
      * intros [? ?]. right. split; [|done]. intros [?|[? ?]]; done.
Qed.

Lemma select_mro_NoDup cls processed : NoDup (select_mro cls processed).*1.
Proof.
  revert processed.
  induction cls as [|base bases IH]; intros processed; simpl.
  - constructor.
  - rewrite fmap_app. apply NoDup_app. split; [apply select_items_NoDup|].
    split; [|apply IH].
    intros n ((n1 & v1) & -> & Hin1)%list_elem_of_fmap
             ((n2 & v2) & Heq & Hin2)%list_elem_of_fmap.
    simpl in Heq. subst n2.
    apply select_items_elem in Hin1 as [_ Hget].
    apply select_mro_elem in Hin2 as [Hn _].
    apply Hn, select_items_processed. right. eauto.
Qed.

(** C1.  [init_app] registers a list of views in which every attribute
    name occurs at most once; a name is there, with a view, exactly when
    the first class of the MRO whose namespace has the name holds that
    route-decorated view under it; each view of the list is registered by
    one call of [ViewDecorator.init_app], under its name.  So a name that a
    subclass defines again is registered with the definition of the
    subclass, and is not registered at all when that definition is not a
    route-decorated view. *)
Theorem init_app_registers_most_derived (cls : mro) (callback : bool) :
  ∃ views : list (string * ViewDecorator),
    NoDup views.*1
    ∧ (∀ n v, (n, v) ∈ views
              ↔ ∃ rest, mro_lookup n cls = Some (AViewDecorator v, rest))
    ∧ (∀ n a rest, mro_lookup n cls = Some (a, rest) →
                   (∀ v, a ≠ AViewDecorator v) → n ∉ views.*1)
    ∧ ∀ app, ClassView_init_app cls callback app
             = register_views cls callback views app.
Proof.
  exists (select_mro cls ∅).
  assert (∀ n v, (n, v) ∈ select_mro cls ∅
                 ↔ ∃ rest, mro_lookup n cls = Some (AViewDecorator v, rest))
    as Helem.
  { intros n v. rewrite select_mro_elem. set_solver. }
  split; [apply select_mro_NoDup|]. split; [exact Helem|]. split.
  - intros n a rest Hlook Hplain ((n' & v) & Heq & Hin)%list_elem_of_fmap.
    simpl in Heq. subst n'. apply Helem in Hin as [rest' Hv].
    rewrite Hlook in Hv. injection Hv as -> _. by eapply Hplain.
  - intros app. unfold ClassView_init_app. apply init_app_mro_run.
Qed.

(** The views [BaseView] and [SubView] of the test suite: [SubView]
    defines [first] and [second] again as views and [third] as a plain
    method. *)
Definition plain_method : attr :=
  AFunction (UserFunction (λ self args kw, inr (VStr "removed-third"))).

Definition a_view (rule' : string) (text : string) (view_name : string)
  : ViewDecorator :=
  {| routes := [(rule', ∅)];
     func := λ self args kw, inr (VStr text);
     name := view_name |}.

Definition BaseView : class :=
  {| __name__ := "BaseView";
     __dict__ := [("first", AViewDecorator (a_view "" "first" "first"));
                  ("second", AViewDecorator (a_view "second" "second" "second"));
                  ("third", AViewDecorator (a_view "third" "third" "third"));
                  ("inherited",
                   AViewDecorator (a_view "inherited" "inherited" "inherited"));
                  ("latent_route", plain_method)] |}.

Definition SubView : class :=
  {| __name__ := "SubView";
     __dict__ := [("__routes__", ARoutes [("/subclasstest", ∅)]);
                  ("first", AViewDecorator (a_view "" "rerouted-first" "first"));
                  ("second",
                   AViewDecorator {| routes := [("2", ∅); ("second", ∅)];
                                     func := λ self args kw,
                                               inr (VStr "rerouted-second");
                                     name := "second" |});
                  ("third", plain_method)] |}.

Definition SubView_mro : mro := [SubView; BaseView; ClassView; object].

Lemma init_app_registers_most_derived_witness :
  ∃ views : list (string * ViewDecorator),
    NoDup views.*1
    ∧ ("first", a_view "" "rerouted-first" "first") ∈ views
    ∧ ("inherited", a_view "inherited" "inherited" "inherited") ∈ views
    ∧ ("third" ∉ views.*1)
    ∧ ("latent_route" ∉ views.*1)
    ∧ ∀ app, ClassView_init_app SubView_mro false app
             = register_views SubView_mro false views app.
Proof.
  destruct (init_app_registers_most_derived SubView_mro false)
    as (views & Hnodup & Helem & Hplain & Hrun).
  exists views. split; [exact Hnodup|].
  split; [apply Helem; eexists; reflexivity|].
  split; [apply Helem; eexists; reflexivity|].
  split; [|split; [|exact Hrun]].
  - eapply Hplain; [reflexivity|]. intros v Hv. discriminate Hv.
  - eapply Hplain; [reflexivity|]. intros v Hv. discriminate Hv.
Defined.

Example SubView_rules :
  map (λ r, (rule r, endpoint r))
      (url_map (ClassView_init_app SubView_mro false
                  {| url_map := []; callback_calls := [] |}).2)
  = [("/subclasstest", VStr "SubView_first");
     ("/subclasstest/2", VStr "SubView_second");
     ("/subclasstest/second", VStr "SubView_second");
     ("/subclasstest/inherited", VStr "SubView_inherited")].
Proof. vm_compute. reflexivity. Qed.

(** ** InstanceLoader.loader: the joins *)

(** The classes joined by a list of calls on a query, in order. *)
Fixpoint joins_of (ops : list query_op) : list ref :=
  match ops with
  | [] => []
  | Join target :: rest => target :: joins_of rest
  | Filter _ _ :: rest => joins_of rest
  end.

(** The comparisons a list of calls filters by, in order. *)
Fixpoint filters_of (ops : list query_op) : list (ref * pyvalue) :=
  match ops with
  | [] => []
  | Join _ :: rest => filters_of rest
  | Filter lhs rhs :: rest => (lhs, rhs) :: filters_of rest
  end.

Lemma joins_of_app ops1 ops2 :
  joins_of (ops1 ++ ops2) = joins_of ops1 ++ joins_of ops2.
Proof.
  induction ops1 as [|[t|l r] ops1 IH]; simpl; [done| |done]. by rewrite IH.
Qed.

Lemma filters_of_app ops1 ops2 :
  filters_of (ops1 ++ ops2) = filters_of ops1 ++ filters_of ops2.
Proof.
  induction ops1 as [|[t|l r] ops1 IH]; simpl; [done|done|]. by rewrite IH.
Qed.

(** The class a relationship attribute leads to: [a] is an
    [InstrumentedAttribute] whose property is a [RelationshipProperty]; the
    class is the [class_] of its argument when that is a [Mapper], and the
    argument itself otherwise. *)
Definition related_class (w : World) (a : ref) : option ref :=
  match w_kind w a with
  | KInstrumentedAttribute property =>
      match w_kind w property with
      | KRelationshipProperty argument =>
          Some (match w_kind w argument with
                | KMapper class_ => class_
                | _ => argument
                end)
      | _ => None
      end
  | _ => None
  end.

Lemma traverse_run subname query joined_models source w :
  traverse subname (query, joined_models, source) w
  = match w_getattr w source subname with
    | None => (inl (AttributeError subname), w)
    | Some a =>
        match related_class w a with
        | Some c =>
            if decide (c ∈ joined_models) then (inr (query, joined_models, c), w)
            else (inr (query_join query c, {[c]} ∪ joined_models, c), w)
        | None => (inr (query, joined_models, a), w)
        end
    end.
Proof.
  unfold traverse, related_class, getattr, bind, gets, ret.
  destruct (w_getattr w source subname) as [a|]; [|done].
  destruct (w_kind w a) as [| |property| |]; try done.
  destruct (w_kind w property) as [| | |argument|]; try done.
  destruct (w_kind w argument); by case_decide.
Qed.

(** The state of the loop over the filters, against the query [q0] the
    loop started from: the query is [q0] with further calls, no class is
    joined twice by these calls, and [joined_models] holds exactly the
    classes they join. *)
Definition joined_once (q0 : Query) (st : Query * gset ref) : Prop :=
  ∃ ops, q_ops st.1 = q_ops q0 ++ ops
         ∧ NoDup (joins_of ops)
         ∧ ∀ c, c ∈ st.2 ↔ c ∈ joins_of ops.

Lemma joined_once_start q0 : joined_once q0 (q0, ∅).
Proof.
  exists []. rewrite app_nil_r. split; [done|]. split; [constructor|].
  intros c. cbn. set_solver.
Qed.

Lemma joined_once_join q0 query joined_models c :
  c ∉ joined_models →
  joined_once q0 (query, joined_models) →
  joined_once q0 (query_join query c, {[c]} ∪ joined_models).
Proof.
  intros Hc (ops & Hops & Hnd & Hset). exists (ops ++ [Join c]). cbn in *.
  rewrite Hops, joins_of_app, app_assoc. cbn. split; [done|]. split.
  - apply NoDup_app. split; [done|]. split; [|apply NoDup_singleton].
    intros x Hx ->%list_elem_of_singleton. by apply Hc, Hset.
  - intros x. rewrite elem_of_app, list_elem_of_singleton, <-Hset. set_solver.
Qed.

Lemma joined_once_filter q0 query joined_models lhs rhs :
  joined_once q0 (query, joined_models) →
  joined_once q0 (query_filter query lhs rhs, joined_models).
Proof.
  intros (ops & Hops & Hnd & Hset). exists (ops ++ [Filter lhs rhs]).
  cbn in *. rewrite Hops, joins_of_app, app_assoc, app_nil_r. done.
Qed.

Lemma traverse_joined_once q0 subname query joined_models source w st w' :
  joined_once q0 (query, joined_models) →
  traverse subname (query, joined_models, source) w = (inr st, w') →
  joined_once q0 st.1.
Proof.
  intros Hinv. rewrite traverse_run.
  destruct (w_getattr w source subname) as [a|]; [|done].
  destruct (related_class w a) as [c|]; [|by intros [= <- _]].
  case_decide; intros [= <- _]; [done|]. by apply joined_once_join.
Qed.

Lemma traverse_loop_joined_once q0 path query joined_models source w st w' :
  joined_once q0 (query, joined_models) →
  for_each path traverse (query, joined_models, source) w = (inr st, w') →
  joined_once q0 st.1.
Proof.
  revert query joined_models source w.
  induction path as [|subname path IH]; intros query joined_models source w Hinv.
  - by intros [= <- _].
  - cbn [for_each]. rewrite bind_run.
    destruct (traverse subname _ w) as [[e|[[q1 j1] s1]] w1] eqn:Hstep; [done|].
    apply (traverse_joined_once q0) in Hstep; [|done]. by apply IH.
Qed.

Lemma apply_filter_joined_once q0 cls item st w st' w' :
  joined_once q0 st →
  apply_filter cls item st w = (inr st', w') →
  joined_once q0 st'.
Proof.
  destruct item as [name value], st as [query joined_models]. intros Hinv.
  unfold apply_filter. rewrite bind_run. unfold lift at 1.
  destruct (get_model cls) as [e|model]; [done|].
  destruct (contains_char "." name).
  - destruct model as [source|]; [|done]. rewrite bind_run.
    destruct (for_each _ traverse _ w) as [[e|[[q1 j1] s1]] w1] eqn:Hloop;
      [done|].
    apply (traverse_loop_joined_once q0) in Hloop; [|done].
    intros [= <- _]. by apply joined_once_filter.
  - rewrite bind_run. destruct (getattr model name w) as [[e|column] w1]; [done|].
    intros [= <- _]. by apply joined_once_filter.
Qed.

(** C4.  In the loop of [loader] over the filters, started on the query
    [q0] with no model joined, the state after every iteration (the state
    after any number [n] of the filters) is such that no class has been
    joined twice by the calls made on the query so far, and
    [joined_models] holds exactly the classes joined. *)
Theorem loader_joins_each_model_once (cls : mro) (q0 : Query)
    (filters : list (string * pyvalue)) (n : nat) (w w' : World)
    (st : Query * gset ref) :
  for_each (take n filters) (apply_filter cls) (q0, ∅) w = (inr st, w') →
  joined_once q0 st.
Proof.
  generalize (take n filters) (joined_once_start q0).
  generalize (q0, ∅ : gset ref). intros st0 l. revert st0 w.
  induction l as [|item l IH]; intros st0 w Hinv.
  - by intros [= <- _].
  - cbn [for_each]. rewrite bind_run.
    destruct (apply_filter cls item st0 w) as [[e|st1] w1] eqn:Hstep; [done|].
    apply (apply_filter_joined_once q0) in Hstep; [|done]. by apply IH.
Qed.

(** ** InstanceLoader.loader: the query *)

(** Resolving a dotted path from a class: every part is an attribute of
    the class reached so far; a relationship attribute leads to its related
    class.  The result is the object the last part leads to, with the
    related classes passed through, in order. *)
Fixpoint resolve_path (w : World) (source : ref) (path : list string)
  : option (ref * list ref) :=
  match path with
  | [] => Some (source, [])
  | subname :: rest =>
      match w_getattr w source subname with
      | None => None
      | Some a =>
          match related_class w a with
          | Some c =>
              match resolve_path w c rest with
              | Some (column, related) => Some (column, c :: related)
              | None => None
              end
          | None => resolve_path w a rest
          end
      end
  end.

(** Resolving a mapped model attribute: a dotted path, or one attribute
    of the model. *)
Definition resolve_attribute (w : World) (model : ref) (name : string)
  : option (ref * list ref) :=
  if contains_char "." name then resolve_path w model (split "." name)
  else match w_getattr w model name with
       | Some a => Some (a, [])
       | None => None
       end.

(** The classes of [related] not yet in [joined], each once, at its first
    occurrence. *)
Fixpoint fresh_joins (related : list ref) (joined : gset ref) : list ref :=
  match related with
  | [] => []
  | c :: rest =>
      if decide (c ∈ joined) then fresh_joins rest joined
      else c :: fresh_joins rest ({[c]} ∪ joined)
  end.

Lemma fresh_joins_app l1 l2 joined :
  fresh_joins (l1 ++ l2) joined
  = fresh_joins l1 joined ++ fresh_joins l2 (list_to_set l1 ∪ joined).
Proof.
  revert joined. induction l1 as [|c l1 IH]; intros joined; simpl.
  - f_equal. set_solver.
  - case_decide as Hc.
    + rewrite IH. do 2 f_equal. set_solver.
    + rewrite IH. simpl. do 3 f_equal. set_solver.
Qed.

Lemma fresh_joins_elem related joined c :
  c ∈ fresh_joins related joined ↔ c ∈ related ∧ c ∉ joined.
Proof.
  revert joined. induction related as [|c' rest IH]; intros joined; simpl.
  - split; [by intros ?%elem_of_nil|by intros [?%elem_of_nil _]].
  - case_decide as Hc'.
    + rewrite IH, elem_of_cons. naive_solver.
    + rewrite !elem_of_cons, IH, not_elem_of_union, elem_of_singleton.
      destruct (decide (c = c')) as [->|Hne]; naive_solver.
Qed.

Lemma fresh_joins_NoDup related joined : NoDup (fresh_joins related joined).
Proof.
  revert joined. induction related as [|c rest IH]; intros joined; simpl.
  - constructor.
  - case_decide; [apply IH|]. constructor; [|apply IH].
    rewrite fresh_joins_elem. set_solver.
Qed.

Lemma joins_of_Join l : joins_of (Join <$> l) = l.
Proof.
  induction l as [|c l IH]; [done|]. rewrite fmap_cons. cbn [joins_of].
  by rewrite IH.
Qed.

Lemma filters_of_Join l : filters_of (Join <$> l) = [].
Proof. induction l as [|c l IH]; [done|]. by rewrite fmap_cons. Qed.

(** What the state of the loops becomes: the query with further calls,
    and the classes joined. *)
Definition extends (query query' : Query) (ops : list query_op) : Prop :=
  q_model query' = q_model query ∧ q_ops query' = q_ops query ++ ops.

Lemma extends_trans q1 q2 q3 ops1 ops2 :
  extends q1 q2 ops1 → extends q2 q3 ops2 → extends q1 q3 (ops1 ++ ops2).
Proof.
  intros [Hm1 Ho1] [Hm2 Ho2]. split; [congruence|].
  by rewrite Ho2, Ho1, app_assoc.
Qed.

Lemma traverse_loop_run w path query joined_models source column related :
  resolve_path w source path = Some (column, related) →
  ∃ query',
    for_each path traverse (query, joined_models, source) w
    = (inr (query', list_to_set related ∪ joined_models, column), w)
    ∧ extends query query' (Join <$> fresh_joins related joined_models).
Proof.
  revert query joined_models source column related.
  induction path as [|subname path IH];
    intros query joined_models source column related;
    cbn [for_each resolve_path].
  - intros [= <- <-]. exists query. split.
    + same_run.
    + split; [done|]. by rewrite app_nil_r.
  - rewrite bind_run, traverse_run.
    destruct (w_getattr w source subname) as [a|]; [|done].
    destruct (related_class w a) as [c|].
    + destruct (resolve_path w c path) as [[column' related']|] eqn:Hrest;
        [|done].
      intros [= <- <-]. simpl. case_decide as Hc.
      * destruct (IH query joined_models c _ _ Hrest) as (q' & -> & Hext).
        exists q'. split; [|done]. same_run.
      * destruct (IH (query_join query c) ({[c]} ∪ joined_models) c _ _ Hrest)
          as (q' & -> & Hext).
        exists q'. split; [same_run|].
        apply (extends_trans query (query_join query c) q' [Join c]);
          [done|exact Hext].
    + intros Hrest. apply (IH query joined_models a _ _ Hrest).
Qed.

Lemma apply_filter_run w cls model name value query joined_models column related :
  get_model cls = inr (Some model) →
  resolve_attribute w model name = Some (column, related) →
  ∃ query',
    apply_filter cls (name, value) (query, joined_models) w
    = (inr (query', list_to_set related ∪ joined_models), w)
    ∧ extends query query'
        ((Join <$> fresh_joins related joined_models) ++ [Filter column value]).
Proof.
  intros Hmodel. unfold resolve_attribute, apply_filter.
  rewrite bind_run, Hmodel. unfold lift at 1.
  destruct (contains_char "." name).
  - intros Hres.
    destruct (traverse_loop_run w _ query joined_models _ _ _ Hres)
      as (q' & Hrun & Hext).
    exists (query_filter q' column value). rewrite bind_run, Hrun. split; [done|].
    apply (extends_trans query q' _ _ [Filter column value]); [done|].
    by split.
  - unfold getattr. rewrite bind_run.
    destruct (w_getattr w model name) as [a|]; [|done]. intros [= <- <-].
    exists (query_filter query a value). split.
    + same_run.
    + by split.
Qed.

Lemma filter_loop_run w cls model filters resolved query joined_models :
  get_model cls = inr (Some model) →
  Forall2 (λ item res, resolve_attribute w model item.1 = Some res)
          filters resolved →
  ∃ query' ops,
    for_each filters (apply_filter cls) (query, joined_models) w
    = (inr (query', list_to_set (concat resolved.*2) ∪ joined_models), w)
    ∧ extends query query' ops
    ∧ filters_of ops = zip_with (λ item res, (res.1, item.2)) filters resolved
    ∧ joins_of ops = fresh_joins (concat resolved.*2) joined_models.
Proof.
  intros Hmodel Hall. revert query joined_models.
  induction Hall as [|[name value] [column related] filters resolved Hres _ IH];
    intros query joined_models.
  - exists query, []. simpl. split; [|split; [split|]; try done].
    + same_run.
    + by rewrite app_nil_r.
  - simpl in Hres.
    destruct (apply_filter_run w cls model name value query joined_models
                _ _ Hmodel Hres) as (q1 & Hrun1 & Hext1).
    destruct (IH q1 (list_to_set related ∪ joined_models))
      as (q2 & ops & Hrun2 & Hext2 & Hf & Hj).
    exists q2, (((Join <$> fresh_joins related joined_models)
                 ++ [Filter column value]) ++ ops).
    cbn [for_each]. rewrite bind_run, Hrun1, Hrun2.
    split; [|split; [by eapply extends_trans|split]].
    + rewrite fmap_cons. simpl. same_run.
    + rewrite !filters_of_app, filters_of_Join, Hf. done.
    + rewrite !joins_of_app, joins_of_Join, Hj, fmap_cons. simpl.
      by rewrite fresh_joins_app, app_nil_r.
Qed.

(** The filters are the mapped URL variables. *)

Lemma dict_set_elem {A} k (v : A) d k' v' :
  (k', v') ∈ dict_set k v d → (k' = k ∧ v' = v) ∨ (k', v') ∈ d.
Proof.
  induction d as [|[k0 v0] d IH]; simpl.
  - intros [= -> ->]%list_elem_of_singleton. by left.
  - case_decide.
    + intros [[= -> ->]|?]%elem_of_cons; [by left|]. right. by right.
    + intros [[= -> ->]|?]%elem_of_cons; [right; by left|].
      destruct IH as [?|?]; [done|by left|]. right. by right.
Qed.

Lemma dict_set_has {A} k (v : A) d k' :
  (∃ v', (k', v') ∈ d) ∨ k' = k → ∃ v', (k', v') ∈ dict_set k v d.
Proof.
  induction d as [|[k0 v0] d IH]; simpl.
  - intros [[? ?%elem_of_nil]| ->]; [done|]. exists v. by left.
  - intros Hk. case_decide as Hk0.
    + subst k0. destruct Hk as [[v' [[= -> ->]|?]%elem_of_cons]| ->].
      * exists v. by left.
      * exists v'. by right.
      * exists v. by left.
    + destruct Hk as [[v' [[= -> ->]|?]%elem_of_cons]| ->].
      * exists v0. by left.
      * destruct IH as [v'' ?]; [left; eauto|]. exists v''. by right.
      * destruct IH as [v'' ?]; [by right|]. exists v''. by right.
Qed.

Lemma make_filters_elem rmm (kw : kwargs) name value :
  (name, value) ∈ make_filters rmm kw →
  ∃ key, (key, value) ∈ kw ∧ rmm !! key = Some name.
Proof.
  unfold make_filters.
  assert (∀ acc,
    (name, value) ∈ foldl (λ filters item,
        match rmm !! item.1 with
        | Some attr_name => dict_set attr_name item.2 filters
        | None => filters
        end) acc kw →
    (name, value) ∈ acc ∨ ∃ key, (key, value) ∈ kw ∧ rmm !! key = Some name)
    as Hgen.
  { induction kw as [|[key v] kw IH]; intros acc; simpl; [by left|].
    intros [Hacc|(key' & ? & ?)]%IH.
    - destruct (rmm !! key) as [a|] eqn:Hkey; [|by left].
      apply dict_set_elem in Hacc as [[-> ->]|?]; [|by left].
      right. exists key. split; [by left|done].
    - right. exists key'. split; [by right|done]. }
  intros [?%elem_of_nil|?]%Hgen; done.
Qed.

Lemma make_filters_has rmm (kw : kwargs) key value name :
  (key, value) ∈ kw → rmm !! key = Some name →
  ∃ value', (name, value') ∈ make_filters rmm kw.
Proof.
  unfold make_filters. generalize (@nil (string * pyvalue)).
  induction kw as [|[key0 v0] kw IH]; intros acc; [by intros ?%elem_of_nil|].
  assert (∀ acc, (∃ v', (name, v') ∈ acc) →
    ∃ value', (name, value') ∈ foldl (λ filters item,
        match rmm !! item.1 with
        | Some attr_name => dict_set attr_name item.2 filters
        | None => filters
        end) acc kw) as Hkeep.
  { clear IH. induction kw as [|[k1 v1] kw IH']; intros acc' Hacc; [done|].
    simpl. apply IH'. destruct (rmm !! k1); [|done].
    apply dict_set_has. by left. }
  intros [[= <- <-]|Hin]%elem_of_cons Hkey; simpl.
  - rewrite Hkey. apply Hkeep, dict_set_has. by right.
  - by apply IH.
Qed.

(** ** Calling a view of a ModelView *)

(** The world after the query [q] was sent to the database. *)
Definition sent (w : World) (q : Query) : World :=
  {| w_kind := w_kind w; w_getattr := w_getattr w;
     w_one_or_404 := w_one_or_404 w; w_issued := w_issued w ++ [q] |}.

(** [loader] of the class is [InstanceLoader.loader]. *)
Definition uses_InstanceLoader (cls : mro) : Prop :=
  ∃ rest, mro_lookup "loader" cls = Some (AFunction fn_InstanceLoader_loader, rest).

(** [before_request] of the class is [ModelView.before_request], and its
    [super] call reaches [ClassView.before_request]. *)
Definition uses_ModelView_before_request (cls : mro) : Prop :=
  ∃ rest rest',
    mro_lookup "before_request" cls
    = Some (AFunction fn_ModelView_before_request, rest)
    ∧ mro_lookup "before_request" rest
      = Some (AFunction fn_ClassView_before_request, rest').

Lemma call_before_request_run cls bases self _view kw w :
  call_before_request cls bases self _view kw w
  = match mro_lookup "before_request" bases with
    | None => (inl (AttributeError "before_request"), w)
    | Some (AFunction fn_ClassView_before_request, _) =>
        if names_parameter ["self"; "_view"] kw then (inl TypeError, w)
        else (inr self, w)
    | Some (AFunction fn_ModelView_before_request, rest) =>
        if names_parameter ["self"; "_view"] kw then (inl TypeError, w)
        else
          (self <- call_before_request cls rest self _view kw ;;
           obj <- call_loader cls {| self_kwargs := Some kw;
                                     self_obj := self_obj self |} ;;
           ret {| self_kwargs := Some kw; self_obj := Some obj |}) w
    | Some (AFunction (UserFunction body), _) =>
        (lift (body self [VStr _view] kw) ;;; ret self) w
    | Some _ => (inl TypeError, w)
    end.
Proof.
  induction bases as [|base rest IH]; [done|].
  cbn [call_before_request mro_lookup].
  destruct (dict_get "before_request" (__dict__ base)) as [a|]; [|exact IH].
  destruct a as [|f| | | | | |]; try done.
  destruct f; try done; by destruct (names_parameter _ kw).
Qed.

Lemma ModelView_before_request_run cls self _view kw w :
  uses_ModelView_before_request cls →
  call_before_request cls cls self _view kw w
  = if names_parameter ["self"; "_view"] kw then (inl TypeError, w)
    else (obj <- call_loader cls {| self_kwargs := Some kw;
                                    self_obj := self_obj self |} ;;
          ret {| self_kwargs := Some kw; self_obj := Some obj |}) w.
Proof.
  intros (rest & rest' & Hcls & Hrest).
  rewrite call_before_request_run, Hcls.
  destruct (names_parameter _ kw) eqn:Hnames; [done|].
  rewrite bind_run. by rewrite call_before_request_run, Hrest, Hnames.
Qed.

Lemma existsb_mapped (rmm : gmap string string) (kw : kwargs) :
  existsb (λ item, bool_decide (is_Some (rmm !! item.1))) kw = true
  ↔ ∃ key value, (key, value) ∈ kw ∧ is_Some (rmm !! key).
Proof.
  rewrite existsb_exists. split.
  - intros ([key value] & Hin%list_elem_of_In & Hb%bool_decide_eq_true).
    eauto.
  - intros (key & value & Hin & Hsome). exists (key, value).
    split; [by apply list_elem_of_In|by apply bool_decide_eq_true].
Qed.

(** What [loader] and a view call do when a URL variable is mapped;
    [resolved] gives, for each filter, the object its attribute name leads
    to and the related classes on the way. *)
Definition loads_instance (cls : mro) (w : World) (kw : kwargs)
    (rmm : gmap string string) (self_query : option Query) (model : ref)
    (resolved : list (ref * list ref)) : Prop :=
  let filters := make_filters rmm kw in
  let q0 := default (model_query model) self_query in
  (* every filter is a mapped attribute with the value of a URL variable
     mapped to it, and every mapped attribute has its filter *)
  (∀ name value, (name, value) ∈ filters →
     ∃ key, (key, value) ∈ kw ∧ rmm !! key = Some name)
  ∧ (∀ key value name, (key, value) ∈ kw → rmm !! key = Some name →
       ∃ value', (name, value') ∈ filters)
  ∧ ∃ q ops,
      (* the query: the base query, filtered by the resolved attribute of
         each filter, with the related classes joined, each once *)
      extends q0 q ops
      ∧ filters_of ops = zip_with (λ item res, (res.1, item.2)) filters resolved
      ∧ NoDup (joins_of ops)
      ∧ (∀ c, c ∈ joins_of ops ↔ c ∈ concat resolved.*2)
      (* loader returns what one_or_404 gives for it *)
      ∧ (∀ self, self_kwargs self = Some kw →
           InstanceLoader_loader cls self w = (w_one_or_404 w q, sent w q))
      (* and the handler of a view runs on an instance that holds it,
         unless a URL variable has the name of a parameter of
         [before_request] *)
      ∧ ∀ vf args, view_class vf = cls →
          call_view_func vf args kw w
          = if names_parameter ["self"; "_view"] kw then (inl TypeError, w)
            else (match w_one_or_404 w q with
                  | inr obj => wrapped_func vf {| self_kwargs := Some kw;
                                                  self_obj := Some obj |} args kw
                  | inl e => inl e
                  end, sent w q).

(** C3, as amended.  For a ModelView that uses InstanceLoader and has a
    model, when a URL rule variable is a key of [route_model_map] and the
    mapped attribute names resolve on the model, [loader] filters the
    query ([self.query], or the query of the model) by the equality of
    each mapped attribute with the value of its URL variable, dotted names
    being resolved through relationship attributes to the related classes,
    which are joined; it returns the result of [one_or_404] on that query.
    A view called with these URL variables raises [TypeError] at once when
    one of them is named [self] or [_view]; otherwise [before_request] has
    stored the result of [loader] at [self.obj] when the handler runs. *)
Theorem loader_loads_instance (cls : mro) (w : World) (kw : kwargs)
    (rmm : gmap string string) (self_query : option Query) (model : ref)
    (resolved : list (ref * list ref)) :
  uses_InstanceLoader cls →
  uses_ModelView_before_request cls →
  get_route_model_map cls = inr rmm →
  get_query cls = inr self_query →
  get_model cls = inr (Some model) →
  (∃ key value, (key, value) ∈ kw ∧ is_Some (rmm !! key)) →
  Forall2 (λ item res, resolve_attribute w model item.1 = Some res)
          (make_filters rmm kw) resolved →
  loads_instance cls w kw rmm self_query model resolved.
Proof.
  intros [lrest Hloader] Hbefore Hrmm Hquery Hmodel Hmapped Hresolved.
  split; [apply make_filters_elem|]. split; [apply make_filters_has|].
  destruct (filter_loop_run w cls model _ _
              (default (model_query model) self_query) ∅ Hmodel Hresolved)
    as (q & ops & Hrun & Hext & Hfilters & Hjoins).
  assert (∀ self, self_kwargs self = Some kw →
            InstanceLoader_loader cls self w = (w_one_or_404 w q, sent w q))
    as Hload.
  { intros self Hkw. unfold InstanceLoader_loader, get_kwargs.
    rewrite Hkw, bind_run. unfold lift at 1.
    destruct kw as [|item kw'].
    { destruct Hmapped as (? & ? & ?%elem_of_nil & _). done. }
    rewrite bind_run, Hrmm. unfold lift at 1.
    apply existsb_mapped in Hmapped. rewrite Hmapped.
    rewrite bind_run, Hquery. unfold lift at 1. rewrite bind_run.
    assert ((match self_query with
             | Some q1 => ret q1
             | None =>
                 model0 <- lift (get_model cls) ;;
                 match model0 with
                 | Some m => ret (model_query m)
                 | None => raise (AttributeError "query")
                 end
             end) w = (inr (default (model_query model) self_query), w)) as ->.
    { destruct self_query; [done|]. by rewrite bind_run, Hmodel. }
    rewrite bind_run, Hrun. reflexivity. }
  exists q, ops. split; [done|]. split; [done|]. split.
  { rewrite Hjoins. apply fresh_joins_NoDup. } split.
  { intros c. rewrite Hjoins, fresh_joins_elem. set_solver. }
  split; [exact Hload|].
  intros vf args <-. unfold call_view_func.
  rewrite bind_run, ModelView_before_request_run by done.
  destruct (names_parameter _ kw); [done|]. rewrite bind_run.
  unfold call_loader. rewrite Hloader, Hload by done. cbn.
  by destruct (w_one_or_404 w q).
Qed.

(** C10.  For a ModelView that uses InstanceLoader, when no URL rule
    variable is a key of [route_model_map], [loader] returns [None] and
    sends no query (the world is as before); and a view called with these
    URL variables either raises [TypeError] before anything is done (a
    variable is named [self] or [_view]: the handler does not run), or
    runs its handler on an instance whose [obj] is [None]. *)
Theorem loader_without_mapped_variable (cls : mro) (w : World) (kw : kwargs)
    (rmm : gmap string string) :
  uses_InstanceLoader cls →
  uses_ModelView_before_request cls →
  get_route_model_map cls = inr rmm →
  (∀ key value, (key, value) ∈ kw → rmm !! key = None) →
  (∀ self, self_kwargs self = Some kw →
     InstanceLoader_loader cls self w = (inr VNone, w))
  ∧ ∀ vf args, view_class vf = cls →
      call_view_func vf args kw w
      = if names_parameter ["self"; "_view"] kw then (inl TypeError, w)
        else (wrapped_func vf {| self_kwargs := Some kw;
                                 self_obj := Some VNone |} args kw, w).
Proof.
  intros [lrest Hloader] Hbefore Hrmm Hnone.
  assert (∀ self, self_kwargs self = Some kw →
            InstanceLoader_loader cls self w = (inr VNone, w)) as Hload.
  { intros self Hkw. unfold InstanceLoader_loader, get_kwargs.
    rewrite Hkw, bind_run. unfold lift at 1.
    destruct kw as [|item kw']; [done|].
    rewrite bind_run, Hrmm. unfold lift at 1.
    destruct (existsb _ (item :: kw')) eqn:Hex; [|done].
    apply existsb_mapped in Hex as (key & value & Hin & Hsome).
    rewrite (Hnone _ _ Hin) in Hsome. by destruct Hsome. }
  split; [exact Hload|].
  intros vf args <-. unfold call_view_func.
  rewrite bind_run, ModelView_before_request_run by done.
  destruct (names_parameter _ kw); [done|]. rewrite bind_run.
  unfold call_loader. by rewrite Hloader, Hload.
Qed.

(** ** A worked example: the scoped document view of the test suite *)

(** The ORM objects: the models [ScopedViewDocument] (1) and
    [ViewDocument] (2), the columns [name] of both and [title] of the
    second, and the relationship [parent] from the first to the second. *)
Definition example_world : World :=
  {| w_kind := λ o,
       match o with
       | 1 | 2 => KClass
       | 10 => KInstrumentedAttribute 11
       | 12 => KInstrumentedAttribute 13
       | 13 => KRelationshipProperty 2
       | 20 => KInstrumentedAttribute 21
       | 22 => KInstrumentedAttribute 23
       | _ => KOther
       end%positive;
     w_getattr := λ o attr_name,
       match o with
       | 1 => if decide (attr_name = "name") then Some 10
              else if decide (attr_name = "parent") then Some 12 else None
       | 2 => if decide (attr_name = "name") then Some 20
              else if decide (attr_name = "title") then Some 22 else None
       | _ => None
       end%positive;
     w_one_or_404 := λ q,
       if decide (q_model q = 1%positive) then inr (VObject 100)
       else inl NotFound;
     w_issued := [] |}.

(** A handler that returns the keyword arguments it was called with:
    [def show(self, **kwargs): return kwargs]. *)
Definition echo_kwargs : handler :=
  λ self args kw,
    match args with
    | [] => if names_parameter ["self"] kw then inl TypeError
            else inr (VDict kw)
    | _ :: _ => inl TypeError
    end.

(** A handler that returns [self.obj]. *)
Definition return_obj : handler :=
  λ self args kw, match self_obj self with
                  | Some obj => inr obj
                  | None => inl (AttributeError "obj")
                  end.

Definition ModelDocumentView : class :=
  {| __name__ := "ModelDocumentView";
     __dict__ := [("__routes__", ARoutes [("/model/<document>", ∅)]);
                  ("model", AModel (Some 2%positive));
                  ("route_model_map", ARouteModelMap {["document" := "name"]});
                  ("view", AViewDecorator {| routes := [("", ∅)];
                                             func := return_obj;
                                             name := "view" |})] |}.

Definition ScopedDocumentView : class :=
  {| __name__ := "ScopedDocumentView";
     __dict__ := [("__routes__", ARoutes [("/model/<parent>/<document>", ∅)]);
                  ("model", AModel (Some 1%positive));
                  ("route_model_map",
                   ARouteModelMap (<["parent" := "parent.name"]>
                                     {["document" := "name"]}))] |}.

Definition ScopedDocumentView_mro : mro :=
  [ScopedDocumentView; ModelDocumentView; UrlForView; InstanceLoader;
   ModelView; ClassView; object].

Definition example_kwargs : kwargs :=
  [("parent", VStr "test1"); ("document", VStr "test2")].

Definition example_route_model_map : gmap string string :=
  <["parent" := "parent.name"]> {["document" := "name"]}.

Example example_filters :
  make_filters example_route_model_map example_kwargs
  = [("parent.name", VStr "test1"); ("name", VStr "test2")].
Proof. reflexivity. Qed.

Example example_split : split "." "parent.name" = ["parent"; "name"].
Proof. reflexivity. Qed.

Lemma ScopedDocumentView_uses_InstanceLoader :
  uses_InstanceLoader ScopedDocumentView_mro.
Proof. eexists. reflexivity. Defined.

Lemma ScopedDocumentView_uses_before_request :
  uses_ModelView_before_request ScopedDocumentView_mro.
Proof. eexists _, _. split; reflexivity. Defined.

Lemma loader_loads_instance_witness :
  loads_instance ScopedDocumentView_mro example_world example_kwargs
    example_route_model_map None 1%positive
    [(20%positive, [2%positive]); (10%positive, [])].
Proof.
  apply loader_loads_instance.
  - exact ScopedDocumentView_uses_InstanceLoader.
  - exact ScopedDocumentView_uses_before_request.
  - reflexivity.
  - reflexivity.
  - reflexivity.
  - exists "parent", (VStr "test1"). split; [left|]. by eexists.
  - repeat constructor.
Defined.

Lemma loader_without_mapped_variable_witness :
  (∀ self, self_kwargs self = Some [("page", VInt 2)] →
     InstanceLoader_loader ScopedDocumentView_mro self example_world
     = (inr VNone, example_world))
  ∧ ∀ vf args, view_class vf = ScopedDocumentView_mro →
      call_view_func vf args [("page", VInt 2)] example_world
      = (wrapped_func vf {| self_kwargs := Some [("page", VInt 2)];
                            self_obj := Some VNone |}
                      args [("page", VInt 2)], example_world).
Proof.
  apply (loader_without_mapped_variable ScopedDocumentView_mro example_world
           [("page", VInt 2)] example_route_model_map).
  - exact ScopedDocumentView_uses_InstanceLoader.
  - exact ScopedDocumentView_uses_before_request.
  - reflexivity.
  - intros key value [[= -> ->]|?%elem_of_nil]%elem_of_cons; [|done].
    reflexivity.
Defined.

(** The same view called with a URL variable that has the name of a
    parameter of [before_request]: the call raises before the loader and
    the handler are reached. *)
Example view_with_variable_named_view :
  ∀ vf args, view_class vf = ScopedDocumentView_mro →
    call_view_func vf args [("_view", VStr "edit")] example_world
    = (inl TypeError, example_world).
Proof. intros vf args Hcls. unfold call_view_func. by rewrite Hcls. Qed.

(** A view of the documents whose map names an attribute that the model
    does not have. *)
Definition NicknameView : class :=
  {| __name__ := "NicknameView";
     __dict__ := [("model", AModel (Some 2%positive));
                  ("route_model_map",
                   ARouteModelMap {["document" := "nickname"]})] |}.

Definition NicknameView_mro : mro :=
  [NicknameView; UrlForView; InstanceLoader; ModelView; ClassView; object].

(** C3, as stated, fails: [NicknameView] is a ModelView that uses
    InstanceLoader, and the URL variable [document] is a key of its
    [route_model_map]; yet [loader] raises [AttributeError] on the mapped
    attribute, no query is sent, and a view called with this URL variable
    raises the same error without running its handler. *)
Lemma loader_raises_on_missing_attribute :
  ModelView ∈ NicknameView_mro
  ∧ uses_InstanceLoader NicknameView_mro
  ∧ uses_ModelView_before_request NicknameView_mro
  ∧ get_route_model_map NicknameView_mro = inr {["document" := "nickname"]}
  ∧ InstanceLoader_loader NicknameView_mro
      {| self_kwargs := Some [("document", VStr "test2")]; self_obj := None |}
      example_world
    = (inl (AttributeError "nickname"), example_world)
  ∧ w_issued example_world = []
  ∧ ∀ vf args, view_class vf = NicknameView_mro →
      call_view_func vf args [("document", VStr "test2")] example_world
      = (inl (AttributeError "nickname"), example_world).
Proof.
  split; [do 3 right; left|].
  split; [eexists; reflexivity|].
  split; [eexists _, _; split; reflexivity|].
  split; [reflexivity|]. split; [reflexivity|]. split; [reflexivity|].
  intros vf args Hcls. unfold call_view_func. rewrite Hcls. reflexivity.
Qed.

(** Three filters, two of them through the relationship [parent]. *)
Definition example_three_filters : list (string * pyvalue) :=
  [("parent.name", VStr "test1"); ("name", VStr "test2");
   ("parent.title", VStr "Test 1")].

Lemma loader_joins_each_model_once_witness :
  joined_once (model_query 1%positive)
    ({| q_model := 1%positive;
        q_ops := [Join 2%positive; Filter 20%positive (VStr "test1");
                  Filter 10%positive (VStr "test2");
                  Filter 22%positive (VStr "Test 1")] |},
     {[2%positive]}).
Proof.
  apply (loader_joins_each_model_once ScopedDocumentView_mro
           (model_query 1%positive) example_three_filters 3
           example_world example_world).
  vm_compute. reflexivity.
Defined.

(** ** The decorator of ModelView *)

(** The function [ViewDecorator.init_app] registers for a view, given the
    decorators of the class. *)
Definition made_view_func (self : ViewDecorator) (cls : mro)
    (decorators : list decorator) : view_func :=
  {| vf_name := name self;
     wrapped_func := foldl (λ wrapped decorator, decorator wrapped)
                           (func self) decorators;
     view_class := cls |}.

Lemma register_rule_run vf callback class_route method_route endpoint app :
  ∃ endpoint' app' r,
    register_rule vf callback class_route method_route endpoint app
    = (inr endpoint', app')
    ∧ url_map app' = url_map app ++ [r] ∧ view r = vf.
Proof.
  destruct class_route as [class_rule class_options],
           method_route as [method_rule method_options].
  unfold register_rule.
  destruct callback; eexists _, _, _; (split; [reflexivity|]); split;
    reflexivity.
Qed.

Lemma register_rules_inner vf callback class_route method_routes endpoint app :
  ∃ endpoint' app' new,
    for_each method_routes (register_rule vf callback class_route) endpoint app
    = (inr endpoint', app')
    ∧ url_map app' = url_map app ++ new ∧ ∀ r, r ∈ new → view r = vf.
Proof.
  revert endpoint app.
  induction method_routes as [|mr mrs IH]; intros endpoint app.
  - exists endpoint, app, []. rewrite app_nil_r.
    split; [done|]. split; [done|]. by intros r ?%elem_of_nil.
  - destruct (register_rule_run vf callback class_route mr endpoint app)
      as (e1 & app1 & r1 & Hrun1 & Hmap1 & Hview1).
    destruct (IH e1 app1) as (e2 & app2 & new & Hrun2 & Hmap2 & Hview2).
    exists e2, app2, (r1 :: new). cbn [for_each].
    rewrite bind_run, Hrun1, Hrun2, Hmap2, Hmap1, <-app_assoc.
    split; [done|]. split; [done|].
    intros r [->|?]%elem_of_cons; auto.
Qed.

Lemma register_rules_outer vf callback class_routes method_routes endpoint app :
  ∃ endpoint' app' new,
    for_each class_routes (λ class_route endpoint,
      for_each method_routes (register_rule vf callback class_route) endpoint)
      endpoint app
    = (inr endpoint', app')
    ∧ url_map app' = url_map app ++ new ∧ ∀ r, r ∈ new → view r = vf.
Proof.
  revert endpoint app.
  induction class_routes as [|cr crs IH]; intros endpoint app.
  - exists endpoint, app, []. rewrite app_nil_r.
    split; [done|]. split; [done|]. by intros r ?%elem_of_nil.
  - destruct (register_rules_inner vf callback cr method_routes endpoint app)
      as (e1 & app1 & new1 & Hrun1 & Hmap1 & Hview1).
    destruct (IH e1 app1) as (e2 & app2 & new2 & Hrun2 & Hmap2 & Hview2).
    exists e2, app2, (new1 ++ new2). cbn [for_each].
    rewrite bind_run, Hrun1, Hrun2, Hmap2, Hmap1, <-app_assoc.
    split; [done|]. split; [done|].
    intros r [?|?]%elem_of_app; auto.
Qed.

Lemma ViewDecorator_init_app_rules self cls callback app app' new :
  ViewDecorator_init_app self cls callback app = (inr (), app') →
  url_map app' = url_map app ++ new →
  ∃ decorators,
    get_decorators cls = inr decorators
    ∧ ∀ r, r ∈ new → view r = made_view_func self cls decorators.
Proof.
  unfold ViewDecorator_init_app. rewrite bind_run. unfold lift at 1.
  destruct (get_decorators cls) as [e|decorators]; [done|].
  rewrite bind_run. unfold lift at 1.
  destruct (get_routes cls) as [e|class_routes]; [done|].
  rewrite bind_run.
  destruct (register_rules_outer (made_view_func self cls decorators) callback
              class_routes (routes self)
              (VStr (cls_name cls +:+ "_" +:+ name self)) app)
    as (e1 & app1 & new1 & Hrun & Hmap & Hview).
  unfold made_view_func in Hrun. rewrite Hrun. intros [= <-] Hnew.
  rewrite Hmap in Hnew. apply app_inv_head in Hnew as <-.
  exists decorators. split; [done|exact Hview].
Qed.

(** Every handler of the class, called as a view, is called with [self]
    alone: whatever the URL variables, a call of a registered view that
    reaches the handler is the call of the handler, without arguments, on
    the instance that [before_request] has prepared; a URL variable named
    [self] makes the call raise before the handler is reached. *)
Definition handler_called_with_self_alone (cls : mro) : Prop :=
  ∀ (v : ViewDecorator) callback app app' new r kw w,
    ViewDecorator_init_app v cls callback app = (inr (), app') →
    url_map app' = url_map app ++ new →
    r ∈ new →
    call_view_func (view r) [] kw w
    = (viewinst <- call_before_request cls cls
                     {| self_kwargs := None; self_obj := None |} (name v) kw ;;
       if names_parameter ["self"] kw then raise TypeError
       else lift (func v viewinst [] [])) w.

(** C9, as amended.  On a ModelView subclass whose [__decorators__] is the
    list of ModelView, every handler called as a view is called with
    [self] alone, without the URL variables; and where [before_request] is
    the one of ModelView, it raises [TypeError] for keyword arguments that
    name its parameters [self] or [_view], and for any others it has
    stored the keyword arguments at [self.kwargs] and then the result of
    [loader] at [self.obj]. *)
Theorem modelview_handler_receives_no_kwargs (cls : mro) :
  get_decorators cls = inr [_modelview_view_decorator] →
  handler_called_with_self_alone cls
  ∧ (uses_ModelView_before_request cls →
     ∀ self _view kw w,
       call_before_request cls cls self _view kw w
       = if names_parameter ["self"; "_view"] kw then (inl TypeError, w)
         else (obj <- call_loader cls {| self_kwargs := Some kw;
                                         self_obj := self_obj self |} ;;
               ret {| self_kwargs := Some kw; self_obj := Some obj |}) w).
Proof.
  intros Hdec. split.
  - intros v callback app app' new r kw w Hinit Hnew Hr.
    destruct (ViewDecorator_init_app_rules _ _ _ _ _ _ Hinit Hnew)
      as (decorators & Hdec' & Hview).
    rewrite Hdec in Hdec'. injection Hdec' as <-.
    rewrite (Hview r Hr). unfold call_view_func.
    cbn [made_view_func view_class vf_name wrapped_func foldl].
    rewrite !bind_run.
    destruct (call_before_request cls cls _ (name v) kw w) as [[e|viewinst] w1];
      [done|].
    unfold _modelview_view_decorator, lift, raise.
    by destruct (names_parameter ["self"] kw).
  - intros Hbefore self _view kw w.
    by apply ModelView_before_request_run.
Qed.

(** A subclass of ModelView that sets its own [__decorators__]. *)
Definition PlainView : class :=
  {| __name__ := "PlainView";
     __dict__ := [("__decorators__", ADecorators []);
                  ("show", AViewDecorator {| routes := [("show/<document>", ∅)];
                                             func := echo_kwargs;
                                             name := "show" |})] |}.

Definition PlainView_mro : mro := [PlainView; ModelView; ClassView; object].

Definition ModelDocumentView_mro : mro :=
  [ModelDocumentView; UrlForView; InstanceLoader; ModelView; ClassView; object].

Lemma modelview_handler_receives_no_kwargs_witness :
  handler_called_with_self_alone ModelDocumentView_mro
  ∧ (uses_ModelView_before_request ModelDocumentView_mro →
     ∀ self _view kw w,
       call_before_request ModelDocumentView_mro ModelDocumentView_mro
                           self _view kw w
       = if names_parameter ["self"; "_view"] kw then (inl TypeError, w)
         else (obj <- call_loader ModelDocumentView_mro
                        {| self_kwargs := Some kw;
                           self_obj := self_obj self |} ;;
               ret {| self_kwargs := Some kw; self_obj := Some obj |}) w).
Proof.
  apply (modelview_handler_receives_no_kwargs ModelDocumentView_mro).
  reflexivity.
Defined.

(** C9, as stated, fails: [PlainView] is a subclass of ModelView, and its
    handler [show], called as a view for the URL variable [document],
    receives that variable as a keyword argument. *)
Lemma modelview_subclass_handler_gets_kwargs :
  ModelView ∈ PlainView_mro
  ∧ (∃ v, dict_get "show" (__dict__ PlainView) = Some (AViewDecorator v)
          ∧ ∃ app',
              ViewDecorator_init_app v PlainView_mro false
                {| url_map := []; callback_calls := [] |} = (inr (), app')
              ∧ ∃ r, url_map app' = [r]
                     ∧ call_view_func (view r) [] [("document", VStr "x")]
                                      example_world
                       = (inr (VDict [("document", VStr "x")]), example_world))
  ∧ ¬ handler_called_with_self_alone PlainView_mro.
Proof.
  split; [right; left|].
  split.
  - eexists. split; [reflexivity|]. eexists. split; [vm_compute; reflexivity|].
    eexists. split; [reflexivity|]. vm_compute. reflexivity.
  - intros Hclaim.
    pose (v := {| routes := [("show/<document>", ∅ : options)];
                  func := echo_kwargs; name := "show" |}).
    pose (app0 := {| url_map := []; callback_calls := [] |}).
    pose (app1 := (ViewDecorator_init_app v PlainView_mro false app0).2).
    specialize (Hclaim v false app0 app1 (url_map app1)
                  (hd {| rule := ""; endpoint := VNone;
                         view := made_view_func v [] []; rule_options := ∅ |}
                      (url_map app1))
                  [("document", VStr "x")] example_world
                  eq_refl eq_refl).
    specialize (Hclaim ltac:(left)).
    vm_compute in Hclaim. discriminate Hclaim.
Qed.

(** ** The state of the ORM *)














End classview_props.

(* ===================================================================== *)
(** * Properties of the logger *)
(* ===================================================================== *)

Module logger_props.
Import logger.

(** ** Text *)

Example NL_is_newline : NL = String (ascii_of_nat 10) "".
Proof. reflexivity. Qed.

Example split_dashes :
  split "----------" ("Traceback" +:+ NL +:+ "----------" +:+ NL +:+ "Stack")
  = ["Traceback" +:+ NL; NL +:+ "Stack"].
Proof. reflexivity. Qed.

Example split_overlapping : split "----" "a-----b" = ["a"; "-b"].
Proof. reflexivity. Qed.

Example split_empty_part : split "." "a..b" = ["a"; ""; "b"].
Proof. reflexivity. Qed.

Example split_no_separator : split "----" "abc" = ["abc"].
Proof. reflexivity. Qed.

Example strip_example : strip (NL +:+ "  Frame f " +:+ TAB +:+ NL) = "Frame f".
Proof. reflexivity. Qed.

Example split_newline_once_example :
  split_newline_once ("first" +:+ NL +:+ "second" +:+ NL +:+ "third")
  = ["first"; "second" +:+ NL +:+ "third"].
Proof. reflexivity. Qed.

Example chomp_example : chomp ("text" +:+ NL +:+ NL) = "text" +:+ NL.
Proof. reflexivity. Qed.

Example rjust20_example : rjust20 "key" = "                 key".
Proof. reflexivity. Qed.

Example pprint_with_indent_example :
  pprint_with_indent (inr ("{'a': 1," +:+ NL +:+ " 'b': 2}" +:+ NL)) "ctx:"
  = inr ("ctx:    {'a': 1," +:+ NL +:+ "     'b': 2}" +:+ NL +:+ "    ").
Proof. reflexivity. Qed.

(** ** Secondary failures *)

(** The same state on another network. *)
Definition with_network (n : http_request → option exn) (s : Net) : Net :=
  {| error_throttle_timestamp_sms := error_throttle_timestamp_sms s;
     error_throttle_timestamp_slack := error_throttle_timestamp_slack s;
     clock := clock s; ticks := ticks s;
     network := n; posts := posts s |}.

(** A never-failing network. *)
Definition reliable : http_request → option exn := λ _, None.

(** A computation that does not see whether posts fail: on another
    network it gives the same result and the same state. *)
Definition net_blind {A} (m : M Net A) : Prop :=
  ∀ n s, m (with_network n s)
         = (let '(r, s') := m s in (r, with_network n s')).

Lemma net_blind_ret {A} (a : A) : net_blind (ret a).
Proof. by intros n s. Qed.

Lemma net_blind_lift {A} (r : result A) : net_blind (lift r).
Proof. by intros n s. Qed.

Lemma net_blind_raise {A} e : net_blind (raise (A:=A) e).
Proof. by intros n s. Qed.

Lemma net_blind_bind {A B} (m : M Net A) (k : A → M Net B) :
  net_blind m → (∀ a, net_blind (k a)) → net_blind (bind m k).
Proof.
  intros Hm Hk n s. unfold bind. rewrite Hm.
  destruct (m s) as [[e|a] s1]; [done|]. apply Hk.
Qed.

Lemma net_blind_for_each {A B} (l : list A) (body : A → B → M Net B) acc :
  (∀ x b, net_blind (body x b)) → net_blind (for_each l body acc).
Proof.
  intros Hbody. revert acc. induction l as [|x l IH]; intros acc.
  - apply net_blind_ret.
  - cbn [for_each]. apply net_blind_bind; [apply Hbody|apply IH].
Qed.

Lemma net_blind_utcnow : net_blind utcnow.
Proof. by intros n s. Qed.

Lemma net_blind_set_throttle_sms key t : net_blind (set_throttle_sms key t).
Proof. by intros n s. Qed.

Lemma net_blind_set_throttle_slack key t : net_blind (set_throttle_slack key t).
Proof. by intros n s. Qed.

Lemma net_blind_throttle_open_sms key :
  net_blind (throttle_open error_throttle_timestamp_sms key).
Proof.
  apply net_blind_bind; [by intros n s|].
  intros [t|]; [|apply net_blind_ret].
  apply net_blind_bind; [apply net_blind_utcnow|]. intros; apply net_blind_ret.
Qed.

Lemma net_blind_throttle_open_slack key :
  net_blind (throttle_open error_throttle_timestamp_slack key).
Proof.
  apply net_blind_bind; [by intros n s|].
  intros [t|]; [|apply net_blind_ret].
  apply net_blind_bind; [apply net_blind_utcnow|]. intros; apply net_blind_ret.
Qed.

(** A post inside [try] with a bare [except: pass] is net-blind: the
    request is made, and its failure is dropped. *)
Lemma net_blind_guarded_post (before : result http_request) :
  net_blind (try_except (r <- lift before ;; requests_post r) (ret ())).
Proof.
  intros n s. unfold try_except, bind, lift, requests_post, ret.
  destruct before as [e|r]; [done|]. cbn.
  destruct (n r), (network s r); reflexivity.
Qed.

Lemma guarded_post_returns (before : result http_request) s :
  (try_except (r <- lift before ;; requests_post r) (ret ()) s).1 = inr ().
Proof.
  unfold try_except, bind, lift, requests_post, ret.
  destruct before as [e|r]; [done|]. cbn. by destruct (network s r).
Qed.

(** [sendsms] is such a guarded post. *)
Lemma SMSHandler_sendsms_guarded self number body :
  ∃ before,
    SMSHandler_sendsms self number body
    = try_except (r <- lift before ;; requests_post r) (ret ()).
Proof.
  unfold SMSHandler_sendsms.
  destruct (py_startswith number "+91") as [e|[]] eqn:Hs.
  - exists (inl e). reflexivity.
  - eexists (inr _). reflexivity.
  - eexists (inr _). reflexivity.
Qed.

Lemma net_blind_sendsms self number body :
  net_blind (SMSHandler_sendsms self number body).
Proof.
  destruct (SMSHandler_sendsms_guarded self number body) as [before ->].
  apply net_blind_guarded_post.
Qed.

Lemma net_blind_post_to_webhook record key data webhook u :
  net_blind (post_to_webhook record key data webhook u).
Proof.
  unfold post_to_webhook.
  apply net_blind_bind; [apply net_blind_lift|]. intros levelnames.
  apply net_blind_bind; [apply net_blind_lift|]. intros [|];
    [|apply net_blind_ret].
  apply net_blind_bind; [apply net_blind_lift|]. intros payload.
  apply net_blind_bind.
  - destruct (py_getitem webhook "url") as [e|hook_url].
    + apply (net_blind_guarded_post (inl e)).
    + apply (net_blind_guarded_post (inr _)).
  - intros _. apply net_blind_bind; [apply net_blind_utcnow|].
    intros now. apply net_blind_set_throttle_slack.
Qed.

Lemma net_blind_SlackHandler_emit self record :
  net_blind (SlackHandler_emit self record).
Proof.
  unfold SlackHandler_emit.
  apply net_blind_bind; [apply net_blind_throttle_open_slack|].
  intros [|]; [|apply net_blind_ret].
  apply net_blind_bind; [apply net_blind_lift|]. intros hooks.
  apply net_blind_bind; [apply net_blind_lift|]. intros names.
  destruct (negb _); [apply net_blind_ret|].
  apply net_blind_bind; [apply net_blind_lift|]. intros message.
  apply net_blind_bind; [apply net_blind_lift|]. intros info.
  apply net_blind_for_each. intros webhook u. apply net_blind_post_to_webhook.
Qed.

Lemma net_blind_SMSHandler_emit self record :
  net_blind (SMSHandler_emit self record).
Proof.
  unfold SMSHandler_emit.
  apply net_blind_bind; [apply net_blind_throttle_open_sms|].
  intros [|]; [|apply net_blind_ret].
  apply net_blind_bind; [apply net_blind_lift|]. intros message.
  apply net_blind_bind; [apply net_blind_lift|]. intros info.
  apply net_blind_bind; [apply net_blind_lift|]. intros numbers.
  apply net_blind_bind.
  - apply net_blind_for_each. intros number u. apply net_blind_sendsms.
  - intros _. apply net_blind_bind; [apply net_blind_utcnow|].
    intros now. apply net_blind_set_throttle_sms.
Qed.

(** *** An emit of the Slack handler that has posted returns normally *)

(** The state after one reading of the clock. *)
Definition ticked (s : Net) : Net :=
  {| error_throttle_timestamp_sms := error_throttle_timestamp_sms s;
     error_throttle_timestamp_slack := error_throttle_timestamp_slack s;
     clock := clock s; ticks := S (ticks s);
     network := network s; posts := posts s |}.

Lemma throttle_open_run throttle key s :
  ∃ b s1, throttle_open throttle key s = (inr b, s1) ∧ (s1 = s ∨ s1 = ticked s).
Proof.
  unfold throttle_open, bind, gets, utcnow, ret.
  destruct (throttle s !! key); eauto.
Qed.

(** A webhook that [emit] can handle: a dictionary whose [levelnames],
    when present, can be iterated. *)
Definition usable_webhook (webhook : pyvalue) : Prop :=
  ∃ d l, webhook = VDict d
         ∧ py_iter (from_option id (VList []) (dict_get "levelnames" d)) = inr l.

Lemma all_levelnames_failed e hooks : foldl add_levelnames (inl e) hooks = inl e.
Proof. induction hooks as [|h hooks IH]; [done|]. exact IH. Qed.

Lemma all_levelnames_usable_from acc hooks names :
  foldl add_levelnames (inr acc) hooks = inr names → Forall usable_webhook hooks.
Proof.
  revert acc. induction hooks as [|h hooks IH]; intros acc; [by constructor|].
  cbn [foldl]. unfold add_levelnames at 2, py_get.
  destruct h as [|b|z|s|l|l|d|id]; try (by rewrite all_levelnames_failed).
  destruct (py_iter (from_option id (VList []) (dict_get "levelnames" d)))
    as [e|l] eqn:Hiter; [by rewrite all_levelnames_failed|].
  intros Hrest. constructor; [by exists d, l|]. by eapply IH.
Qed.

Lemma all_levelnames_usable hooks names :
  all_levelnames hooks = inr names → Forall usable_webhook hooks.
Proof. apply all_levelnames_usable_from. Qed.

Lemma iterable_contains s v l :
  py_iter v = inr l → ∃ b, py_contains_str s v = inr b.
Proof. destruct v; try done; intros _; by eexists. Qed.

Lemma copy_webhook_attrs_dict d data :
  ∃ payload, copy_webhook_attrs (VDict d) data = inr payload.
Proof.
  unfold copy_webhook_attrs. generalize data.
  induction ["channel"; "username"; "icon_emoji"] as [|a attrs IH];
    intros p; [by exists p|].
  cbn [foldl py_contains_str py_getitem].
  case_bool_decide as Ha; [|apply IH].
  destruct Ha as [v ->]. apply IH.
Qed.

Lemma post_to_usable_webhook_returns record key data webhook u s :
  usable_webhook webhook →
  (post_to_webhook record key data webhook u s).1 = inr ().
Proof.
  intros (d & l & -> & Hiter). unfold post_to_webhook.
  rewrite classview_props.bind_run. cbn [py_get lift].
  rewrite classview_props.bind_run.
  destruct (iterable_contains (levelname record) _ _ Hiter) as [[|] ->];
    unfold lift at 1; cbn beta iota; [|done].
  rewrite classview_props.bind_run.
  destruct (copy_webhook_attrs_dict d data) as [payload ->].
  unfold lift at 1. cbn beta iota.
  rewrite classview_props.bind_run.
  assert (∃ before,
    try_except
      (hook_url <- lift (py_getitem (VDict d) "url") ;;
       requests_post {| url := UrlValue hook_url; auth := None; data := [];
                        json := Some payload;
                        headers := [("Content-Type", "application/json")] |})
      (ret ())
    = try_except (r <- lift before ;; requests_post r) (ret ()))
    as [before ->].
  { destruct (py_getitem (VDict d) "url") as [e|hook_url].
    - by exists (inl e).
    - by eexists (inr _). }
  pose proof (guarded_post_returns before s) as Hpost.
  destruct (try_except _ _ s) as [[e|[]] s1]; [done|].
  reflexivity.
Qed.

Lemma post_to_usable_webhooks_returns record key data hooks u s :
  Forall usable_webhook hooks →
  (for_each hooks (post_to_webhook record key data) u s).1 = inr ().
Proof.
  intros Hall. revert u s.
  induction Hall as [|webhook hooks Hh _ IH]; intros [] s; [done|].
  cbn [for_each]. rewrite classview_props.bind_run.
  pose proof (post_to_usable_webhook_returns record key data webhook () s Hh)
    as Hstep.
  destruct (post_to_webhook record key data webhook () s) as [[e|[]] s1];
    [done|]. apply IH.
Qed.

Lemma SlackHandler_emit_posting_returns self record s r s' :
  SlackHandler_emit self record s = (r, s') →
  posts s' ≠ posts s →
  r = inr ().
Proof.
  unfold SlackHandler_emit. rewrite classview_props.bind_run.
  destruct (throttle_open_run error_throttle_timestamp_slack
              (module record, lineno record) s) as (b & s1 & -> & Hs1).
  assert (posts s1 = posts s) as Hp1 by (by destruct Hs1 as [-> | ->]).
  destruct b; [|by intros [= <- <-]].
  rewrite classview_props.bind_run. unfold lift at 1.
  destruct (py_iter (webhooks self)) as [e|hooks]; [by intros [= <- <-]|].
  rewrite classview_props.bind_run. unfold lift at 1.
  destruct (all_levelnames hooks) as [e|names] eqn:Hnames;
    [by intros [= <- <-]|].
  destruct (negb _); [by intros [= <- <-]|].
  rewrite classview_props.bind_run. unfold lift at 1.
  destruct (get_message record) as [e|message]; [by intros [= <- <-]|].
  rewrite classview_props.bind_run. unfold lift at 1.
  destruct (exc_info_repr record) as [e|info]; [by intros [= <- <-]|].
  intros Hrun _.
  pose proof (post_to_usable_webhooks_returns record
                (module record, lineno record)
                {| text := "*" +:+ levelname record +:+ "* in "
                           +:+ slack_app_name self +:+ ": " +:+ message
                           +:+ ": `" +:+ info +:+ "`";
                   attachments := map section_attachment
                                      (exc_text_sections record);
                   copied := [] |}
                hooks () s1 (all_levelnames_usable _ _ Hnames)) as Hret.
  by rewrite Hrun in Hret.
Qed.

(** *** formatException *)

(** What [repr] gives in the traceback text: the text of [repr], or the
    substitute when [repr] raises. *)
Definition repr_or_error (value : pyobject) : string :=
  match repr value with
  | inr r => r
  | inl _ => ERROR_WHILE_PRINTING
  end.

(** The object whose [repr] returns that text. *)
Definition printable (value : pyobject) : pyobject :=
  {| repr := inr (repr_or_error value) |}.

Fixpoint printable_frame (f : frame) : frame :=
  match f with
  | Frame co_name co_filename f_lineno f_locals f_back =>
      Frame co_name co_filename f_lineno
            (map (λ item, (item.1, printable item.2)) f_locals)
            (match f_back with
             | Some back => Some (printable_frame back)
             | None => None
             end)
  end.

Fixpoint printable_traceback (tb : traceback) : traceback :=
  match tb with
  | Traceback f next =>
      Traceback (printable_frame f)
                (match next with
                 | Some tb' => Some (printable_traceback tb')
                 | None => None
                 end)
  end.

Definition printable_exc_info (ei : ExcInfo) : ExcInfo :=
  {| exc_value := exc_value ei;
     exc_traceback := printable_traceback (exc_traceback ei);
     exc_printed := exc_printed ei |}.

Lemma format_local_run key value sio ctx :
  format_local (key, value) sio ctx
  = (inr (print (repr_or_error value)
                (print_end_space (TAB +:+ rjust20 key +:+ " = ") sio)), ctx).
Proof.
  unfold format_local, repr_or_error, try_except, bind, lift, ret.
  by destruct (repr value).
Qed.

(** The text of the locals of a frame. *)
Definition locals_text (f_locals : list (string * pyobject)) (sio : string)
  : string :=
  foldl (λ sio item,
           print (repr_or_error item.2)
                 (print_end_space (TAB +:+ rjust20 item.1 +:+ " = ") sio))
        sio f_locals.

Lemma format_locals_run f_locals sio ctx :
  for_each f_locals format_local sio ctx = (inr (locals_text f_locals sio), ctx).
Proof.
  revert sio. induction f_locals as [|[key value] rest IH]; intros sio; [done|].
  cbn [for_each]. unfold bind. rewrite format_local_run. apply IH.
Qed.

Lemma locals_text_printable f_locals sio :
  locals_text (map (λ item, (item.1, printable item.2)) f_locals) sio
  = locals_text f_locals sio.
Proof.
  revert sio. induction f_locals as [|[key value] rest IH]; intros sio; [done|].
  apply IH.
Qed.

Lemma format_frame_returns f sio ctx :
  ∃ sio', format_frame f sio ctx = (inr sio', ctx).
Proof.
  destruct f as [co_name co_filename f_lineno f_locals f_back].
  unfold format_frame. rewrite format_locals_run. eauto.
Qed.

Lemma format_frame_printable f sio ctx :
  format_frame (printable_frame f) sio ctx = format_frame f sio ctx.
Proof.
  destruct f as [co_name co_filename f_lineno f_locals f_back].
  cbn [printable_frame format_frame].
  by rewrite !format_locals_run, locals_text_printable.
Qed.

Lemma format_stack_returns stack sio ctx :
  ∃ sio', for_each stack format_frame sio ctx = (inr sio', ctx).
Proof.
  revert sio. induction stack as [|f stack IH]; intros sio.
  - by exists sio.
  - cbn [for_each]. unfold bind.
    destruct (format_frame_returns f sio ctx) as [sio1 ->]. apply IH.
Qed.

Lemma format_stack_printable stack sio ctx :
  for_each (map printable_frame stack) format_frame sio ctx
  = for_each stack format_frame sio ctx.
Proof.
  revert sio. induction stack as [|f stack IH]; intros sio; [done|].
  cbn [map for_each]. unfold bind. rewrite format_frame_printable.
  destruct (format_frame f sio ctx) as [[e|sio1] ctx1] eqn:Hf; [done|].
  destruct (format_frame_returns f sio ctx) as [sio2 Hf2].
  rewrite Hf in Hf2. injection Hf2 as -> ->. apply IH.
Qed.

Lemma frames_from_printable f :
  frames_from (printable_frame f) = map printable_frame (frames_from f).
Proof.
  revert f. fix IH 1.
  intros [co_name co_filename f_lineno f_locals [back|]].
  - cbn [printable_frame frames_from map]. f_equal. apply IH.
  - reflexivity.
Qed.

Lemma last_traceback_printable tb :
  tb_frame (last_traceback (printable_traceback tb))
  = printable_frame (tb_frame (last_traceback tb)).
Proof.
  revert tb. fix IH 1. intros [f [next|]].
  - cbn [printable_traceback last_traceback]. apply IH.
  - reflexivity.
Qed.

Lemma format_context_returns read title sio ctx :
  ∃ sio', format_context read title sio ctx = (inr sio', ctx).
Proof.
  unfold format_context, bind, gets, try_except, lift, ret.
  destruct (ctx_bool (read ctx)); [|eauto].
  destruct (pprint_with_indent _ _); eauto.
Qed.

Lemma formatException_returns ei ctx :
  ∃ text, formatException ei ctx = (inr text, ctx).
Proof.
  unfold formatException, bind.
  destruct (format_stack_returns
              (frames_from (tb_frame (last_traceback (exc_traceback ei))))
              (print "Stack frames (most recent call first):"
                 (print (NL +:+ "----------" +:+ NL) ("" +:+ exc_printed ei)))
              ctx) as [sio1 ->].
  destruct (format_context_returns request "Request context:" sio1 ctx)
    as [sio2 ->].
  destruct (format_context_returns session "Session cookie contents:" sio2 ctx)
    as [sio3 ->].
  destruct (format_context_returns g "App context:" sio3 ctx) as [sio4 ->].
  destruct (format_context_returns current_auth "Current auth:" sio4 ctx)
    as [sio5 ->].
  by eexists.
Qed.

Lemma formatException_printable ei ctx :
  formatException (printable_exc_info ei) ctx = formatException ei ctx.
Proof.
  unfold formatException. cbn [printable_exc_info exc_traceback exc_printed].
  rewrite last_traceback_printable, frames_from_printable.
  unfold bind at 1 6. by rewrite format_stack_printable.
Qed.

(** An exception raised in [view], called from [dispatch]; the local
    [doc] of [view] cannot be printed. *)
Definition example_exc_info : ExcInfo :=
  let dispatch := Frame "dispatch" "app.py" 10
                        [("rule", {| repr := inr "'/doc'" |})] None in
  let view := Frame "view" "views.py" 42
                    [("self", {| repr := inr "<DocumentView>" |});
                     ("doc", {| repr := inl ValueError |})]
                    (Some dispatch) in
  {| exc_value := {| repr := inr "KeyError('name')" |};
     exc_traceback := Traceback dispatch (Some (Traceback view None));
     exc_printed := "Traceback (most recent call last):" +:+ NL
                    +:+ "KeyError: 'name'" +:+ NL |}.

Definition no_context : FlaskContext :=
  let absent := {| ctx_bool := false; ctx_pprint := inl TypeError |} in
  {| request := absent; session := absent; g := absent;
     current_auth := absent |}.

Example formatException_example :
  formatException example_exc_info no_context
  = (inr ("Traceback (most recent call last):" +:+ NL
          +:+ "KeyError: 'name'" +:+ NL
          +:+ NL +:+ "----------" +:+ NL +:+ NL
          +:+ "Stack frames (most recent call first):" +:+ NL
          +:+ NL +:+ "----" +:+ NL +:+ NL
          +:+ "Frame view in views.py at line 42" +:+ NL
          +:+ TAB +:+ "                self =  <DocumentView>" +:+ NL
          +:+ TAB +:+ "                 doc =  <ERROR WHILE PRINTING VALUE>"
          +:+ NL
          +:+ NL +:+ "----" +:+ NL +:+ NL
          +:+ "Frame dispatch in app.py at line 10" +:+ NL
          +:+ TAB +:+ "                rule =  '/doc'"),
     no_context).
Proof. vm_compute. reflexivity. Qed.

(** C5.  A failure of a post or of a [repr] inside a reporting path is
    caught and the call goes on as if it had not failed: [sendsms] returns
    normally on every input; [SlackHandler.emit] does on any network what
    it does on a network where no post fails, and returns normally
    whenever it has come to post; [formatException] returns normally on
    every input, and a local variable whose [repr] raises is printed as the
    text [<ERROR WHILE PRINTING VALUE>]. *)
Theorem secondary_failures_are_swallowed :
  (∀ self number body s, (SMSHandler_sendsms self number body s).1 = inr ())
  ∧ (∀ self record n s,
       SlackHandler_emit self record (with_network n s)
       = (let '(r, s') := SlackHandler_emit self record (with_network reliable s)
          in (r, with_network n s')))
  ∧ (∀ self record s r s',
       SlackHandler_emit self record s = (r, s') →
       posts s' ≠ posts s →
       r = inr ())
  ∧ (∀ ei ctx, ∃ text, formatException ei ctx = (inr text, ctx))
  ∧ (∀ key value sio ctx e,
       repr value = inl e →
       format_local (key, value) sio ctx
       = (inr (print_end_space (TAB +:+ rjust20 key +:+ " = ") sio
               +:+ "<ERROR WHILE PRINTING VALUE>" +:+ NL), ctx))
  ∧ (∀ ei ctx, formatException ei ctx = formatException (printable_exc_info ei) ctx).
Proof.
  split; [|split; [|split; [|split; [|split]]]].
  - intros self number body s.
    destruct (SMSHandler_sendsms_guarded self number body) as [before ->].
    apply guarded_post_returns.
  - intros self record n s.
    exact (net_blind_SlackHandler_emit self record n (with_network reliable s)).
  - apply SlackHandler_emit_posting_returns.
  - apply formatException_returns.
  - intros key value sio ctx e Hrepr.
    rewrite format_local_run. unfold repr_or_error. by rewrite Hrepr.
  - intros ei ctx. symmetry. apply formatException_printable.
Qed.

(** ** Throttling *)

Lemma throttle_closed throttle key t s :
  throttle s !! key = Some t →
  (clock s (ticks s) - t ≤ five_minutes)%Z →
  throttle_open throttle key s = (inr false, ticked s).
Proof.
  intros Hlast Hrecent. unfold throttle_open, bind, gets, utcnow, ret.
  rewrite Hlast. rewrite bool_decide_eq_false_2 by lia. reflexivity.
Qed.

Lemma throttle_opened throttle key s :
  (throttle_open throttle key s).1 = inr true →
  throttle s !! key = None
  ∨ ∃ t, throttle s !! key = Some t ∧ (clock s (ticks s) - t > five_minutes)%Z.
Proof.
  unfold throttle_open, bind, gets, utcnow, ret.
  destruct (throttle s !! key) as [t|]; [|by left].
  cbn. intros [= Hopen%bool_decide_eq_true]. right. eauto.
Qed.

(** The clock of [s'] is the clock of [s], read at least as often. *)
Definition advanced (s s' : Net) : Prop :=
  clock s' = clock s ∧ ticks s ≤ ticks s'.

Lemma advanced_refl s : advanced s s.
Proof. by split. Qed.

Lemma advanced_trans s1 s2 s3 : advanced s1 s2 → advanced s2 s3 → advanced s1 s3.
Proof. intros [Hc1 Ht1] [Hc2 Ht2]. split; [congruence|lia]. Qed.

Lemma guarded_post_run (before : result http_request) s :
  ∃ s', try_except (r <- lift before ;; requests_post r) (ret ()) s = (inr (), s')
        ∧ clock s' = clock s ∧ ticks s' = ticks s
        ∧ error_throttle_timestamp_sms s' = error_throttle_timestamp_sms s
        ∧ error_throttle_timestamp_slack s' = error_throttle_timestamp_slack s.
Proof.
  unfold try_except, bind, lift, requests_post, ret.
  destruct before as [e|r]; [by eexists|]. cbn.
  destruct (network s r); by eexists.
Qed.

Lemma send_all_run self numbers body s :
  ∃ s', for_each numbers (λ phonenumber (_ : unit),
                            SMSHandler_sendsms self phonenumber body) () s
        = (inr (), s')
        ∧ clock s' = clock s ∧ ticks s' = ticks s
        ∧ error_throttle_timestamp_sms s' = error_throttle_timestamp_sms s.
Proof.
  revert s. induction numbers as [|number numbers IH]; intros s.
  - by exists s.
  - cbn [for_each]. unfold bind.
    destruct (SMSHandler_sendsms_guarded self number body) as [before ->].
    destruct (guarded_post_run before s) as (s1 & -> & Hc1 & Ht1 & Hs1 & _).
    destruct (IH s1) as (s2 & -> & Hc2 & Ht2 & Hs2).
    exists s2. repeat split; congruence.
Qed.

(** An [emit] of the SMS handler that has posted has returned normally
    and has recorded, for the key, a reading of the clock made after the
    posts. *)
Lemma SMSHandler_emit_records self record s r s' :
  SMSHandler_emit self record s = (r, s') →
  posts s' ≠ posts s →
  r = inr ()
  ∧ ∃ k, ticks s ≤ k
         ∧ error_throttle_timestamp_sms s' !! (module record, lineno record)
           = Some (clock s k).
Proof.
  unfold SMSHandler_emit. rewrite classview_props.bind_run.
  destruct (throttle_open_run error_throttle_timestamp_sms
              (module record, lineno record) s) as (b & s1 & -> & Hs1).
  assert (posts s1 = posts s ∧ advanced s s1) as [Hp1 Ha1].
  { destruct Hs1 as [-> | ->]; (split; [done|]); split; cbn; [done|lia|done|lia]. }
  destruct b; [|intros [= _ <-]; done].
  rewrite classview_props.bind_run. unfold lift at 1.
  destruct (get_message record) as [e|message]; [intros [= _ <-]; done|].
  rewrite classview_props.bind_run. unfold lift at 1.
  destruct (exc_info_repr record) as [e|info]; [intros [= _ <-]; done|].
  rewrite classview_props.bind_run. unfold lift at 1.
  destruct (py_iter (phonenumbers self)) as [e|numbers]; [intros [= _ <-]; done|].
  rewrite classview_props.bind_run.
  destruct (send_all_run self numbers
              ("Error in " +:+ sms_app_name self +:+ ". "
               +:+ (message +:+ ": " +:+ info)
               +:+ ". Please check your email for details") s1)
    as (s2 & -> & Hc2 & Ht2 & Hth2).
  unfold bind, utcnow, set_throttle_sms, modify.
  intros [= <- <-] _. split; [done|].
  exists (ticks s2). split; [destruct Ha1; lia|].
  cbn. rewrite lookup_insert_eq. destruct Ha1. congruence.
Qed.

(** The state of an [emit] of the Slack handler started in [s]: nothing
    posted yet, or a reading of the clock made since recorded for the key. *)
Definition slack_recorded (key : string * Z) (s s' : Net) : Prop :=
  advanced s s'
  ∧ (posts s' = posts s
     ∨ ∃ k, ticks s ≤ k
            ∧ error_throttle_timestamp_slack s' !! key = Some (clock s k)).

Lemma post_to_webhook_records record key data webhook u s0 s :
  slack_recorded key s0 s →
  slack_recorded key s0 (post_to_webhook record key data webhook u s).2.
Proof.
  intros Hinv. unfold post_to_webhook.
  rewrite classview_props.bind_run. unfold lift at 1.
  destruct (py_get webhook "levelnames" (VList [])) as [e|levelnames]; [done|].
  rewrite classview_props.bind_run. unfold lift at 1.
  destruct (py_contains_str (levelname record) levelnames) as [e|[|]];
    [done| |done].
  rewrite classview_props.bind_run. unfold lift at 1.
  destruct (copy_webhook_attrs webhook data) as [e|payload]; [done|].
  rewrite classview_props.bind_run.
  assert (∃ before,
    try_except
      (hook_url <- lift (py_getitem webhook "url") ;;
       requests_post {| url := UrlValue hook_url; auth := None; data := [];
                        json := Some payload;
                        headers := [("Content-Type", "application/json")] |})
      (ret ())
    = try_except (r <- lift before ;; requests_post r) (ret ()))
    as [before ->].
  { destruct (py_getitem webhook "url") as [e|hook_url].
    - by exists (inl e).
    - by eexists (inr _). }
  destruct (guarded_post_run before s) as (s1 & -> & Hc1 & Ht1 & _ & _).
  unfold bind, utcnow, set_throttle_slack, modify. cbn.
  destruct Hinv as [[Hc Ht] _]. split; [split; cbn; [congruence|lia]|].
  right. exists (ticks s1). split; [lia|].
  cbn [error_throttle_timestamp_slack]. rewrite lookup_insert_eq. congruence.
Qed.

Lemma post_to_webhooks_records record key data hooks u s0 s :
  slack_recorded key s0 s →
  slack_recorded key s0
    (for_each hooks (post_to_webhook record key data) u s).2.
Proof.
  revert u s. induction hooks as [|webhook hooks IH]; intros u s Hinv; [done|].
  cbn [for_each]. rewrite classview_props.bind_run.
  pose proof (post_to_webhook_records record key data webhook u s0 s Hinv)
    as Hstep.
  destruct (post_to_webhook record key data webhook u s) as [[e|u1] s1];
    [done|]. by apply IH.
Qed.

(** An [emit] of the Slack handler that has posted has recorded, for the
    key, a reading of the clock made after a post. *)
Lemma SlackHandler_emit_records self record s r s' :
  SlackHandler_emit self record s = (r, s') →
  posts s' ≠ posts s →
  ∃ k, ticks s ≤ k
       ∧ error_throttle_timestamp_slack s' !! (module record, lineno record)
         = Some (clock s k).
Proof.
  intros Hrun Hposts.
  assert (slack_recorded (module record, lineno record) s
            (SlackHandler_emit self record s).2) as Hrec.
  { unfold SlackHandler_emit. rewrite classview_props.bind_run.
    destruct (throttle_open_run error_throttle_timestamp_slack
                (module record, lineno record) s) as (b & s1 & -> & Hs1).
    assert (slack_recorded (module record, lineno record) s s1) as H1.
    { destruct Hs1 as [-> | ->]; (split; [|by left]); split; cbn;
        [done|lia|done|lia]. }
    destruct b; [|done].
    rewrite classview_props.bind_run. unfold lift at 1.
    destruct (py_iter (webhooks self)) as [e|hooks]; [done|].
    rewrite classview_props.bind_run. unfold lift at 1.
    destruct (all_levelnames hooks) as [e|names]; [done|].
    destruct (negb _); [done|].
    rewrite classview_props.bind_run. unfold lift at 1.
    destruct (get_message record) as [e|message]; [done|].
    rewrite classview_props.bind_run. unfold lift at 1.
    destruct (exc_info_repr record) as [e|info]; [done|].
    by apply post_to_webhooks_records. }
  rewrite Hrun in Hrec. destruct Hrec as [_ [?|?]]; done.
Qed.

(** C8.  A record whose key [(module, lineno)] has a timestamp in the
    throttle dictionary of a handler, read no more than five minutes before
    the clock reading of [emit], makes [emit] return at once: the clock has
    been read, nothing has been posted, and the dictionaries are as
    before.  And an [emit] that has posted has recorded for the key a
    reading of the clock made after the posts, so that the next posts for
    the key come more than five minutes later.  Both hold for the SMS
    handler and for the Slack handler, each with its own dictionary. *)
Theorem throttled_within_five_minutes (record : LogRecord) (s : Net) :
  let throttle_key := (module record, lineno record) in
  (∀ (self : SMSHandler) t,
     error_throttle_timestamp_sms s !! throttle_key = Some t →
     (clock s (ticks s) - t ≤ five_minutes)%Z →
     SMSHandler_emit self record s = (inr (), ticked s)
     ∧ posts (ticked s) = posts s)
  ∧ (∀ (self : SlackHandler) t,
       error_throttle_timestamp_slack s !! throttle_key = Some t →
       (clock s (ticks s) - t ≤ five_minutes)%Z →
       SlackHandler_emit self record s = (inr (), ticked s)
       ∧ posts (ticked s) = posts s)
  ∧ (∀ (self : SMSHandler) r s',
       SMSHandler_emit self record s = (r, s') →
       posts s' ≠ posts s →
       ∃ k, ticks s ≤ k
            ∧ error_throttle_timestamp_sms s' !! throttle_key
              = Some (clock s k))
  ∧ (∀ (self : SlackHandler) r s',
       SlackHandler_emit self record s = (r, s') →
       posts s' ≠ posts s →
       ∃ k, ticks s ≤ k
            ∧ error_throttle_timestamp_slack s' !! throttle_key
              = Some (clock s k)).
Proof.
  cbn zeta. split; [|split; [|split]].
  - intros self t Hlast Hrecent. split; [|done].
    unfold SMSHandler_emit, bind at 1. by rewrite (throttle_closed _ _ t).
  - intros self t Hlast Hrecent. split; [|done].
    unfold SlackHandler_emit, bind at 1. by rewrite (throttle_closed _ _ t).
  - intros self r s' Hrun Hposts.
    by destruct (SMSHandler_emit_records self record s r s' Hrun Hposts).
  - intros self r s'. apply SlackHandler_emit_records.
Qed.

(** A record logged at line 42 of [views], two minutes after the last
    send for that line. *)
Definition example_record : LogRecord :=
  {| module := "views"; lineno := 42; levelname := "ERROR";
     message := Some "Exception on /doc [GET]";
     exc_info := None; exc_text := None |}.

Definition example_net : Net :=
  {| error_throttle_timestamp_sms := {[ ("views", 42%Z) := 1000000000%Z ]};
     error_throttle_timestamp_slack := {[ ("views", 42%Z) := 1000000000%Z ]};
     clock := λ n, (1120000000 + Z.of_nat n)%Z;
     ticks := 0;
     network := λ _, Some RequestException;
     posts := [] |}.

Definition example_sms_handler : SMSHandler :=
  {| sms_app_name := "app";
     exotel_sid := VStr "esid"; exotel_token := VStr "etoken";
     exotel_from := VStr "0800";
     twilio_sid := VStr "tsid"; twilio_token := VStr "ttoken";
     twilio_from := VStr "+1555";
     phonenumbers := VList [VStr "+919845012345"; VStr "+15550100"] |}.

Definition example_slack_handler : SlackHandler :=
  {| slack_app_name := "app";
     webhooks := VList [VDict [("levelnames", VList [VStr "ERROR"]);
                               ("url", VStr "https://hooks.slack.com/x")]] |}.

Lemma throttled_within_five_minutes_witness :
  (SMSHandler_emit example_sms_handler example_record example_net
   = (inr (), ticked example_net)
   ∧ posts (ticked example_net) = posts example_net)
  ∧ (SlackHandler_emit example_slack_handler example_record example_net
     = (inr (), ticked example_net)
     ∧ posts (ticked example_net) = posts example_net).
Proof.
  pose proof (throttled_within_five_minutes example_record example_net)
    as (Hsms & Hslack & _ & _).
  split.
  - apply (Hsms example_sms_handler 1000000000%Z); [reflexivity|].
    vm_compute. discriminate.
  - apply (Hslack example_slack_handler 1000000000%Z); [reflexivity|].
    vm_compute. discriminate.
Defined.

(** The same record once the five minutes have passed, on a network where
    every post fails: both handlers post, return normally, and record the
    time. *)
Definition example_net_later : Net :=
  {| error_throttle_timestamp_sms := {[ ("views", 42%Z) := 1000000000%Z ]};
     error_throttle_timestamp_slack := {[ ("views", 42%Z) := 1000000000%Z ]};
     clock := λ n, (1300000001 + Z.of_nat n)%Z;
     ticks := 0;
     network := λ _, Some RequestException;
     posts := [] |}.

Example sms_emit_after_five_minutes :
  let r := SMSHandler_emit example_sms_handler example_record example_net_later in
  r.1 = inr ()
  ∧ length (posts r.2) = 2
  ∧ error_throttle_timestamp_sms r.2 !! ("views", 42%Z) = Some 1300000002%Z.
Proof. vm_compute. done. Qed.

Example slack_emit_after_five_minutes :
  let r := SlackHandler_emit example_slack_handler example_record
                             example_net_later in
  r.1 = inr ()
  ∧ length (posts r.2) = 1
  ∧ error_throttle_timestamp_slack r.2 !! ("views", 42%Z) = Some 1300000002%Z.
Proof. vm_compute. done. Qed.

(** ** init_app *)

(** [config.get(key)] *)
Definition config_value (c : gmap string pyvalue) (key : string) : pyvalue :=
  from_option id VNone (c !! key).

(** The four conditions of [init_app], on the configuration. *)
Definition file_enabled (c : gmap string pyvalue) : bool :=
  truthy (from_option id (VStr "error.log") (c !! "LOGFILE")).

Definition sms_enabled (c : gmap string pyvalue) : bool :=
  truthy (config_value c "ADMIN_NUMBERS")
  && forallb (λ key, bool_decide (is_Some (c !! key))) sms_keys.

Definition slack_enabled (c : gmap string pyvalue) : bool :=
  truthy (config_value c "SLACK_LOGGING_WEBHOOKS").

Definition mail_enabled (c : gmap string pyvalue) : bool :=
  truthy (config_value c "ADMINS").

(** The configured sender of mail, and its address: the second
    component when the sender is a list or a tuple. *)
Definition configured_mail_sender (c : gmap string pyvalue) : pyvalue :=
  if truthy (config_value c "MAIL_DEFAULT_SENDER")
  then config_value c "MAIL_DEFAULT_SENDER"
  else from_option id (VStr "logs@example.com") (c !! "DEFAULT_MAIL_SENDER").

Definition mail_sender_address (c : gmap string pyvalue) : result pyvalue :=
  match configured_mail_sender c with
  | VList l | VTuple l =>
      match l !! 1%nat with
      | Some x => inr x
      | None => inl IndexError
      end
  | v => inr v
  end.

(** The state with one more handler, and with a name of
    [logging.handlers] bound. *)
Definition handler_added (h : Handler) (s : Logging) : Logging :=
  {| app_name := app_name s; app_config := app_config s;
     app_logger_handlers := app_logger_handlers s ++ [h];
     logging_handlers := logging_handlers s |}.

Definition name_bound (name : string) (v : module_attr) (s : Logging) : Logging :=
  {| app_name := app_name s; app_config := app_config s;
     app_logger_handlers := app_logger_handlers s;
     logging_handlers := <[name := v]> (logging_handlers s) |}.

(** The handlers [init_app] makes. *)
Definition the_file_handler (c : gmap string pyvalue) : Handler :=
  {| kind := FileHandler (from_option id (VStr "error.log") (c !! "LOGFILE"));
     formatter := Some LocalVarFormatter; level := WARNING |}.

Definition the_sms_handler (name : string) (c : gmap string pyvalue) : Handler :=
  {| kind := SMS {| sms_app_name := name;
                    exotel_sid := config_value c "SMS_EXOTEL_SID";
                    exotel_token := config_value c "SMS_EXOTEL_TOKEN";
                    exotel_from := config_value c "SMS_EXOTEL_FROM";
                    twilio_sid := config_value c "SMS_TWILIO_SID";
                    twilio_token := config_value c "SMS_TWILIO_TOKEN";
                    twilio_from := config_value c "SMS_TWILIO_FROM";
                    phonenumbers := config_value c "ADMIN_NUMBERS" |};
     formatter := None; level := ERROR |}.

Definition the_slack_handler (name : string) (c : gmap string pyvalue) : Handler :=
  {| kind := Slack {| slack_app_name := name;
                      webhooks := config_value c "SLACK_LOGGING_WEBHOOKS" |};
     formatter := Some LocalVarFormatter; level := NOTSET |}.

Definition the_mail_handler (name : string) (c : gmap string pyvalue)
    (address : pyvalue) : Handler :=
  {| kind := SMTPHandler
               (from_option id (VStr "localhost") (c !! "MAIL_SERVER"))
               address
               (config_value c "ADMINS")
               (name +:+ " failure")
               (if truthy (config_value c "MAIL_USERNAME")
                   && truthy (config_value c "MAIL_PASSWORD")
                then Some (config_value c "MAIL_USERNAME",
                           config_value c "MAIL_PASSWORD")
                else None);
     formatter := Some LocalVarFormatter; level := ERROR |}.

Lemma config_get_run key default s :
  config_get key default s = (inr (from_option id default (app_config s !! key)), s).
Proof. reflexivity. Qed.

Lemma config_getitem_truthy key s :
  truthy (config_value (app_config s) key) = true →
  config_getitem key s = (inr (config_value (app_config s) key), s).
Proof.
  unfold config_getitem, config_value, bind, gets.
  by destruct (app_config s !! key).
Qed.

Lemma config_getitem_present key s :
  is_Some (app_config s !! key) →
  config_getitem key s = (inr (config_value (app_config s) key), s).
Proof.
  intros [v Hv]. unfold config_getitem, config_value, bind, gets.
  by rewrite Hv.
Qed.

Lemma init_file_handler_run s :
  init_file_handler LocalVarFormatter s
  = (inr (), if file_enabled (app_config s)
             then handler_added (the_file_handler (app_config s)) s else s).
Proof.
  unfold init_file_handler, file_enabled, bind. rewrite config_get_run.
  by destruct (truthy _).
Qed.

Lemma all_keys_run keys acc s :
  for_each keys (λ key (acc : bool), if acc then config_has key else ret false)
           acc s
  = (inr (acc && forallb (λ key, bool_decide (is_Some (app_config s !! key)))
                         keys), s).
Proof.
  revert acc. induction keys as [|key keys IH]; intros acc; simpl.
  - by rewrite andb_true_r.
  - unfold bind. destruct acc; cbn.
    + unfold config_has, gets. rewrite IH. reflexivity.
    + rewrite IH. reflexivity.
Qed.

Lemma init_sms_handler_run s :
  init_sms_handler s
  = (inr (), if sms_enabled (app_config s)
             then handler_added (the_sms_handler (app_name s) (app_config s))
                                (name_bound "SMSHandler" SMSHandler_class s)
             else s).
Proof.
  unfold init_sms_handler, sms_enabled, bind at 1. rewrite config_get_run.
  fold (config_value (app_config s) "ADMIN_NUMBERS").
  destruct (truthy (config_value (app_config s) "ADMIN_NUMBERS")) eqn:Hadmin;
    [|done].
  unfold bind at 1. rewrite all_keys_run. cbn [andb].
  destruct (forallb _ sms_keys) eqn:Hkeys; [|done].
  rewrite forallb_forall in Hkeys.
  assert (∀ key, In key sms_keys →
            is_Some (app_config (name_bound "SMSHandler" SMSHandler_class s)
                     !! key)) as Hpresent.
  { intros key Hin. apply Hkeys in Hin. by apply bool_decide_eq_true in Hin. }
  unfold bind, set_logging_handlers, modify, gets.
  fold (name_bound "SMSHandler" SMSHandler_class s).
  rewrite !config_getitem_present by (apply Hpresent; cbn; tauto).
  rewrite config_getitem_truthy by exact Hadmin.
  reflexivity.
Qed.

Lemma init_slack_handler_run s :
  init_slack_handler LocalVarFormatter s
  = (inr (), if slack_enabled (app_config s)
             then handler_added (the_slack_handler (app_name s) (app_config s))
                                (name_bound "SlackHandler" SlackHandler_class s)
             else s).
Proof.
  unfold init_slack_handler, slack_enabled, bind at 1. rewrite config_get_run.
  fold (config_value (app_config s) "SLACK_LOGGING_WEBHOOKS").
  destruct (truthy (config_value (app_config s) "SLACK_LOGGING_WEBHOOKS"))
    eqn:Hhooks; [|done].
  unfold bind, set_logging_handlers, modify, gets.
  fold (name_bound "SlackHandler" SlackHandler_class s).
  rewrite config_getitem_truthy by exact Hhooks.
  reflexivity.
Qed.

Lemma init_mail_handler_run s :
  init_mail_handler LocalVarFormatter s
  = if mail_enabled (app_config s)
    then match mail_sender_address (app_config s) with
         | inr address =>
             (inr (), handler_added
                        (the_mail_handler (app_name s) (app_config s) address) s)
         | inl e => (inl e, s)
         end
    else (inr (), s).
Proof.
  unfold init_mail_handler, mail_enabled, bind at 1. rewrite config_get_run.
  fold (config_value (app_config s) "ADMINS").
  destruct (truthy (config_value (app_config s) "ADMINS")) eqn:Hadmins; [|done].
  unfold bind at 1. rewrite config_get_run.
  fold (config_value (app_config s) "MAIL_DEFAULT_SENDER").
  unfold bind at 1.
  assert ((if truthy (config_value (app_config s) "MAIL_DEFAULT_SENDER")
           then ret (config_value (app_config s) "MAIL_DEFAULT_SENDER")
           else config_get "DEFAULT_MAIL_SENDER" (VStr "logs@example.com")) s
          = (inr (configured_mail_sender (app_config s)), s)) as ->.
  { unfold configured_mail_sender.
    by destruct (truthy (config_value (app_config s) "MAIL_DEFAULT_SENDER")). }
  unfold mail_sender_address.
  assert (∀ address,
    (username <- config_get "MAIL_USERNAME" VNone ;;
     has_credentials <- (if truthy username
                         then password <- config_get "MAIL_PASSWORD" VNone ;;
                              ret (truthy password)
                         else ret false) ;;
     credentials <- (if (has_credentials : bool)
                     then u <- config_getitem "MAIL_USERNAME" ;;
                          p <- config_getitem "MAIL_PASSWORD" ;;
                          ret (Some (u, p))
                     else ret None) ;;
     mailhost <- config_get "MAIL_SERVER" (VStr "localhost") ;;
     toaddrs <- config_getitem "ADMINS" ;;
     name <- gets app_name ;;
     addHandler {| kind := SMTPHandler mailhost address toaddrs
                                       (name +:+ " failure") credentials;
                   formatter := Some LocalVarFormatter; level := ERROR |}) s
    = (inr (), handler_added
                 (the_mail_handler (app_name s) (app_config s) address) s))
    as Hrest.
  { intros address. unfold the_mail_handler.
    unfold bind at 1. rewrite config_get_run.
    fold (config_value (app_config s) "MAIL_USERNAME").
    destruct (truthy (config_value (app_config s) "MAIL_USERNAME")) eqn:Hu.
    - unfold bind at 1 2. rewrite config_get_run.
      fold (config_value (app_config s) "MAIL_PASSWORD"). cbn [ret andb].
      destruct (truthy (config_value (app_config s) "MAIL_PASSWORD")) eqn:Hp.
      + unfold bind. rewrite !config_getitem_truthy by done.
        unfold ret, config_get, gets. cbn beta iota.
        rewrite config_getitem_truthy by done. reflexivity.
      + unfold bind, ret, config_get, gets. cbn beta iota.
        rewrite config_getitem_truthy by done. reflexivity.
    - unfold bind, ret, config_get, gets. cbn beta iota.
      rewrite config_getitem_truthy by done. reflexivity. }
  destruct (configured_mail_sender (app_config s)) as [| | | |l|l| |] eqn:Hsender;
    try (unfold bind at 1; cbn [ret]; apply Hrest).
  - destruct (l !! 1%nat) as [x|]; [|done]. unfold bind at 1. cbn [ret].
    apply Hrest.
  - destruct (l !! 1%nat) as [x|]; [|done]. unfold bind at 1. cbn [ret].
    apply Hrest.
Qed.

(** The state after each of the first three blocks of [init_app]. *)
Definition after_file (s : Logging) : Logging :=
  if file_enabled (app_config s)
  then handler_added (the_file_handler (app_config s)) s else s.

Definition after_sms (s : Logging) : Logging :=
  if sms_enabled (app_config s)
  then handler_added (the_sms_handler (app_name s) (app_config s))
                     (name_bound "SMSHandler" SMSHandler_class s)
  else s.

Definition after_slack (s : Logging) : Logging :=
  if slack_enabled (app_config s)
  then handler_added (the_slack_handler (app_name s) (app_config s))
                     (name_bound "SlackHandler" SlackHandler_class s)
  else s.

Lemma init_app_run s :
  init_app s
  = init_mail_handler LocalVarFormatter (after_slack (after_sms (after_file s))).
Proof.
  unfold init_app, bind.
  by rewrite init_file_handler_run, init_sms_handler_run,
             init_slack_handler_run.
Qed.

Lemma after_file_config s :
  app_config (after_file s) = app_config s ∧ app_name (after_file s) = app_name s.
Proof. unfold after_file. by destruct (file_enabled _). Qed.

Lemma after_sms_config s :
  app_config (after_sms s) = app_config s ∧ app_name (after_sms s) = app_name s.
Proof. unfold after_sms. by destruct (sms_enabled _). Qed.

Lemma after_slack_config s :
  app_config (after_slack s) = app_config s
  ∧ app_name (after_slack s) = app_name s.
Proof. unfold after_slack. by destruct (slack_enabled _). Qed.

Lemma after_three_config s :
  app_config (after_slack (after_sms (after_file s))) = app_config s
  ∧ app_name (after_slack (after_sms (after_file s))) = app_name s.
Proof.
  destruct (after_slack_config (after_sms (after_file s))) as [-> ->].
  destruct (after_sms_config (after_file s)) as [-> ->].
  apply after_file_config.
Qed.

Lemma after_three_handlers s :
  let c := app_config s in
  app_logger_handlers (after_slack (after_sms (after_file s)))
  = app_logger_handlers s
    ++ (if file_enabled c then [the_file_handler c] else [])
    ++ (if sms_enabled c then [the_sms_handler (app_name s) c] else [])
    ++ (if slack_enabled c then [the_slack_handler (app_name s) c] else []).
Proof.
  cbn zeta. unfold after_slack.
  destruct (after_sms_config (after_file s)) as [-> ->].
  unfold after_sms. destruct (after_file_config s) as [-> ->].
  unfold after_file.
  destruct (file_enabled _), (sms_enabled _), (slack_enabled _); cbn;
    rewrite <-?app_assoc, ?app_nil_r; reflexivity.
Qed.

Lemma sms_enabled_spec c :
  sms_enabled c = true
  ↔ truthy (config_value c "ADMIN_NUMBERS") = true
    ∧ ∀ key, key ∈ sms_keys → is_Some (c !! key).
Proof.
  unfold sms_enabled. rewrite andb_true_iff, forallb_forall.
  split; intros [Hadmin Hkeys]; (split; [done|]); intros key Hin.
  - apply list_elem_of_In, Hkeys in Hin. by apply bool_decide_eq_true in Hin.
  - apply bool_decide_eq_true, Hkeys. by apply list_elem_of_In.
Qed.

Lemma file_enabled_spec c :
  file_enabled c = true ↔ ¬ ∃ v, c !! "LOGFILE" = Some v ∧ truthy v = false.
Proof.
  unfold file_enabled. destruct (c !! "LOGFILE") as [v|]; cbn.
  - split.
    + intros Hv (v' & [= <-] & Hf). congruence.
    + intros Hn. destruct (truthy v) eqn:Hv; [done|]. exfalso. eauto.
  - split; [|done]. by intros _ (v & ? & _).
Qed.

(** What [init_app] has attached: at most one handler of each of the four
    kinds, in this order, each present exactly under its condition. *)
Definition attaches_configured_handlers (s : Logging) : Prop :=
  let c := app_config s in
  ∃ s' (file sms slack mail : option Handler),
    init_app s = (inr (), s')
    ∧ app_logger_handlers s'
      = app_logger_handlers s ++ option_list file ++ option_list sms
        ++ option_list slack ++ option_list mail
    ∧ (is_Some file ↔ ¬ ∃ v, c !! "LOGFILE" = Some v ∧ truthy v = false)
    ∧ (∀ h, file = Some h →
         (∃ filename, kind h = FileHandler filename) ∧ level h = WARNING)
    ∧ (is_Some sms ↔ truthy (config_value c "ADMIN_NUMBERS") = true
                     ∧ ∀ key, key ∈ sms_keys → is_Some (c !! key))
    ∧ (∀ h, sms = Some h → (∃ x, kind h = SMS x) ∧ level h = ERROR)
    ∧ (is_Some slack ↔ truthy (config_value c "SLACK_LOGGING_WEBHOOKS") = true)
    ∧ (∀ h, slack = Some h → ∃ x, kind h = Slack x)
    ∧ (is_Some mail ↔ truthy (config_value c "ADMINS") = true)
    ∧ (∀ h, mail = Some h →
         (∃ mailhost fromaddr toaddrs subject credentials,
            kind h = SMTPHandler mailhost fromaddr toaddrs subject credentials)
         ∧ level h = ERROR).

(** C6, as amended.  On a configuration whose mail sender, when mail is
    configured, is an address or a sequence with a second component (the
    documented forms), [init_app] returns normally and has attached to the logger of
    the app: a file handler at level WARNING unless LOGFILE is set to a
    falsy value; an SMS handler at level ERROR exactly when ADMIN_NUMBERS
    is truthy and the six SMS keys are present; a Slack handler exactly
    when SLACK_LOGGING_WEBHOOKS is truthy; an SMTP handler at level ERROR
    exactly when ADMINS is truthy; and nothing else. *)
Theorem init_app_attaches_configured_handlers (s : Logging) :
  (mail_enabled (app_config s) = true →
   ∃ address, mail_sender_address (app_config s) = inr address) →
  attaches_configured_handlers s.
Proof.
  intros Hsender. unfold attaches_configured_handlers. cbn zeta.
  set (c := app_config s) in *.
  pose proof (init_app_run s) as Hrun. rewrite init_mail_handler_run in Hrun.
  destruct (after_three_config s) as [Hc Hn]. rewrite Hc, Hn in Hrun.
  fold c in Hrun.
  pose proof (after_three_handlers s) as Hthree. cbn zeta in Hthree.
  fold c in Hthree.
  set (file := if file_enabled c then Some (the_file_handler c) else None).
  set (sms := if sms_enabled c then Some (the_sms_handler (app_name s) c)
              else None).
  set (slack := if slack_enabled c then Some (the_slack_handler (app_name s) c)
                else None).
  assert (app_logger_handlers (after_slack (after_sms (after_file s)))
          = app_logger_handlers s ++ option_list file ++ option_list sms
            ++ option_list slack) as Hthree'.
  { rewrite Hthree. unfold file, sms, slack.
    by destruct (file_enabled c), (sms_enabled c), (slack_enabled c). }
  assert (is_Some file ↔ ¬ ∃ v, c !! "LOGFILE" = Some v ∧ truthy v = false)
    as Hfile.
  { rewrite <-file_enabled_spec. unfold file.
    destruct (file_enabled c); split; try done; try (by intros [? ?]);
      by eexists. }
  assert (∀ h, file = Some h →
            (∃ filename, kind h = FileHandler filename) ∧ level h = WARNING)
    as Hfile'.
  { unfold file. intros h. destruct (file_enabled c); [|done].
    intros [= <-]. split; [by eexists|done]. }
  assert (is_Some sms ↔ truthy (config_value c "ADMIN_NUMBERS") = true
                        ∧ ∀ key, key ∈ sms_keys → is_Some (c !! key)) as Hsms.
  { rewrite <-sms_enabled_spec. unfold sms.
    destruct (sms_enabled c); split; try done; try (by intros [? ?]);
      by eexists. }
  assert (∀ h, sms = Some h → (∃ x, kind h = SMS x) ∧ level h = ERROR)
    as Hsms'.
  { unfold sms. intros h. destruct (sms_enabled c); [|done].
    intros [= <-]. split; [by eexists|done]. }
  assert (is_Some slack
          ↔ truthy (config_value c "SLACK_LOGGING_WEBHOOKS") = true) as Hslack.
  { unfold slack, slack_enabled.
    destruct (truthy (config_value c "SLACK_LOGGING_WEBHOOKS"));
      split; try done; try (by intros [? ?]); by eexists. }
  assert (∀ h, slack = Some h → ∃ x, kind h = Slack x) as Hslack'.
  { unfold slack. intros h. destruct (slack_enabled c); [|done].
    intros [= <-]. by eexists. }
  destruct (mail_enabled c) eqn:Hmail.
  - destruct Hsender as [address Haddress]; [done|]. rewrite Haddress in Hrun.
    eexists _, file, sms, slack, (Some (the_mail_handler (app_name s) c address)).
    split; [exact Hrun|]. split.
    { cbn [handler_added app_logger_handlers]. rewrite Hthree'.
      by rewrite <-!app_assoc. }
    do 6 (split; [done|]). split; [by split; [|eexists]|].
    intros h [= <-]. split; [by eexists _, _, _, _, _|done].
  - eexists _, file, sms, slack, None.
    split; [exact Hrun|]. split.
    { rewrite Hthree'. cbn [option_list]. by rewrite app_nil_r. }
    do 6 (split; [done|]). unfold mail_enabled in Hmail. split; [|done].
    split; [by intros [? ?]|]. congruence.
Qed.

(** An app with every channel configured, as the documentation of
    [init_app] describes them. *)
Definition example_app : Logging :=
  {| app_name := "app";
     app_config :=
       list_to_map
         [("ADMINS", VList [VStr "admin@example.com"]);
          ("MAIL_DEFAULT_SENDER", VTuple [VStr "App"; VStr "app@example.com"]);
          ("SLACK_LOGGING_WEBHOOKS",
           VList [VDict [("levelnames", VList [VStr "WARNING"; VStr "ERROR";
                                               VStr "CRITICAL"]);
                         ("url", VStr "https://hooks.slack.com/...")]]);
          ("ADMIN_NUMBERS", VList [VStr "+919845012345"]);
          ("SMS_EXOTEL_SID", VStr "esid"); ("SMS_EXOTEL_TOKEN", VStr "etoken");
          ("SMS_EXOTEL_FROM", VStr "0800");
          ("SMS_TWILIO_SID", VStr "tsid"); ("SMS_TWILIO_TOKEN", VStr "ttoken");
          ("SMS_TWILIO_FROM", VStr "+1555")];
     app_logger_handlers := [];
     logging_handlers := {[ "SMTPHandler" := library_object 1 ]} |}.

Lemma init_app_attaches_configured_handlers_witness :
  attaches_configured_handlers example_app.
Proof.
  apply init_app_attaches_configured_handlers.
  intros _. eexists. vm_compute. reflexivity.
Defined.

Example example_app_handlers :
  map level (app_logger_handlers (init_app example_app).2)
  = [WARNING; ERROR; NOTSET; ERROR].
Proof. vm_compute. reflexivity. Qed.

(** A mail sender that is neither of the documented forms stops
    [init_app] after the other handlers were attached. *)
Example init_app_short_sender :
  let s := {| app_name := "app";
              app_config := list_to_map
                [("ADMINS", VList [VStr "admin@example.com"]);
                 ("MAIL_DEFAULT_SENDER", VList [VStr "app@example.com"])];
              app_logger_handlers := [];
              logging_handlers := ∅ |} in
  (init_app s).1 = inl IndexError
  ∧ map level (app_logger_handlers (init_app s).2) = [WARNING].
Proof. vm_compute. done. Qed.

(** An app with ADMINS set and a mail sender of one component. *)
Definition one_component_sender_app : Logging :=
  {| app_name := "app";
     app_config := list_to_map
       [("ADMINS", VList [VStr "admin@example.com"]);
        ("MAIL_DEFAULT_SENDER", VList [VStr "app@example.com"])];
     app_logger_handlers := [];
     logging_handlers := ∅ |}.

(** C6, as stated, fails: with ADMINS truthy and a mail sender that is a
    list of one component, [init_app] raises [IndexError]; the logger has
    got the file handler, and no SMTP handler. *)
Lemma init_app_without_mail_handler :
  truthy (config_value (app_config one_component_sender_app) "ADMINS") = true
  ∧ (init_app one_component_sender_app).1 = inl IndexError
  ∧ map kind (app_logger_handlers (init_app one_component_sender_app).2)
    = [FileHandler (VStr "error.log")]
  ∧ ¬ attaches_configured_handlers one_component_sender_app.
Proof.
  split; [reflexivity|]. split; [vm_compute; reflexivity|].
  split; [vm_compute; reflexivity|].
  intros (s' & file & sms & slack & mail & Hrun & _).
  apply (f_equal fst) in Hrun. vm_compute in Hrun. discriminate Hrun.
Qed.

(** ** What the code changes of the state of the frameworks *)



(** The failures of the examples above, swallowed. *)
Lemma secondary_failures_are_swallowed_witness :
  (SMSHandler_sendsms example_sms_handler (VStr "+919845012345") "Error"
                      example_net_later).1 = inr ()
  ∧ (SlackHandler_emit example_slack_handler example_record
                       example_net_later).1 = inr ()
  ∧ format_local ("doc", {| repr := inl ValueError |}) "" no_context
    = (inr (print_end_space (TAB +:+ rjust20 "doc" +:+ " = ") ""
            +:+ "<ERROR WHILE PRINTING VALUE>" +:+ NL), no_context).
Proof.
  destruct secondary_failures_are_swallowed
    as (Hsms & _ & Hslack & _ & Hlocal & _).
  split; [apply Hsms|]. split.
  - eapply Hslack; [apply surjective_pairing|]. vm_compute. discriminate.
  - eapply Hlocal. reflexivity.
Defined.

End logger_props.

(* ===================================================================== *)
(** * Further properties of the class-based views *)
(* ===================================================================== *)

Module classview_extra.
Import classview classview_props.

(** ** The rules [ViewDecorator.init_app] registers *)

(** The pairs of a class route and a method route, in the order of the two
    loops. *)
Definition route_pairs (class_routes method_routes : list (string * options))
  : list ((string * options) * (string * options)) :=
  flat_map (λ class_route, map (pair class_route) method_routes) class_routes.

(** The [endpoint] option given with a pair of routes, if any. *)
Definition explicit_endpoint (p : (string * options) * (string * options))
  : option pyvalue :=
  (p.1.2 ∪ p.2.2) !! "endpoint".

(** The rule registered for a pair, [endpoint] being the value of the loop
    variable when the pair is reached. *)
Definition rule_of (vf : view_func) (p : (string * options) * (string * options))
    (endpoint : pyvalue) : url_rule :=
  {| rule := rulejoin p.1.1 p.2.1;
     endpoint := default endpoint (explicit_endpoint p);
     view := vf;
     rule_options := delete "endpoint" (p.1.2 ∪ p.2.2) |}.

Fixpoint rules_from (vf : view_func)
    (pairs : list ((string * options) * (string * options)))
    (endpoint0 : pyvalue) : list url_rule :=
  match pairs with
  | [] => []
  | p :: rest =>
      let r := rule_of vf p endpoint0 in
      r :: rules_from vf rest (endpoint r)
  end.

(** The value of the loop variable after the pairs. *)
Definition endpoint_after (vf : view_func)
    (pairs : list ((string * options) * (string * options)))
    (endpoint0 : pyvalue) : pyvalue :=
  foldl (λ e p, endpoint (rule_of vf p e)) endpoint0 pairs.

Lemma rules_from_app vf pairs1 pairs2 e :
  rules_from vf (pairs1 ++ pairs2) e
  = rules_from vf pairs1 e
    ++ rules_from vf pairs2 (endpoint_after vf pairs1 e).
Proof.
  revert e. induction pairs1 as [|p pairs1 IH]; intros e; [done|].
  cbn [app rules_from]. by rewrite IH.
Qed.

(** The app after the rules [new] were added, the callback being called
    for each when there is one. *)
Definition registered (callback : bool) (new : list url_rule) (app : Flask)
  : Flask :=
  {| url_map := url_map app ++ new;
     callback_calls := callback_calls app ++ (if callback then new else []) |}.

Lemma registered_nil callback app :
  url_map (registered callback [] app) = url_map app
  ∧ callback_calls (registered callback [] app) = callback_calls app.
Proof. unfold registered. destruct callback; cbn; by rewrite !app_nil_r. Qed.

Lemma registered_app callback new1 new2 app :
  registered callback new2 (registered callback new1 app)
  = registered callback (new1 ++ new2) app.
Proof.
  unfold registered. cbn. destruct callback; by rewrite <-!app_assoc, ?app_nil_r.
Qed.

Lemma registered_nil_eq callback app : registered callback [] app = app.
Proof.
  destruct app as [m c]. unfold registered. cbn.
  destruct callback; by rewrite !app_nil_r.
Qed.

Lemma register_rule_pure vf callback class_route method_route e app :
  register_rule vf callback class_route method_route e app
  = (inr (endpoint (rule_of vf (class_route, method_route) e)),
     registered callback [rule_of vf (class_route, method_route) e] app).
Proof.
  destruct class_route as [class_rule class_options],
           method_route as [method_rule method_options].
  unfold register_rule, registered.
  destruct callback; [reflexivity|]. by rewrite app_nil_r.
Qed.

Lemma register_inner_pure vf callback class_route method_routes e app :
  for_each method_routes (register_rule vf callback class_route) e app
  = (inr (endpoint_after vf (map (pair class_route) method_routes) e),
     registered callback
       (rules_from vf (map (pair class_route) method_routes) e) app).
Proof.
  revert e app. induction method_routes as [|mr mrs IH]; intros e app.
  - cbn. by rewrite registered_nil_eq.
  - cbn [for_each map rules_from]. rewrite bind_run, register_rule_pure, IH.
    by rewrite registered_app.
Qed.

Lemma endpoint_after_app vf pairs1 pairs2 e :
  endpoint_after vf (pairs1 ++ pairs2) e
  = endpoint_after vf pairs2 (endpoint_after vf pairs1 e).
Proof. apply foldl_app. Qed.

Lemma register_outer_pure vf callback class_routes method_routes e app :
  for_each class_routes (λ class_route endpoint,
    for_each method_routes (register_rule vf callback class_route) endpoint)
    e app
  = (inr (endpoint_after vf (route_pairs class_routes method_routes) e),
     registered callback
       (rules_from vf (route_pairs class_routes method_routes) e) app).
Proof.
  revert e app. induction class_routes as [|cr crs IH]; intros e app.
  - cbn. by rewrite registered_nil_eq.
  - cbn [for_each]. rewrite bind_run, register_inner_pure, IH.
    unfold route_pairs. cbn [flat_map].
    by rewrite registered_app, rules_from_app, endpoint_after_app.
Qed.

(** The endpoint a view gets when no route names one. *)
Definition default_endpoint (cls : mro) (v : ViewDecorator) : pyvalue :=
  VStr (cls_name cls +:+ "_" +:+ name v).

Lemma ViewDecorator_init_app_pure v cls callback app decorators class_routes :
  get_decorators cls = inr decorators →
  get_routes cls = inr class_routes →
  ViewDecorator_init_app v cls callback app
  = (inr (), registered callback
               (rules_from (made_view_func v cls decorators)
                           (route_pairs class_routes (routes v))
                           (default_endpoint cls v)) app).
Proof.
  intros Hdec Hroutes. unfold ViewDecorator_init_app.
  rewrite bind_run, Hdec. unfold lift at 1.
  rewrite bind_run, Hroutes. unfold lift at 1.
  rewrite bind_run.
  pose proof (register_outer_pure (made_view_func v cls decorators) callback
                class_routes (routes v) (default_endpoint cls v) app) as Hrun.
  unfold made_view_func, default_endpoint in *. by rewrite Hrun.
Qed.

Lemma rules_from_rule vf pairs e :
  map rule (rules_from vf pairs e) = map (λ p, rulejoin p.1.1 p.2.1) pairs.
Proof.
  revert e. induction pairs as [|p pairs IH]; intros e; [done|].
  cbn [rules_from map]. by rewrite IH.
Qed.

Lemma rules_from_view vf pairs e :
  Forall (λ r, view r = vf) (rules_from vf pairs e).
Proof.
  revert e. induction pairs as [|p pairs IH]; intros e; constructor; auto.
Qed.

Lemma route_pairs_length class_routes method_routes :
  length (route_pairs class_routes method_routes)
  = length class_routes * length method_routes.
Proof.
  unfold route_pairs. induction class_routes as [|cr crs IH]; [done|].
  cbn [flat_map]. rewrite length_app, length_map, IH. cbn. lia.
Qed.

(** X1.  Every class rule is joined with every method rule.  On a class that
    has its lists of routes and of decorators, [ViewDecorator.init_app]
    returns normally; the rules it adds to the app are the joins of each
    class rule with each method rule, class rules in the outer loop, all
    for the same view function; the rules already in the app stay, and the
    callback, when there is one, receives exactly the rules added. *)
Theorem ViewDecorator_init_app_registers_product
    (v : ViewDecorator) (cls : mro) (callback : bool) (app : Flask)
    (decorators : list decorator) (class_routes : list (string * options)) :
  get_decorators cls = inr decorators →
  get_routes cls = inr class_routes →
  ∃ app' new,
    ViewDecorator_init_app v cls callback app = (inr (), app')
    ∧ url_map app' = url_map app ++ new
    ∧ callback_calls app'
      = callback_calls app ++ (if callback then new else [])
    ∧ map rule new
      = flat_map (λ class_route,
                    map (λ method_route,
                           rulejoin class_route.1 method_route.1) (routes v))
                 class_routes
    ∧ length new = length class_routes * length (routes v)
    ∧ Forall (λ r, view r = made_view_func v cls decorators) new.
Proof.
  intros Hdec Hroutes. eexists _, _.
  split; [by apply ViewDecorator_init_app_pure|].
  split; [done|]. split; [done|]. split; [|split].
  - rewrite rules_from_rule. unfold route_pairs.
    induction class_routes as [|cr crs IH] in |- *; [done|].
    cbn [flat_map]. rewrite map_app, IH. f_equal.
    by rewrite map_map.
  - rewrite <-route_pairs_length, <-(length_map rule), rules_from_rule.
    by rewrite length_map.
  - apply rules_from_view.
Qed.

(** The rules a call of [ViewDecorator.init_app] has added to the app. *)
Definition added_rules (v : ViewDecorator) (cls : mro) (callback : bool)
    (app : Flask) : list url_rule :=
  drop (length (url_map app))
       (url_map (ViewDecorator_init_app v cls callback app).2).

Lemma added_rules_pure v cls callback app decorators class_routes :
  get_decorators cls = inr decorators →
  get_routes cls = inr class_routes →
  added_rules v cls callback app
  = rules_from (made_view_func v cls decorators)
               (route_pairs class_routes (routes v)) (default_endpoint cls v).
Proof.
  intros Hdec Hroutes. unfold added_rules.
  rewrite (ViewDecorator_init_app_pure _ _ _ _ _ _ Hdec Hroutes). cbn.
  by rewrite drop_app_length.
Qed.

Lemma rules_from_Forall2 vf pairs e :
  Forall2 (λ p r, rule r = rulejoin p.1.1 p.2.1
                  ∧ rule_options r = delete "endpoint" (p.1.2 ∪ p.2.2))
          pairs (rules_from vf pairs e).
Proof.
  revert e. induction pairs as [|p pairs IH]; intros e; constructor; auto.
Qed.

(** X2.  The options of a rule are those of its method route, overridden by
    those of its class route, without [endpoint]: for every pair of routes
    and the rule added for it, the rule is their join, it has no option
    [endpoint], and any other option has the value the class route gives
    it, or else the value the method route gives it. *)
Theorem class_options_override_method_options
    (v : ViewDecorator) (cls : mro) (callback : bool) (app : Flask)
    (decorators : list decorator) (class_routes : list (string * options)) :
  get_decorators cls = inr decorators →
  get_routes cls = inr class_routes →
  Forall2 (λ p r,
             rule r = rulejoin p.1.1 p.2.1
             ∧ rule_options r !! "endpoint" = None
             ∧ ∀ key, key ≠ "endpoint" →
                 rule_options r !! key
                 = match p.1.2 !! key with
                   | Some x => Some x
                   | None => p.2.2 !! key
                   end)
          (route_pairs class_routes (routes v))
          (added_rules v cls callback app).
Proof.
  intros Hdec Hroutes.
  rewrite (added_rules_pure _ _ _ _ _ _ Hdec Hroutes).
  eapply Forall2_impl; [apply rules_from_Forall2|].
  intros p r [Hrule Hopts]. split; [done|]. rewrite Hopts. split.
  - apply lookup_delete_eq.
  - intros key Hkey. rewrite lookup_delete_ne by done.
    rewrite lookup_union. by destruct (p.1.2 !! key), (p.2.2 !! key).
Qed.

Lemma rules_from_lookup_lt vf pairs e i j r :
  rules_from vf pairs e !! i = Some r → j < i →
  is_Some (rules_from vf pairs e !! j).
Proof.
  intros Hi Hlt. apply lookup_lt_is_Some.
  apply lookup_lt_Some in Hi. lia.
Qed.

Lemma rules_from_endpoint vf pairs e i p r :
  pairs !! i = Some p →
  rules_from vf pairs e !! i = Some r →
  endpoint r
  = match explicit_endpoint p with
    | Some x => x
    | None =>
        match i with
        | 0 => e
        | S j => from_option endpoint e (rules_from vf pairs e !! j)
        end
    end.
Proof.
  revert e i. induction pairs as [|p0 pairs IH]; intros e i; [done|].
  destruct i as [|i]; cbn [rules_from].
  - intros [= ->] [= <-]. cbn. by destruct (explicit_endpoint p).
  - cbn [lookup list_lookup]. intros Hp Hr.
    rewrite (IH _ _ Hp Hr). destruct (explicit_endpoint p); [done|].
    destruct i as [|i]; [reflexivity|].
    destruct (rules_from_lookup_lt _ _ _ _ i _ Hr) as [r' Hr']; [lia|].
    change ((rule_of vf p0 e :: rules_from vf pairs (endpoint (rule_of vf p0 e)))
            !! S i)
      with (rules_from vf pairs (endpoint (rule_of vf p0 e)) !! i).
    by rewrite Hr'.
Qed.

(** X3.  The endpoint of a rule.  A rule whose routes name an [endpoint] gets
    it; a rule whose routes name none gets the endpoint of the rule added
    just before it by the same call, and the first one gets
    [<class name>_<view name>].  So when no route names an endpoint, every
    rule of the view has the endpoint [<class name>_<view name>]. *)
Theorem endpoint_of_each_rule
    (v : ViewDecorator) (cls : mro) (callback : bool) (app : Flask)
    (decorators : list decorator) (class_routes : list (string * options)) :
  get_decorators cls = inr decorators →
  get_routes cls = inr class_routes →
  let pairs := route_pairs class_routes (routes v) in
  let new := added_rules v cls callback app in
  (∀ i p r, pairs !! i = Some p → new !! i = Some r →
     endpoint r
     = match explicit_endpoint p with
       | Some x => x
       | None =>
           match i with
           | 0 => default_endpoint cls v
           | S j => from_option endpoint (default_endpoint cls v) (new !! j)
           end
       end)
  ∧ ((∀ p, p ∈ pairs → explicit_endpoint p = None) →
     Forall (λ r, endpoint r = default_endpoint cls v) new).
Proof.
  intros Hdec Hroutes. cbn zeta.
  rewrite (added_rules_pure _ _ _ _ _ _ Hdec Hroutes).
  split; [intros i p r; apply rules_from_endpoint|].
  generalize (route_pairs class_routes (routes v)) (default_endpoint cls v).
  intros pairs e Hnone. induction pairs as [|p pairs IH]; [constructor|].
  assert (endpoint (rule_of (made_view_func v cls decorators) p e) = e) as He.
  { cbn. rewrite Hnone; [done|by left]. }
  cbn [rules_from]. constructor; [done|]. rewrite He. apply IH.
  intros p' Hp'. apply Hnone. by right.
Qed.

(** The view [second] of [SubView], with its two routes, and an app. *)
Definition SubView_second : ViewDecorator :=
  {| routes := [("2", ∅); ("second", ∅)];
     func := λ self args kw, inr (VStr "rerouted-second");
     name := "second" |}.

Definition empty_app : Flask := {| url_map := []; callback_calls := [] |}.

Lemma ViewDecorator_init_app_registers_product_witness :
  ∃ app' new,
    ViewDecorator_init_app SubView_second SubView_mro true empty_app
    = (inr (), app')
    ∧ url_map app' = url_map empty_app ++ new
    ∧ callback_calls app' = callback_calls empty_app ++ new
    ∧ map rule new = ["/subclasstest/2"; "/subclasstest/second"]
    ∧ length new = 1 * 2
    ∧ Forall (λ r, view r = made_view_func SubView_second SubView_mro []) new.
Proof.
  exact (ViewDecorator_init_app_registers_product SubView_second SubView_mro
           true empty_app [] [("/subclasstest", ∅)] eq_refl eq_refl).
Defined.

Lemma class_options_override_method_options_witness :
  Forall2 (λ p r,
             rule r = rulejoin p.1.1 p.2.1
             ∧ rule_options r !! "endpoint" = None
             ∧ ∀ key, key ≠ "endpoint" →
                 rule_options r !! key
                 = match p.1.2 !! key with
                   | Some x => Some x
                   | None => p.2.2 !! key
                   end)
          (route_pairs [("/subclasstest", ∅)] (routes SubView_second))
          (added_rules SubView_second SubView_mro false empty_app).
Proof.
  exact (class_options_override_method_options SubView_second SubView_mro
           false empty_app [] [("/subclasstest", ∅)] eq_refl eq_refl).
Defined.

Lemma endpoint_of_each_rule_witness :
  Forall (λ r, endpoint r = VStr "SubView_second")
         (added_rules SubView_second SubView_mro false empty_app).
Proof.
  apply (endpoint_of_each_rule SubView_second SubView_mro false empty_app
           [] [("/subclasstest", ∅)] eq_refl eq_refl).
  intros p Hp. repeat (apply elem_of_cons in Hp as [->|Hp]; [reflexivity|]).
  by apply elem_of_nil in Hp.
Defined.

(** An endpoint named on one route is also the endpoint of the routes
    after it that name none. *)
Example endpoint_is_carried :
  map endpoint
      (added_rules {| routes := [("a", {["endpoint" := VStr "custom"]});
                                 ("b", ∅)];
                      func := λ self args kw, inr VNone;
                      name := "view" |}
                   SubView_mro false empty_app)
  = [VStr "custom"; VStr "custom"].
Proof. vm_compute. reflexivity. Qed.

(** ** ClassView.init_app and the app *)

Lemma ViewDecorator_init_app_appends v cls callback app :
  ∃ new, (ViewDecorator_init_app v cls callback app).2
         = registered callback new app.
Proof.
  destruct (get_decorators cls) as [e|decorators] eqn:Hdec.
  { exists []. unfold ViewDecorator_init_app. rewrite bind_run, Hdec.
    by rewrite registered_nil_eq. }
  destruct (get_routes cls) as [e|class_routes] eqn:Hroutes.
  { exists []. unfold ViewDecorator_init_app. rewrite bind_run, Hdec.
    unfold lift at 1. rewrite bind_run, Hroutes.
    by rewrite registered_nil_eq. }
  eexists. by rewrite (ViewDecorator_init_app_pure _ _ _ _ _ _ Hdec Hroutes).
Qed.

Lemma register_views_appends cls callback views app :
  ∃ new, (register_views cls callback views app).2
         = registered callback new app.
Proof.
  revert app. induction views as [|[n v] views IH]; intros app.
  - exists []. by rewrite registered_nil_eq.
  - unfold register_views. cbn [for_each]. rewrite bind_run.
    destruct (ViewDecorator_init_app_appends (__set_name__ v n) cls callback app)
      as [new1 Hnew1]. cbn [fst snd] in *.
    destruct (ViewDecorator_init_app (__set_name__ v n) cls callback app)
      as [[e|[]] app1]; cbn [snd] in Hnew1; subst app1.
    + by exists new1.
    + destruct (IH (registered callback new1 app)) as [new2 Hnew2].
      exists (new1 ++ new2). unfold register_views in Hnew2.
      by rewrite Hnew2, registered_app.
Qed.

(** X4.  [ClassView.init_app] only adds to the app.  Whether it returns
    normally or raises on the way, the rules the app had are still there,
    in their places, followed by the rules added; and the callback, when
    there is one, has received exactly the rules added, in the same order,
    and otherwise nothing. *)
Theorem ClassView_init_app_only_appends (cls : mro) (callback : bool)
    (app : Flask) :
  ∃ new,
    url_map (ClassView_init_app cls callback app).2 = url_map app ++ new
    ∧ callback_calls (ClassView_init_app cls callback app).2
      = callback_calls app ++ (if callback then new else []).
Proof.
  unfold ClassView_init_app. rewrite init_app_mro_run.
  destruct (register_views_appends cls callback (select_mro cls ∅) app)
    as [new ->].
  by exists new.
Qed.

(** ** Calling a view of a plain ClassView *)

(** X5.  On a class without decorators whose [before_request] is the one of
    ClassView, a view called by the app with URL variables none of which
    is named [self] or [_view] is its handler called on a new instance
    with the same arguments: the URL variables reach the handler as
    keyword arguments.  With a URL variable of one of these two names the
    view raises [TypeError] and the handler is not called.  In both cases
    nothing is asked of the ORM. *)
Theorem classview_handler_receives_kwargs
    (v : ViewDecorator) (cls rest : mro) (callback : bool) (app : Flask)
    (class_routes : list (string * options)) :
  get_decorators cls = inr [] →
  get_routes cls = inr class_routes →
  mro_lookup "before_request" cls
  = Some (AFunction fn_ClassView_before_request, rest) →
  ∀ r args kw w,
    r ∈ added_rules v cls callback app →
    call_view_func (view r) args kw w
    = if names_parameter ["self"; "_view"] kw then (inl TypeError, w)
      else (func v {| self_kwargs := None; self_obj := None |} args kw, w).
Proof.
  intros Hdec Hroutes Hbefore r args kw w.
  rewrite (added_rules_pure _ _ _ _ _ _ Hdec Hroutes). intros Hr.
  pose proof (rules_from_view (made_view_func v cls [])
                (route_pairs class_routes (routes v))
                (default_endpoint cls v)) as Hview.
  rewrite Forall_forall in Hview. rewrite (Hview r Hr).
  unfold call_view_func. cbn [made_view_func view_class vf_name wrapped_func].
  rewrite bind_run, call_before_request_run, Hbefore.
  by destruct (names_parameter _ kw).
Qed.

Lemma classview_handler_receives_kwargs_witness :
  added_rules SubView_second SubView_mro false empty_app ≠ []
  ∧ Forall (λ r,
              call_view_func (view r) [] [("page", VInt 2)] example_world
              = (func SubView_second {| self_kwargs := None; self_obj := None |}
                      [] [("page", VInt 2)],
                 example_world)
              ∧ call_view_func (view r) [] [("_view", VStr "x")] example_world
                = (inl TypeError, example_world))
           (added_rules SubView_second SubView_mro false empty_app).
Proof.
  split; [vm_compute; discriminate|].
  apply Forall_forall. intros r Hr. split.
  - exact (classview_handler_receives_kwargs SubView_second SubView_mro
             [object] false empty_app [("/subclasstest", ∅)]
             eq_refl eq_refl eq_refl r [] [("page", VInt 2)] example_world Hr).
  - exact (classview_handler_receives_kwargs SubView_second SubView_mro
             [object] false empty_app [("/subclasstest", ∅)]
             eq_refl eq_refl eq_refl r [] [("_view", VStr "x")] example_world
             Hr).
Defined.

(** ** The filters of InstanceLoader.loader *)

Lemma dict_get_set {A} k (v : A) d k' :
  dict_get k' (dict_set k v d) = if decide (k = k') then Some v else dict_get k' d.
Proof.
  induction d as [|[k0 v0] d IH]; simpl.
  - by destruct (decide (k = k')).
  - destruct (decide (k0 = k)) as [->|Hne]; simpl.
    + by destruct (decide (k = k')).
    + destruct (decide (k0 = k')) as [->|Hne'].
      * by rewrite decide_False by done.
      * exact IH.
Qed.

Lemma dict_set_keys {A} k (v : A) d :
  (dict_set k v d).*1 = if decide (k ∈ d.*1) then d.*1 else d.*1 ++ [k].
Proof.
  induction d as [|[k0 v0] d IH].
  - by rewrite decide_False by (by intros ?%elem_of_nil).
  - cbn [dict_set]. destruct (decide (k0 = k)) as [->|Hne].
    + rewrite !fmap_cons. cbn [fst]. by rewrite decide_True by (by left).
    + rewrite !fmap_cons, IH. cbn [fst].
      destruct (decide (k ∈ d.*1)) as [Hin|Hnin].
      * by rewrite decide_True by (by right).
      * rewrite decide_False; [done|].
        intros [?|?]%elem_of_cons; congruence.
Qed.

Lemma dict_set_NoDup {A} k (v : A) d : NoDup d.*1 → NoDup (dict_set k v d).*1.
Proof.
  intros Hd. rewrite dict_set_keys. case_decide as Hk; [done|].
  apply NoDup_app. split; [done|]. split; [|apply NoDup_singleton].
  by intros x Hx ->%list_elem_of_singleton.
Qed.

Lemma dict_get_elem {A} (d : list (string * A)) k v :
  NoDup d.*1 → (k, v) ∈ d ↔ dict_get k d = Some v.
Proof.
  induction d as [|[k0 v0] d IH]; simpl.
  - intros _. split; [by intros ?%elem_of_nil|done].
  - intros [Hk0 Hd]%NoDup_cons. rewrite elem_of_cons.
    destruct (decide (k0 = k)) as [->|Hne].
    + split.
      * intros [[= ->]|Hin]; [done|]. exfalso. apply Hk0.
        apply list_elem_of_fmap. by exists (k, v).
      * intros [= ->]. by left.
    + rewrite <-(IH Hd). split; [|by right].
      intros [[= ? ?]|?]; [congruence|done].
Qed.

(** One more item of [kwargs] in the comprehension. *)
Lemma make_filters_snoc rmm (kw : kwargs) item :
  make_filters rmm (kw ++ [item])
  = match rmm !! item.1 with
    | Some attr_name => dict_set attr_name item.2 (make_filters rmm kw)
    | None => make_filters rmm kw
    end.
Proof. unfold make_filters. by rewrite foldl_app. Qed.

Lemma make_filters_NoDup rmm (kw : kwargs) : NoDup (make_filters rmm kw).*1.
Proof.
  induction kw as [|item kw IH] using rev_ind; [constructor|].
  rewrite make_filters_snoc. destruct (rmm !! item.1); [|done].
  by apply dict_set_NoDup.
Qed.

(** X6.  The filters have one entry for each mapped attribute, and its value
    is the value of the last URL variable mapped to that attribute: no
    attribute name occurs twice among the filters, and an attribute is
    filtered by a value exactly when that value is the value of a URL
    variable mapped to the attribute after which no other variable is
    mapped to it. *)
Theorem filters_keep_last_value (rmm : gmap string string) (kw : kwargs) :
  NoDup (make_filters rmm kw).*1
  ∧ ∀ name value,
      (name, value) ∈ make_filters rmm kw
      ↔ ∃ kw1 key kw2,
          kw = kw1 ++ (key, value) :: kw2
          ∧ rmm !! key = Some name
          ∧ ∀ key' value', (key', value') ∈ kw2 → rmm !! key' ≠ Some name.
Proof.
  split; [apply make_filters_NoDup|]. intros name value.
  rewrite dict_get_elem by apply make_filters_NoDup.
  induction kw as [|[key0 value0] kw IH] using rev_ind.
  - split; [done|]. intros (kw1 & key & kw2 & Hkw & _).
    by destruct kw1.
  - rewrite make_filters_snoc. cbn [fst snd].
    assert ((∃ kw1 key kw2,
               kw ++ [(key0, value0)] = kw1 ++ (key, value) :: kw2
               ∧ rmm !! key = Some name
               ∧ ∀ key' value', (key', value') ∈ kw2 → rmm !! key' ≠ Some name)
            ↔ (rmm !! key0 = Some name ∧ value0 = value)
              ∨ (rmm !! key0 ≠ Some name
                 ∧ ∃ kw1 key kw2,
                     kw = kw1 ++ (key, value) :: kw2
                     ∧ rmm !! key = Some name
                     ∧ ∀ key' value', (key', value') ∈ kw2 →
                                      rmm !! key' ≠ Some name)) as ->.
    { split.
      - intros (kw1 & key & kw2 & Hkw & Hkey & Hlast).
        destruct kw2 as [|item kw2 _] using rev_ind.
        + apply app_inj_tail in Hkw as [_ [= -> ->]]. by left.
        + rewrite app_comm_cons, app_assoc in Hkw.
          apply app_inj_tail in Hkw as [-> <-]. right. split.
          * apply (Hlast key0 value0). apply elem_of_app. right. by left.
          * exists kw1, key, kw2. split; [done|]. split; [done|].
            intros key' value' Hin. apply (Hlast key' value').
            apply elem_of_app. by left.
      - intros [[Hkey <-]|(Hkey0 & kw1 & key & kw2 & -> & Hkey & Hlast)].
        + exists kw, key0, []. split; [done|]. split; [done|].
          by intros ?? ?%elem_of_nil.
        + exists kw1, key, (kw2 ++ [(key0, value0)]).
          split; [by rewrite <-app_assoc|]. split; [done|].
          intros key' value' [?|[= -> ->]%list_elem_of_singleton]%elem_of_app;
            eauto. }
    rewrite <-IH. destruct (rmm !! key0) as [a|] eqn:Hkey0.
    + rewrite dict_get_set. destruct (decide (a = name)) as [->|Hne].
      * split; [intros [= ->]; by left|].
        intros [[_ ->]|[? _]]; done.
      * split; [intros ?; right; split; [congruence|done]|].
        intros [[[= ?] _]|[_ ?]]; done.
    + split; [intros ?; by right|]. intros [[? _]|[_ ?]]; done.
Qed.

(** ** The queries of InstanceLoader.loader *)

(** A computation that leaves the state as it found it. *)
Definition unchanged {S A} (m : M S A) : Prop := ∀ s, (m s).2 = s.

Lemma unchanged_ret {S A} (a : A) : unchanged (ret (S:=S) a).
Proof. by intros s. Qed.

Lemma unchanged_lift {S A} (r : result A) : unchanged (lift (S:=S) r).
Proof. by intros s. Qed.

Lemma unchanged_raise {S A} e : unchanged (raise (S:=S) (A:=A) e).
Proof. by intros s. Qed.

Lemma unchanged_gets {S A} (f : S → A) : unchanged (gets f).
Proof. by intros s. Qed.

Lemma unchanged_bind {S A B} (m : M S A) (k : A → M S B) :
  unchanged m → (∀ a, unchanged (k a)) → unchanged (bind m k).
Proof.
  intros Hm Hk s. unfold bind. specialize (Hm s).
  destruct (m s) as [[e|a] s1]; [done|]. cbn in Hm. subst s1. apply Hk.
Qed.

Lemma unchanged_for_each {S A B} (l : list A) (body : A → B → M S B) acc :
  (∀ x b, unchanged (body x b)) → unchanged (for_each l body acc).
Proof.
  intros Hbody. revert acc. induction l as [|x l IH]; intros acc.
  - apply unchanged_ret.
  - cbn [for_each]. apply unchanged_bind; [apply Hbody|apply IH].
Qed.

Lemma unchanged_getattr source attr_name : unchanged (getattr source attr_name).
Proof.
  intros w. unfold getattr. destruct source as [o|]; [|done].
  by destruct (w_getattr w o attr_name).
Qed.

Lemma unchanged_traverse subname st : unchanged (traverse subname st).
Proof.
  destruct st as [[query joined_models] source]. unfold traverse.
  apply unchanged_bind; [apply unchanged_getattr|]. intros a.
  apply unchanged_bind; [apply unchanged_gets|]. intros [| | property | |];
    try apply unchanged_ret.
  apply unchanged_bind; [apply unchanged_gets|]. intros [| | |argument|];
    try apply unchanged_ret.
  apply unchanged_bind; [apply unchanged_gets|]. intros argument_kind.
  case_decide; apply unchanged_ret.
Qed.

Lemma unchanged_apply_filter cls item st : unchanged (apply_filter cls item st).
Proof.
  destruct item as [attr_name value], st as [query joined_models].
  unfold apply_filter.
  apply unchanged_bind; [apply unchanged_lift|]. intros model.
  destruct (contains_char "." attr_name).
  - destruct model as [source|]; [|apply unchanged_raise].
    apply unchanged_bind.
    + apply unchanged_for_each. intros; apply unchanged_traverse.
    + intros [[? ?] ?]. apply unchanged_ret.
  - apply unchanged_bind; [apply unchanged_getattr|].
    intros; apply unchanged_ret.
Qed.

(** Either one query was sent and its answer is the result, or nothing
    was sent and the result is [None] or an exception. *)
Definition one_query_or_none (m : M World pyvalue) : Prop :=
  ∀ w, (∃ q, m w = (w_one_or_404 w q, sent w q))
       ∨ ((m w).2 = w ∧ ∀ obj, (m w).1 = inr obj → obj = VNone).

Lemma one_query_or_none_ret : one_query_or_none (ret VNone).
Proof. intros w. right. split; [done|]. by intros obj [= <-]. Qed.

Lemma one_query_or_none_bind {A} (m : M World A) (k : A → M World pyvalue) :
  unchanged m → (∀ a, one_query_or_none (k a)) → one_query_or_none (bind m k).
Proof.
  intros Hm Hk w. unfold bind. specialize (Hm w).
  destruct (m w) as [[e|a] w1]; cbn in Hm; subst w1.
  - right. split; [done|]. by intros obj [=].
  - apply Hk.
Qed.

(** X7.  [loader] sends at most one query, as the last thing it does: either
    it has sent one query and returns (or raises) what the database
    answered to it, or it has sent nothing and then it returns [None] or
    raises. *)
Theorem loader_sends_at_most_one_query (cls : mro) (self : instance) (w : World) :
  (∃ q, InstanceLoader_loader cls self w = (w_one_or_404 w q, sent w q))
  ∨ ((InstanceLoader_loader cls self w).2 = w
     ∧ ∀ obj, (InstanceLoader_loader cls self w).1 = inr obj → obj = VNone).
Proof.
  revert w. change (one_query_or_none (InstanceLoader_loader cls self)).
  unfold InstanceLoader_loader.
  apply one_query_or_none_bind; [apply unchanged_lift|].
  intros [|item kw]; [apply one_query_or_none_ret|].
  apply one_query_or_none_bind; [apply unchanged_lift|]. intros rmm.
  destruct (existsb _ _); [|apply one_query_or_none_ret].
  apply one_query_or_none_bind; [apply unchanged_lift|]. intros self_query.
  apply one_query_or_none_bind.
  { destruct self_query; [apply unchanged_ret|].
    apply unchanged_bind; [apply unchanged_lift|].
    intros [m|]; [apply unchanged_ret|apply unchanged_raise]. }
  intros query. apply one_query_or_none_bind.
  { apply unchanged_for_each. intros; apply unchanged_apply_filter. }
  intros st w. left. by exists st.1.
Qed.

(** ** Attributes that InstanceLoader.loader cannot resolve *)

Lemma traverse_loop_fails w path query joined_models source :
  resolve_path w source path = None →
  ∃ subname,
    subname ∈ path
    ∧ for_each path traverse (query, joined_models, source) w
      = (inl (AttributeError subname), w).
Proof.
  revert query joined_models source.
  induction path as [|subname path IH]; intros query joined_models source;
    cbn [for_each resolve_path]; [done|].
  rewrite bind_run, traverse_run.
  destruct (w_getattr w source subname) as [a|];
    [|intros _; exists subname; split; [by left|done]].
  destruct (related_class w a) as [c|].
  - destruct (resolve_path w c path) as [[column related]|] eqn:Hres; [done|].
    intros _. case_decide.
    + destruct (IH query joined_models c Hres) as (sub & Hin & ->).
      exists sub. split; [by right|done].
    + destruct (IH (query_join query c) ({[c]} ∪ joined_models) c Hres)
        as (sub & Hin & ->).
      exists sub. split; [by right|done].
  - destruct (resolve_path w a path) as [[column related]|] eqn:Hres; [done|].
    intros _. destruct (IH query joined_models a Hres) as (sub & Hin & ->).
    exists sub. split; [by right|done].
Qed.

Lemma apply_filter_fails w cls model attr_name value query joined_models :
  get_model cls = inr (Some model) →
  resolve_attribute w model attr_name = None →
  ∃ subname,
    apply_filter cls (attr_name, value) (query, joined_models) w
    = (inl (AttributeError subname), w)
    ∧ if contains_char "." attr_name then subname ∈ split "." attr_name
      else subname = attr_name.
Proof.
  intros Hmodel. unfold resolve_attribute, apply_filter.
  rewrite bind_run, Hmodel. unfold lift at 1.
  destruct (contains_char "." attr_name).
  - intros Hres.
    destruct (traverse_loop_fails w _ query joined_models model Hres)
      as (sub & Hin & Hrun).
    exists sub. split; [|done]. by rewrite bind_run, Hrun.
  - rewrite bind_run. unfold getattr.
    destruct (w_getattr w model attr_name); [done|]. intros _.
    by exists attr_name.
Qed.

(** X8.  When a mapped attribute does not resolve on the model, [loader]
    raises [AttributeError] and sends no query: with the filters before
    it resolved, the error names the attribute itself, or for a dotted
    name one of its components. *)
Theorem loader_unresolved_attribute (cls : mro) (self : instance) (w : World)
    (kw : kwargs) (rmm : gmap string string) (self_query : option Query)
    (model : ref) (before after : list (string * pyvalue))
    (resolved : list (ref * list ref)) (attr_name : string) (value : pyvalue) :
  self_kwargs self = Some kw →
  get_route_model_map cls = inr rmm →
  get_query cls = inr self_query →
  get_model cls = inr (Some model) →
  make_filters rmm kw = before ++ (attr_name, value) :: after →
  Forall2 (λ item res, resolve_attribute w model item.1 = Some res)
          before resolved →
  resolve_attribute w model attr_name = None →
  ∃ subname,
    InstanceLoader_loader cls self w = (inl (AttributeError subname), w)
    ∧ if contains_char "." attr_name then subname ∈ split "." attr_name
      else subname = attr_name.
Proof.
  intros Hkw Hrmm Hquery Hmodel Hfilters Hbefore Hnone.
  assert (∃ key value', (key, value') ∈ kw ∧ is_Some (rmm !! key)) as Hmapped.
  { destruct (make_filters_elem rmm kw attr_name value) as (key & Hin & Hkey).
    - rewrite Hfilters. apply elem_of_app. right. by left.
    - by exists key, value. }
  destruct (filter_loop_run w cls model _ _
              (default (model_query model) self_query) ∅ Hmodel Hbefore)
    as (q & ops & Hrun & _).
  destruct (apply_filter_fails w cls model attr_name value q
              (list_to_set (concat resolved.*2) ∪ ∅) Hmodel Hnone)
    as (subname & Hfail & Hsub).
  exists subname. split; [|done].
  unfold InstanceLoader_loader, get_kwargs.
  rewrite Hkw, bind_run. unfold lift at 1.
  destruct kw as [|item kw'].
  { destruct Hmapped as (? & ? & ?%elem_of_nil & _). done. }
  rewrite bind_run, Hrmm. unfold lift at 1.
  apply existsb_mapped in Hmapped. rewrite Hmapped.
  rewrite bind_run, Hquery. unfold lift at 1. rewrite bind_run.
  assert ((match self_query with
           | Some q1 => ret q1
           | None =>
               model0 <- lift (get_model cls) ;;
               match model0 with
               | Some m => ret (model_query m)
               | None => raise (AttributeError "query")
               end
           end) w = (inr (default (model_query model) self_query), w)) as ->.
  { destruct self_query; [done|]. by rewrite bind_run, Hmodel. }
  rewrite bind_run, Hfilters, for_each_app, bind_run, Hrun.
  cbn [for_each]. by rewrite bind_run, Hfail.
Qed.

(** A view of the scoped documents whose map names an attribute that the
    parent model does not have. *)
Definition MisroutedDocumentView : class :=
  {| __name__ := "MisroutedDocumentView";
     __dict__ := [("model", AModel (Some 1%positive));
                  ("route_model_map",
                   ARouteModelMap (<["parent" := "parent.nickname"]>
                                     {["document" := "name"]}))] |}.

Definition MisroutedDocumentView_mro : mro :=
  [MisroutedDocumentView; UrlForView; InstanceLoader; ModelView; ClassView;
   object].

Lemma loader_unresolved_attribute_witness :
  ∃ subname,
    InstanceLoader_loader MisroutedDocumentView_mro
      {| self_kwargs := Some [("document", VStr "test2");
                              ("parent", VStr "test1")];
         self_obj := None |} example_world
    = (inl (AttributeError subname), example_world)
    ∧ subname ∈ ["parent"; "nickname"].
Proof.
  apply (loader_unresolved_attribute MisroutedDocumentView_mro _ example_world
           [("document", VStr "test2"); ("parent", VStr "test1")]
           (<["parent" := "parent.nickname"]> {["document" := "name"]})
           None 1%positive [("name", VStr "test2")] []
           [(10%positive, [])] "parent.nickname" (VStr "test1"));
    try reflexivity.
  repeat constructor.
Defined.

End classview_extra.

(* ===================================================================== *)
(** * The route decorators of coaster/views/classview.py:
      [route], [ViewDecorator.__call__], [ViewDecorator.reroute] and
      [ClassView.add_route_for] *)
(* ===================================================================== *)

Module decorating.
Import Py.

(** The lists of routes are objects of their own: the view that [reroute]
    makes holds the very list of the view it reroutes, and [extend]
    changes a list in place.  The heap holds the list objects. *)
Abbreviation loc := positive.
Abbreviation route_list := (list (string * classview.options)).
Abbreviation Heap := (gmap loc route_list).

(** A list display: a new list object. *)
Definition new_list (items : route_list) : M Heap loc :=
  λ h, let l := fresh (dom h) in (inr l, <[l := items]> h).

(** [target.extend(source)] *)
Definition extend (target source : loc) : M Heap unit :=
  modify (λ h, <[target := h !!! target ++ h !!! source]> h).

(** A function, or any other object that is neither a view nor a
    ClassView: its [__name__], when it has one, and what a call of it as
    a method does. *)
Record callable := {
  __name__ : option string;
  call : classview.handler
}.

(** A [ViewDecorator] object; [func] and [name] are set by [__call__]. *)
Record ViewDecorator := {
  routes : loc;
  func : option callable;
  name : option string
}.

(** What the namespace of a class holds: views, lists of routes,
    functions and other objects that are not classes. *)
Inductive attr :=
| AViewDecorator (v : ViewDecorator)
| ARoutes (l : loc)
| ACallable (f : callable).

(** One class statement, and a class as its method-resolution order,
    itself first. *)
Record class := { class_name : string; __dict__ : list (string * attr) }.

Abbreviation mro := (list class).

(** [cls.__dict__] *)
Definition own_dict (cls : mro) : list (string * attr) :=
  match cls with
  | c :: _ => __dict__ c
  | [] => []
  end.

(** Attribute lookup on a class. *)
Fixpoint mro_lookup (attr_name : string) (cls : mro) : option attr :=
  match cls with
  | [] => None
  | base :: rest =>
      match dict_get attr_name (__dict__ base) with
      | Some a => Some a
      | None => mro_lookup attr_name rest
      end
  end.

(** [setattr(cls, name, value)] *)
Definition setattr (cls : mro) (attr_name : string) (value : attr) : mro :=
  match cls with
  | c :: bases =>
      {| class_name := class_name c;
         __dict__ := dict_set attr_name value (__dict__ c) |} :: bases
  | [] => []
  end.

(** [ViewDecorator.__init__] *)
Definition ViewDecorator___init__ (rule : string) (options : classview.options)
  : M Heap ViewDecorator :=
  l <- new_list [(rule, options)] ;;
  ret {| routes := l; func := None; name := None |}.

(** [route(rule, **options)] *)
Definition route (rule : string) (options : classview.options)
  : M Heap ViewDecorator :=
  ViewDecorator___init__ rule options.

(** What a decorator is applied to, as the tests of [__call__] tell it
    apart. *)
Inductive decorated :=
| DClassView (cls : mro)      (* a class, subclass of ClassView *)
| DView (v : ViewDecorator)   (* a ViewDecorator, or the
                                 ViewDecoratorWrapper of one *)
| DCallable (f : callable).   (* anything else *)

(** The end of [__call__], once [self.func] is set:
    [self.name = self.__name__ = self.func.__name__; return self]. *)
Definition named_after_func (self : ViewDecorator) (f : callable)
  : M Heap ViewDecorator :=
  match __name__ f with
  | Some n => ret {| routes := routes self; func := Some f; name := Some n |}
  | None => raise (AttributeError "__name__")
  end.

(** [ViewDecorator.__call__] on a ClassView: returns the class. *)
Definition decorate_class (self : ViewDecorator) (cls : mro) : M Heap mro :=
  (* if '__routes__' not in decorated.__dict__: decorated.__routes__ = [] *)
  cls <- match dict_get "__routes__" (own_dict cls) with
         | Some _ => ret cls
         | None =>
             l <- new_list [] ;;
             ret (setattr cls "__routes__" (ARoutes l))
         end ;;
  (* decorated.__routes__.extend(self.routes) *)
  match mro_lookup "__routes__" cls with
  | Some (ARoutes l) => extend l (routes self) ;;; ret cls
  | Some _ => raise (AttributeError "extend")
  | None => raise (AttributeError "__routes__")
  end.

(** [ViewDecorator.__call__] on a view or on anything else: returns
    [self]. *)
Definition decorate_view (self : ViewDecorator) (d : ViewDecorator + callable)
  : M Heap ViewDecorator :=
  match d with
  | inl v =>
      (* self.routes.extend(decorated.routes); self.func = decorated.func *)
      extend (routes self) (routes v) ;;;
      match func v with
      | Some f => named_after_func self f
      | None => raise (AttributeError "func")
      end
  | inr f =>
      (* self.func = decorated *)
      named_after_func self f
  end.

Definition ViewDecorator___call__ (self : ViewDecorator) (d : decorated)
  : M Heap decorated :=
  match d with
  | DClassView cls => cls <- decorate_class self cls ;; ret (DClassView cls)
  | DView v => self <- decorate_view self (inl v) ;; ret (DView self)
  | DCallable f => self <- decorate_view self (inr f) ;; ret (DView self)
  end.

(** [ViewDecorator.reroute] *)
Definition reroute (self : ViewDecorator) (f : decorated) : M Heap decorated :=
  (* r = type(self)('') *)
  r <- ViewDecorator___init__ "" ∅ ;;
  (* r.routes = self.routes *)
  let r := {| routes := routes self; func := func r; name := name r |} in
  ViewDecorator___call__ r f.

(** [ClassView.__get_raw_attr] *)
Fixpoint __get_raw_attr (cls : mro) (attr_name : string) : result attr :=
  match cls with
  | [] => inl (AttributeError attr_name)
  | base :: rest =>
      match dict_get attr_name (__dict__ base) with
      | Some a => inr a
      | None => __get_raw_attr rest attr_name
      end
  end.

(** A raw attribute as [__call__] sees it: a list of routes is an object
    without a [__name__], and it cannot be called. *)
Definition raw_decorated (a : attr) : ViewDecorator + callable :=
  match a with
  | AViewDecorator v => inl v
  | ACallable f => inr f
  | ARoutes _ => inr {| __name__ := None; call := λ _ _ _, inl TypeError |}
  end.

(** [ClassView.add_route_for]:
    [setattr(cls, _name, route(rule, **options)(cls.__get_raw_attr(_name)))];
    a raw attribute is no class here, so that [__call__] takes one of its
    last two branches. *)
Definition add_route_for (cls : mro) (_name rule : string)
    (options : classview.options) : M Heap mro :=
  decorator <- route rule options ;;
  raw <- lift (__get_raw_attr cls _name) ;;
  view <- decorate_view decorator (raw_decorated raw) ;;
  ret (setattr cls _name (AViewDecorator view)).

End decorating.

(* ===================================================================== *)
(** * Properties of the route decorators *)
(* ===================================================================== *)

Module decorating_props.
Import Py decorating.

(** The routes and the function that [__call__] takes over from what it
    decorates. *)
Definition routes_of (h : Heap) (d : decorated) : route_list :=
  match d with
  | DView v => h !!! routes v
  | _ => []
  end.

Definition func_of (d : decorated) : option callable :=
  match d with
  | DView v => func v
  | DCallable f => Some f
  | DClassView _ => None
  end.

(** The lists that [d] refers to exist. *)
Definition allocated (h : Heap) (d : decorated) : Prop :=
  match d with
  | DView v => routes v ∈ dom h
  | _ => True
  end.

(** The lists of [h] are the same in [h']. *)
Definition preserved (h h' : Heap) : Prop :=
  ∀ l, l ∈ dom h → h' !! l = h !! l.

Lemma preserved_refl h : preserved h h.
Proof. by intros l _. Qed.

Lemma preserved_trans h1 h2 h3 :
  preserved h1 h2 → preserved h2 h3 → preserved h1 h3.
Proof.
  intros H12 H23 l Hl. rewrite H23, H12; [done..|].
  apply elem_of_dom. rewrite H12 by done. by apply elem_of_dom.
Qed.

Lemma preserved_new h l items : l ∉ dom h → preserved h (<[l := items]> h).
Proof.
  intros Hl l' Hl'. apply lookup_insert_ne. by intros ->.
Qed.

Lemma preserved_lookup_total h h' l :
  preserved h h' → l ∈ dom h → h' !!! l = h !!! l.
Proof. intros Hp Hl. by rewrite !lookup_total_alt, (Hp l Hl). Qed.

Lemma preserved_dom h h' l : preserved h h' → l ∈ dom h → l ∈ dom h'.
Proof.
  intros Hp Hl. apply elem_of_dom. rewrite (Hp l Hl). by apply elem_of_dom.
Qed.

Lemma new_list_run items h :
  new_list items h = (inr (fresh (dom h)), <[fresh (dom h) := items]> h).
Proof. reflexivity. Qed.

Lemma fresh_not_allocated (h : Heap) : fresh (dom h) ∉ dom h.
Proof. apply is_fresh. Qed.

Lemma route_run rule options h :
  route rule options h
  = (inr {| routes := fresh (dom h); func := None; name := None |},
     <[fresh (dom h) := [(rule, options)]]> h).
Proof. reflexivity. Qed.

(** [__call__] on a view or a function, by a decorator whose list
    exists. *)
Lemma decorate_run self d f n h :
  func_of d = Some f → __name__ f = Some n →
  routes self ∈ dom h →
  ∃ h',
    ViewDecorator___call__ self d h
    = (inr (DView {| routes := routes self; func := Some f; name := Some n |}),
       h')
    ∧ h' !! routes self = Some (h !!! routes self ++ routes_of h d)
    ∧ ∀ l, l ≠ routes self → h' !! l = h !! l.
Proof.
  intros Hf Hn Hself. destruct d as [cls|v|f0]; [done|..]; cbn in Hf.
  - exists (<[routes self := h !!! routes self ++ h !!! routes v]> h).
    split; [|split].
    + unfold ViewDecorator___call__, decorate_view.
      rewrite !classview_props.bind_run. unfold extend, modify.
      rewrite Hf. unfold named_after_func. by rewrite Hn.
    + by rewrite lookup_insert_eq.
    + intros l Hl. by rewrite lookup_insert_ne.
  - injection Hf as ->. exists h. split; [|split].
    + unfold ViewDecorator___call__, decorate_view, named_after_func.
      by rewrite classview_props.bind_run, Hn.
    + cbn. rewrite app_nil_r. rewrite lookup_total_alt.
      apply elem_of_dom in Hself as [x ->]. done.
    + done.
Qed.

Lemma routes_of_preserved h h' d :
  preserved h h' → allocated h d → routes_of h' d = routes_of h d.
Proof.
  intros Hp Hd. destruct d as [cls|v|f]; [done| |done].
  by apply preserved_lookup_total.
Qed.

Lemma allocated_preserved h h' d :
  preserved h h' → allocated h d → allocated h' d.
Proof.
  intros Hp Hd. destruct d as [cls|v|f]; [done| |done].
  by apply (preserved_dom h).
Qed.

(** [route(rule, **options)(d)] *)
Lemma route_call_run h rule options d f n :
  func_of d = Some f → __name__ f = Some n → allocated h d →
  ∃ l h',
    (decorator <- route rule options ;; ViewDecorator___call__ decorator d) h
    = (inr (DView {| routes := l; func := Some f; name := Some n |}), h')
    ∧ (l ∉ dom h)
    ∧ h' !! l = Some ((rule, options) :: routes_of h d)
    ∧ preserved h h'.
Proof.
  intros Hf Hn Hd. rewrite classview_props.bind_run, route_run.
  pose proof (fresh_not_allocated h) as Hfresh.
  set (l := fresh (dom h)) in *.
  set (h1 := <[l := [(rule, options)]]> h).
  assert (preserved h h1) as Hp by by apply preserved_new.
  destruct (decorate_run {| routes := l; func := None; name := None |} d f n h1
              Hf Hn) as (h' & Hrun & Hl & Hothers).
  { cbn. apply elem_of_dom. unfold h1. by rewrite lookup_insert_eq. }
  cbn [routes] in *. exists l, h'. split; [done|]. split; [done|]. split.
  - rewrite Hl, (routes_of_preserved h h1) by done.
    unfold h1. by rewrite lookup_total_insert_eq.
  - intros l' Hl'. rewrite Hothers by (by intros ->). by apply Hp.
Qed.

(** X9.  A route decorator over a view or a function makes a view on a list of
    its own: the rule of the decorator first, then the routes of the view
    it decorates (none for a function); the lists there were are as
    before.  Stacked decorators thus give their rules from the top
    down. *)
Theorem route_puts_its_rule_first (h : Heap) (rule : string)
    (options : classview.options) (d : decorated) (f : callable) (n : string) :
  func_of d = Some f → __name__ f = Some n → allocated h d →
  ∃ l h',
    (decorator <- route rule options ;; ViewDecorator___call__ decorator d) h
    = (inr (DView {| routes := l; func := Some f; name := Some n |}), h')
    ∧ (l ∉ dom h)
    ∧ h' !! l = Some ((rule, options) :: routes_of h d)
    ∧ preserved h h'.
Proof. apply route_call_run. Qed.

(** [self.reroute(d)] *)
Lemma reroute_run h base d f n :
  func_of d = Some f → __name__ f = Some n →
  routes base ∈ dom h → allocated h d →
  ∃ h',
    reroute base d h
    = (inr (DView {| routes := routes base; func := Some f; name := Some n |}),
       h')
    ∧ h' !! routes base = Some (h !!! routes base ++ routes_of h d)
    ∧ ∀ l, l ∈ dom h → l ≠ routes base → h' !! l = h !! l.
Proof.
  intros Hf Hn Hbase Hd. unfold reroute, ViewDecorator___init__.
  rewrite !classview_props.bind_run, new_list_run. unfold ret at 1.
  cbn [func name].
  pose proof (fresh_not_allocated h) as Hfresh.
  set (l := fresh (dom h)) in *.
  set (h1 := <[l := [("", ∅)]]> h).
  assert (preserved h h1) as Hp by by apply preserved_new.
  destruct (decorate_run {| routes := routes base; func := None; name := None |}
              d f n h1 Hf Hn) as (h' & Hrun & Hl & Hothers).
  { cbn. by apply (preserved_dom h). }
  cbn [routes] in *. exists h'. split; [done|]. split.
  - by rewrite Hl, (routes_of_preserved h h1),
      (preserved_lookup_total h h1) by done.
  - intros l' Hl' Hne. rewrite Hothers by done. by apply Hp.
Qed.

(** X10.  [reroute] makes a view on the very list of the view it reroutes,
    and extends that list with the routes of what it decorates: over a
    function the list stays as it is, over a routed view the rerouted
    view gets the routes of that view as well.  No other list
    changes. *)
Theorem reroute_shares_the_list (h : Heap) (base : ViewDecorator)
    (d : decorated) (f : callable) (n : string) :
  func_of d = Some f → __name__ f = Some n →
  routes base ∈ dom h → allocated h d →
  ∃ h',
    reroute base d h
    = (inr (DView {| routes := routes base; func := Some f; name := Some n |}),
       h')
    ∧ h' !! routes base = Some (h !!! routes base ++ routes_of h d)
    ∧ ∀ l, l ∈ dom h → l ≠ routes base → h' !! l = h !! l.
Proof. apply reroute_run. Qed.

(** X11.  [@route(rule, **options)] over [@base.reroute] over a function: the
    decorator expressions are evaluated from the top down, and applied
    from the bottom up.  The view has the function, and a list of its own
    with the new rule followed by the routes of the rerouted view; the
    list of the rerouted view, as every list there was, is as before. *)
Theorem route_over_reroute_spares_the_base (h : Heap) (base : ViewDecorator)
    (f : callable) (n : string) (rule : string) (options : classview.options) :
  __name__ f = Some n →
  routes base ∈ dom h →
  ∃ l h',
    (decorator <- route rule options ;;
     rerouted <- reroute base (DCallable f) ;;
     ViewDecorator___call__ decorator rerouted) h
    = (inr (DView {| routes := l; func := Some f; name := Some n |}), h')
    ∧ (l ∉ dom h)
    ∧ h' !! l = Some ((rule, options) :: h !!! routes base)
    ∧ preserved h h'.
Proof.
  intros Hn Hbase. rewrite classview_props.bind_run, route_run.
  pose proof (fresh_not_allocated h) as Hfresh.
  set (l := fresh (dom h)) in *.
  set (h1 := <[l := [(rule, options)]]> h).
  assert (preserved h h1) as Hp1 by by apply preserved_new.
  assert (l ∈ dom h1) as Hl1.
  { apply elem_of_dom. unfold h1. by rewrite lookup_insert_eq. }
  assert (l ≠ routes base) as Hne by (by intros ->).
  destruct (reroute_run h1 base (DCallable f) f n eq_refl Hn) as
    (h2 & Hrun2 & Hbase2 & Hothers2); [by apply (preserved_dom h)|done|].
  rewrite classview_props.bind_run, Hrun2.
  cbn [routes_of] in Hbase2. rewrite app_nil_r in Hbase2.
  destruct (decorate_run {| routes := l; func := None; name := None |}
              (DView {| routes := routes base; func := Some f; name := Some n |})
              f n h2 eq_refl Hn) as (h' & Hrun & Hl & Hothers).
  { cbn. apply elem_of_dom. rewrite Hothers2 by done. by apply elem_of_dom. }
  cbn [routes routes_of] in *. exists l, h'. split; [done|]. split; [done|].
  split.
  - rewrite Hl. f_equal.
    rewrite !(lookup_total_alt h2), Hothers2, Hbase2 by done. cbn.
    unfold h1. rewrite lookup_insert_eq. cbn.
    by rewrite (preserved_lookup_total h _) by done.
  - intros l' Hl'. assert (l' ≠ l) as Hne' by (by intros ->).
    rewrite Hothers by done.
    destruct (decide (l' = routes base)) as [->|Hne''].
    + rewrite Hbase2, (preserved_lookup_total h h1) by done.
      rewrite lookup_total_alt. apply elem_of_dom in Hbase as [x ->]. done.
    + rewrite Hothers2; [by apply Hp1| by apply (preserved_dom h)|done].
Qed.

(** ** Routes on a class *)

Lemma dict_set_absent {A} k (v : A) d :
  dict_get k d = None → dict_set k v d = d ++ [(k, v)].
Proof.
  induction d as [|[k0 v0] d IH]; simpl; [done|].
  destruct (decide (k0 = k)); [done|]. intros Hd. by rewrite IH.
Qed.

(** X12.  A route decorator on a class that has no [__routes__] in its own
    namespace gives the class a new list with the route of the decorator
    alone: the routes the class inherits (the fallback route of ClassView
    among them) are not copied, and their lists are as before. *)
Theorem route_on_class_starts_own_list (h : Heap) (rule : string)
    (options : classview.options) (c : class) (bases : mro) :
  dict_get "__routes__" (__dict__ c) = None →
  ∃ l h',
    (decorator <- route rule options ;;
     ViewDecorator___call__ decorator (DClassView (c :: bases))) h
    = (inr (DClassView
              ({| class_name := class_name c;
                  __dict__ := __dict__ c ++ [("__routes__", ARoutes l)] |}
               :: bases)), h')
    ∧ (l ∉ dom h)
    ∧ h' !! l = Some [(rule, options)]
    ∧ preserved h h'.
Proof.
  intros Hown. rewrite classview_props.bind_run, route_run.
  pose proof (fresh_not_allocated h) as Hfresh.
  set (l0 := fresh (dom h)) in *.
  set (h1 := <[l0 := [(rule, options)]]> h).
  pose proof (fresh_not_allocated h1) as Hfresh1.
  set (l := fresh (dom h1)) in *.
  assert (l0 ∈ dom h1) as Hl0.
  { apply elem_of_dom. unfold h1. by rewrite lookup_insert_eq. }
  assert (l ≠ l0) as Hne by (by intros ->).
  assert (l ∉ dom h) as Hl.
  { intros Hin. apply Hfresh1. unfold h1. rewrite dom_insert. set_solver. }
  exists l, (<[l := [] ++ [(rule, options)]]> (<[l := []]> h1)).
  split; [|split; [done|split]].
  - unfold ViewDecorator___call__, decorate_class. cbn [own_dict routes].
    rewrite Hown, !classview_props.bind_run, new_list_run. fold l.
    unfold ret at 1. cbn [setattr mro_lookup __dict__].
    rewrite classview_extra.dict_get_set, decide_True by done.
    rewrite classview_props.bind_run. unfold extend, modify.
    rewrite dict_set_absent by done. unfold ret. do 3 f_equal.
    + by rewrite lookup_total_insert_eq.
    + rewrite lookup_total_insert_ne by done. unfold h1.
      by rewrite lookup_total_insert_eq.
  - by rewrite lookup_insert_eq.
  - intros l' Hl'. unfold h1.
    rewrite !lookup_insert_ne; [done|by intros ->..].
Qed.

(** X13.  A route decorator on a class that has its own list of routes adds
    its route at the end of that list, and returns the class as it is:
    decorators stacked on a class give their rules from the bottom up.
    No other list changes. *)
Theorem route_on_class_extends_own_list (h : Heap) (rule : string)
    (options : classview.options) (c : class) (bases : mro) (l : loc) :
  dict_get "__routes__" (__dict__ c) = Some (ARoutes l) →
  l ∈ dom h →
  ∃ h',
    (decorator <- route rule options ;;
     ViewDecorator___call__ decorator (DClassView (c :: bases))) h
    = (inr (DClassView (c :: bases)), h')
    ∧ h' !! l = Some (h !!! l ++ [(rule, options)])
    ∧ ∀ l', l' ∈ dom h → l' ≠ l → h' !! l' = h !! l'.
Proof.
  intros Hown Hl. rewrite classview_props.bind_run, route_run.
  pose proof (fresh_not_allocated h) as Hfresh.
  set (l0 := fresh (dom h)) in *.
  set (h1 := <[l0 := [(rule, options)]]> h).
  assert (l ≠ l0) as Hne by (by intros ->).
  exists (<[l := h !!! l ++ [(rule, options)]]> h1). split; [|split].
  - unfold ViewDecorator___call__, decorate_class. cbn [own_dict routes].
    rewrite Hown, !classview_props.bind_run. unfold ret at 1.
    cbn [mro_lookup]. rewrite Hown, classview_props.bind_run.
    unfold extend, modify, ret. do 3 f_equal; unfold h1.
    + by rewrite lookup_total_insert_ne.
    + by rewrite lookup_total_insert_eq.
  - by rewrite lookup_insert_eq.
  - intros l' Hl' Hne'. unfold h1.
    rewrite !lookup_insert_ne; [done|by intros ->|done].
Qed.

(** ** ClassView.add_route_for *)

Lemma __get_raw_attr_lookup cls attr_name :
  __get_raw_attr cls attr_name
  = match mro_lookup attr_name cls with
    | Some a => inr a
    | None => inl (AttributeError attr_name)
    end.
Proof.
  induction cls as [|base rest IH]; [done|]. cbn [__get_raw_attr mro_lookup].
  by destruct (dict_get attr_name (__dict__ base)).
Qed.

Lemma mro_lookup_None cls attr_name :
  mro_lookup attr_name cls = None
  ↔ ∀ base, base ∈ cls → dict_get attr_name (__dict__ base) = None.
Proof.
  induction cls as [|base rest IH]; cbn [mro_lookup].
  - split; [by intros _ ? ?%elem_of_nil|done].
  - destruct (dict_get attr_name (__dict__ base)) eqn:Hget.
    + split; [done|]. intros Hall. rewrite <-Hget. apply Hall. by left.
    + rewrite IH. split.
      * intros Hall b [->|Hin]%elem_of_cons; [done|by apply Hall].
      * intros Hall b Hin. apply Hall. by right.
Qed.

(** X14.  [add_route_for] on a name that no class of the MRO has raises
    [AttributeError] with that name; the lists of routes are as before. *)
Theorem add_route_for_missing_name (h : Heap) (cls : mro) (_name rule : string)
    (options : classview.options) :
  (∀ base, base ∈ cls → dict_get _name (__dict__ base) = None) →
  ∃ h',
    add_route_for cls _name rule options h = (inl (AttributeError _name), h')
    ∧ preserved h h'.
Proof.
  intros Hnone%mro_lookup_None. unfold add_route_for.
  rewrite classview_props.bind_run, route_run, classview_props.bind_run.
  rewrite __get_raw_attr_lookup, Hnone. unfold lift. eexists. split; [done|].
  apply preserved_new, fresh_not_allocated.
Qed.

(** A raw attribute as an argument of [__call__]. *)
Definition raw_argument (a : attr) : decorated :=
  match raw_decorated a with
  | inl v => DView v
  | inr f => DCallable f
  end.

Lemma mro_lookup_setattr c bases attr_name value other :
  mro_lookup other (setattr (c :: bases) attr_name value)
  = if decide (attr_name = other) then Some value
    else mro_lookup other (c :: bases).
Proof.
  cbn [setattr mro_lookup __dict__]. rewrite classview_extra.dict_get_set.
  by destruct (decide (attr_name = other)).
Qed.

(** X15.  [add_route_for] on a name that the class has or inherits, as a view
    or as a function, puts a view under that name in the namespace of the
    class itself, its bases being as they were: the view has the function
    of the attribute found, and a list of its own with the new rule
    followed by the routes of the view found (none for a function).  The
    lists there were are as before, and so is every other attribute of
    the class. *)
Theorem add_route_for_adds_own_view (h : Heap) (c : class) (bases : mro)
    (_name rule : string) (options : classview.options) (a : attr)
    (f : callable) (n : string) :
  mro_lookup _name (c :: bases) = Some a →
  func_of (raw_argument a) = Some f →
  __name__ f = Some n →
  allocated h (raw_argument a) →
  ∃ l h' cls',
    add_route_for (c :: bases) _name rule options h = (inr cls', h')
    ∧ (l ∉ dom h)
    ∧ h' !! l = Some ((rule, options) :: routes_of h (raw_argument a))
    ∧ preserved h h'
    ∧ tail cls' = bases
    ∧ ∀ other,
        mro_lookup other cls'
        = if decide (_name = other)
          then Some (AViewDecorator
                       {| routes := l; func := Some f; name := Some n |})
          else mro_lookup other (c :: bases).
Proof.
  intros Hraw Hf Hn Ha.
  destruct (route_call_run h rule options (raw_argument a) f n Hf Hn Ha)
    as (l & h' & Hrun & Hl & Hroutes & Hp).
  exists l, h',
    (setattr (c :: bases) _name
       (AViewDecorator {| routes := l; func := Some f; name := Some n |})).
  split; [|split; [done|split; [done|split; [done|split; [done|]]]]].
  - unfold add_route_for. rewrite classview_props.bind_run, route_run.
    rewrite classview_props.bind_run, route_run in Hrun.
    set (decorator := {| routes := fresh (dom h); func := None;
                         name := None |}) in *.
    set (h1 := <[fresh (dom h) := [(rule, options)]]> h) in *.
    rewrite classview_props.bind_run, __get_raw_attr_lookup, Hraw.
    unfold lift at 1. rewrite classview_props.bind_run.
    unfold raw_argument, ViewDecorator___call__ in Hrun.
    destruct (raw_decorated a) as [v|f0];
      rewrite classview_props.bind_run in Hrun;
      destruct (decorate_view decorator _ h1) as [[e|view] h2]; try done;
      by injection Hrun as -> ->.
  - intros other. apply mro_lookup_setattr.
Qed.

(** ** A worked example: the base view and the subviews of the test
      suite *)

Definition first_function : callable :=
  {| __name__ := Some "first"; call := λ _ _ _, inr (VStr "first") |}.

Definition second_function : callable :=
  {| __name__ := Some "second"; call := λ _ _ _, inr (VStr "second") |}.

Definition rerouted_second : callable :=
  {| __name__ := Some "second";
     call := λ _ _ _, inr (VStr "rerouted-second") |}.

Definition latent_route : callable :=
  {| __name__ := Some "latent_route";
     call := λ _ _ _, inr (VStr "latent-route") |}.

(** The lists of the fallback route of ClassView (1) and of the views
    [first] (2) and [second] (3) of the base view. *)
Definition test_heap : Heap :=
  <[1%positive := [("", ∅)]]>
    (<[2%positive := [("", ∅)]]> {[3%positive := [("second", ∅)]]}).

Definition BaseView_first : ViewDecorator :=
  {| routes := 2; func := Some first_function; name := Some "first" |}.

Definition BaseView_second : ViewDecorator :=
  {| routes := 3; func := Some second_function; name := Some "second" |}.

Definition ClassView : class :=
  {| class_name := "ClassView"; __dict__ := [("__routes__", ARoutes 1)] |}.

Definition BaseView : class :=
  {| class_name := "BaseView";
     __dict__ := [("first", AViewDecorator BaseView_first);
                  ("second", AViewDecorator BaseView_second);
                  ("latent_route", ACallable latent_route)] |}.

Definition SubView : class := {| class_name := "SubView"; __dict__ := [] |}.

Lemma test_heap_allocated l :
  l ∈ [1; 2; 3]%positive → l ∈ dom test_heap.
Proof.
  intros Hl. apply elem_of_dom.
  repeat (apply elem_of_cons in Hl as [->|Hl]; [by eexists|]).
  by apply elem_of_nil in Hl.
Defined.

Lemma route_puts_its_rule_first_witness :
  ∃ l h',
    (decorator <- route "2" ∅ ;;
     ViewDecorator___call__ decorator (DView BaseView_second)) test_heap
    = (inr (DView {| routes := l; func := Some second_function;
                     name := Some "second" |}), h')
    ∧ (l ∉ dom test_heap)
    ∧ h' !! l = Some [("2", ∅); ("second", ∅)]
    ∧ preserved test_heap h'.
Proof.
  apply (route_puts_its_rule_first test_heap "2" ∅ (DView BaseView_second)
           second_function "second"); [reflexivity..|].
  apply test_heap_allocated. repeat constructor.
Defined.

Lemma reroute_shares_the_list_witness :
  ∃ h',
    reroute BaseView_first (DView BaseView_second) test_heap
    = (inr (DView {| routes := 2; func := Some second_function;
                     name := Some "second" |}), h')
    ∧ h' !! 2%positive = Some [("", ∅); ("second", ∅)]
    ∧ ∀ l, l ∈ dom test_heap → l ≠ 2%positive → h' !! l = test_heap !! l.
Proof.
  apply (reroute_shares_the_list test_heap BaseView_first
           (DView BaseView_second) second_function "second");
    [reflexivity..| |]; apply test_heap_allocated; repeat constructor.
Defined.

Lemma route_over_reroute_spares_the_base_witness :
  ∃ l h',
    (decorator <- route "2" ∅ ;;
     rerouted <- reroute BaseView_second (DCallable rerouted_second) ;;
     ViewDecorator___call__ decorator rerouted) test_heap
    = (inr (DView {| routes := l; func := Some rerouted_second;
                     name := Some "second" |}), h')
    ∧ (l ∉ dom test_heap)
    ∧ h' !! l = Some [("2", ∅); ("second", ∅)]
    ∧ preserved test_heap h'.
Proof.
  apply (route_over_reroute_spares_the_base test_heap BaseView_second
           rerouted_second "second" "2" ∅); [reflexivity|].
  apply test_heap_allocated. repeat constructor.
Defined.

Lemma route_on_class_starts_own_list_witness :
  ∃ l h',
    (decorator <- route "/subclasstest" ∅ ;;
     ViewDecorator___call__ decorator
       (DClassView [SubView; BaseView; ClassView])) test_heap
    = (inr (DClassView
              [{| class_name := "SubView";
                  __dict__ := [("__routes__", ARoutes l)] |};
               BaseView; ClassView]), h')
    ∧ (l ∉ dom test_heap)
    ∧ h' !! l = Some [("/subclasstest", ∅)]
    ∧ preserved test_heap h'.
Proof.
  apply (route_on_class_starts_own_list test_heap "/subclasstest" ∅ SubView
           [BaseView; ClassView]).
  reflexivity.
Defined.

Lemma route_on_class_extends_own_list_witness :
  ∃ h',
    (decorator <- route "/index" ∅ ;;
     ViewDecorator___call__ decorator (DClassView [ClassView])) test_heap
    = (inr (DClassView [ClassView]), h')
    ∧ h' !! 1%positive = Some [("", ∅); ("/index", ∅)]
    ∧ ∀ l', l' ∈ dom test_heap → l' ≠ 1%positive → h' !! l' = test_heap !! l'.
Proof.
  apply (route_on_class_extends_own_list test_heap "/index" ∅ ClassView []
           1%positive); [reflexivity|].
  apply test_heap_allocated. repeat constructor.
Defined.

Lemma add_route_for_missing_name_witness :
  ∃ h',
    add_route_for [SubView; BaseView; ClassView]
      "this_method_does_not_exist" "/missing" ∅ test_heap
    = (inl (AttributeError "this_method_does_not_exist"), h')
    ∧ preserved test_heap h'.
Proof.
  apply (add_route_for_missing_name test_heap [SubView; BaseView; ClassView]
           "this_method_does_not_exist" "/missing" ∅).
  intros base Hbase.
  repeat (apply elem_of_cons in Hbase as [->|Hbase]; [reflexivity|]).
  by apply elem_of_nil in Hbase.
Defined.

Lemma add_route_for_adds_own_view_witness :
  ∃ l h' cls',
    add_route_for [SubView; BaseView; ClassView] "second" "another" ∅ test_heap
    = (inr cls', h')
    ∧ (l ∉ dom test_heap)
    ∧ h' !! l = Some [("another", ∅); ("second", ∅)]
    ∧ preserved test_heap h'
    ∧ tail cls' = [BaseView; ClassView]
    ∧ ∀ other,
        mro_lookup other cls'
        = if decide ("second" = other)
          then Some (AViewDecorator
                       {| routes := l; func := Some second_function;
                          name := Some "second" |})
          else mro_lookup other [SubView; BaseView; ClassView].
Proof.
  apply (add_route_for_adds_own_view test_heap SubView [BaseView; ClassView]
           "second" "another" ∅ (AViewDecorator BaseView_second)
           second_function "second"); [reflexivity..|].
  apply test_heap_allocated. repeat constructor.
Defined.

End decorating_props.

(* ===================================================================== *)
(** * Further properties of the log handlers *)
(* ===================================================================== *)

Module logger_extra.
Import Py logger logger_props.

(** ** What the SMS handler sends *)

(** The request [sendsms] makes for a number: to Exotel for a string that
    starts with [+91], to Twilio for any other string, none for a number
    that is no string. *)
Definition sms_request (self : SMSHandler) (number : pyvalue) (body : string)
  : option http_request :=
  match number with
  | VStr n =>
      Some (if startswith "+91" n then
              {| url := UrlFormat
                          "https://twilix.exotel.in/v1/Accounts/{sid}/Sms/send.json"
                          (exotel_sid self);
                 auth := Some (exotel_sid self, exotel_token self);
                 data := [("From", exotel_from self); ("To", number);
                          ("Body", VStr body)];
                 json := None; headers := [] |}
            else
              {| url := UrlFormat
                          "https://api.twilio.com/2010-04-01/Accounts/{sid}/Messages.json"
                          (twilio_sid self);
                 auth := Some (twilio_sid self, twilio_token self);
                 data := [("From", twilio_from self); ("To", number);
                          ("Body", VStr body)];
                 json := None; headers := [] |})
  | _ => None
  end.

(** [s'] is [s] with the requests [rs] made since. *)
Definition posted (rs : list http_request) (s s' : Net) : Prop :=
  posts s' = posts s ++ rs
  ∧ clock s' = clock s ∧ ticks s' = ticks s ∧ network s' = network s
  ∧ error_throttle_timestamp_sms s' = error_throttle_timestamp_sms s
  ∧ error_throttle_timestamp_slack s' = error_throttle_timestamp_slack s.

Lemma posted_nil s : posted [] s s.
Proof. unfold posted. by rewrite app_nil_r. Qed.

Lemma posted_trans rs1 rs2 s1 s2 s3 :
  posted rs1 s1 s2 → posted rs2 s2 s3 → posted (rs1 ++ rs2) s1 s3.
Proof.
  intros (Hp1 & ? & ? & ? & ? & ?) (Hp2 & ? & ? & ? & ? & ?).
  unfold posted. rewrite Hp2, Hp1, app_assoc. repeat split; congruence.
Qed.

Lemma sendsms_run self number body s :
  ∃ s', SMSHandler_sendsms self number body s = (inr (), s')
        ∧ posted (option_list (sms_request self number body)) s s'.
Proof.
  unfold SMSHandler_sendsms, try_except, bind, lift, requests_post, ret.
  destruct number as [|b|z|n|l|l|d|id]; cbn;
    try (exists s; split; [done|apply posted_nil]).
  destruct (startswith "+91" n); cbn;
    match goal with
    | |- context [network s ?r] => destruct (network s r)
    end; (eexists; split; [done|]); by repeat split.
Qed.

Lemma send_all_posts self numbers body s :
  ∃ s', for_each numbers (λ phonenumber (_ : unit),
                            SMSHandler_sendsms self phonenumber body) () s
        = (inr (), s')
        ∧ posted (omap (λ number, sms_request self number body) numbers) s s'.
Proof.
  revert s. induction numbers as [|number numbers IH]; intros s.
  - exists s. split; [done|apply posted_nil].
  - cbn [for_each]. rewrite classview_props.bind_run.
    destruct (sendsms_run self number body s) as (s1 & -> & Hs1).
    destruct (IH s1) as (s2 & -> & Hs2). exists s2. split; [done|].
    cbn [omap list_omap]. destruct (sms_request self number body) as [r|].
    + by apply (posted_trans [r] _ s s1 s2).
    + by apply (posted_trans [] _ s s1 s2).
Qed.

(** The throttle lets a record through: its key has no timestamp, or one
    read more than five minutes before the clock reading of the test. *)
Definition due (last : option Z) (s : Net) : Prop :=
  match last with
  | None => True
  | Some t => (clock s (ticks s) - t > five_minutes)%Z
  end.

(** The clock readings of the throttle test. *)
Definition readings (last : option Z) : nat :=
  match last with
  | None => 0
  | Some _ => 1
  end.

Lemma throttle_open_due throttle key s :
  due (throttle s !! key) s →
  ∃ s1, throttle_open throttle key s = (inr true, s1)
        ∧ posts s1 = posts s ∧ clock s1 = clock s ∧ network s1 = network s
        ∧ ticks s1 = ticks s + readings (throttle s !! key)
        ∧ error_throttle_timestamp_sms s1 = error_throttle_timestamp_sms s
        ∧ error_throttle_timestamp_slack s1 = error_throttle_timestamp_slack s.
Proof.
  unfold throttle_open, bind, gets, utcnow, ret.
  destruct (throttle s !! key) as [t|]; cbn; intros Hdue.
  - rewrite bool_decide_eq_true_2 by done. eexists. split; [done|].
    cbn. repeat split; lia.
  - exists s. split; [done|]. repeat split; lia.
Qed.

(** The text of the SMS for a record. *)
Definition sms_body (self : SMSHandler) (message info : string) : string :=
  "Error in " +:+ sms_app_name self +:+ ". " +:+ (message +:+ ": " +:+ info)
  +:+ ". Please check your email for details".

(** X16.  When the throttle lets a formatted record through, [emit] of the SMS
    handler makes one request for each phone number that is a string, in
    their order and all with the same text, to Exotel for the numbers
    that start with [+91] and to Twilio for the others, whether or not
    the requests fail; the phone numbers that are no strings are passed
    over.  It then records for the key of the record the next reading of
    the clock, and leaves the timestamps of the Slack handler alone. *)
Theorem SMSHandler_emit_sends_to_each_number (self : SMSHandler)
    (record : LogRecord) (s : Net) (message info : string)
    (numbers : list pyvalue) :
  due (error_throttle_timestamp_sms s !! (module record, lineno record)) s →
  get_message record = inr message →
  exc_info_repr record = inr info →
  py_iter (phonenumbers self) = inr numbers →
  ∃ s',
    SMSHandler_emit self record s = (inr (), s')
    ∧ posts s'
      = posts s ++ omap (λ number,
                           sms_request self number (sms_body self message info))
                        numbers
    ∧ error_throttle_timestamp_sms s'
      = <[(module record, lineno record) :=
            clock s (ticks s + readings (error_throttle_timestamp_sms s
                                         !! (module record, lineno record)))]>
          (error_throttle_timestamp_sms s)
    ∧ error_throttle_timestamp_slack s' = error_throttle_timestamp_slack s.
Proof.
  intros Hdue Hmessage Hinfo Hnumbers. unfold SMSHandler_emit.
  destruct (throttle_open_due error_throttle_timestamp_sms _ s Hdue)
    as (s1 & Hopen & Hp1 & Hc1 & Hn1 & Ht1 & Hsms1 & Hslack1).
  rewrite classview_props.bind_run, Hopen.
  rewrite classview_props.bind_run, Hmessage. unfold lift at 1.
  rewrite classview_props.bind_run, Hinfo. unfold lift at 1.
  rewrite classview_props.bind_run, Hnumbers. unfold lift at 1.
  rewrite classview_props.bind_run.
  destruct (send_all_posts self numbers (sms_body self message info) s1)
    as (s2 & Hsend & Hp2 & Hc2 & Ht2 & Hn2 & Hsms2 & Hslack2).
  unfold sms_body in Hsend. rewrite Hsend.
  unfold bind, utcnow, set_throttle_sms, modify. eexists. split; [done|].
  cbn. rewrite Hp2, Hp1, Hc2, Hc1, Ht2, Ht1, Hsms2, Hsms1, Hslack2, Hslack1.
  done.
Qed.

(** The handler of the example with a number that is no string among
    its phone numbers. *)
Definition mixed_sms_handler : SMSHandler :=
  {| sms_app_name := "app";
     exotel_sid := VStr "esid"; exotel_token := VStr "etoken";
     exotel_from := VStr "0800";
     twilio_sid := VStr "tsid"; twilio_token := VStr "ttoken";
     twilio_from := VStr "+1555";
     phonenumbers := VList [VStr "+919845012345"; VInt 100;
                            VStr "+15550100"] |}.

Lemma SMSHandler_emit_sends_to_each_number_witness :
  ∃ s',
    SMSHandler_emit mixed_sms_handler example_record example_net_later
    = (inr (), s')
    ∧ posts s'
      = posts example_net_later
        ++ omap (λ number,
                   sms_request mixed_sms_handler number
                     (sms_body mixed_sms_handler "Exception on /doc [GET]" ""))
                [VStr "+919845012345"; VInt 100; VStr "+15550100"]
    ∧ error_throttle_timestamp_sms s'
      = <[(module example_record, lineno example_record) :=
            clock example_net_later
              (ticks example_net_later
               + readings (error_throttle_timestamp_sms example_net_later
                           !! (module example_record, lineno example_record)))]>
          (error_throttle_timestamp_sms example_net_later)
    ∧ error_throttle_timestamp_slack s'
      = error_throttle_timestamp_slack example_net_later.
Proof.
  apply (SMSHandler_emit_sends_to_each_number mixed_sms_handler example_record
           example_net_later "Exception on /doc [GET]" "");
    [vm_compute; reflexivity|reflexivity..].
Defined.

(** ** What the Slack handler posts *)

Lemma existsb_levelname (level : string) (names : list pyvalue) :
  existsb (λ x, match x with
                | VStr s => bool_decide (s = level)
                | _ => false
                end) names = true
  ↔ VStr level ∈ names.
Proof.
  rewrite existsb_exists. split.
  - intros (x & Hin%list_elem_of_In & Hx).
    destruct x as [|b|z|n|l|l|d|id]; try done.
    by apply bool_decide_eq_true in Hx as ->.
  - intros Hin. exists (VStr level).
    split; [by apply list_elem_of_In|by apply bool_decide_eq_true].
Qed.

(** X17.  A record whose level name no webhook lists is dropped by [emit] of
    the Slack handler before anything of it is formatted: [emit] returns
    normally, also for a record that has no message yet or whose
    exception has a failing [repr]; nothing is posted and no timestamp is
    recorded. *)
Theorem SlackHandler_emit_drops_unlisted_level (self : SlackHandler)
    (record : LogRecord) (s : Net) (hooks names : list pyvalue) :
  py_iter (webhooks self) = inr hooks →
  all_levelnames hooks = inr names →
  VStr (levelname record) ∉ names →
  ∃ s',
    SlackHandler_emit self record s = (inr (), s')
    ∧ posts s' = posts s
    ∧ error_throttle_timestamp_slack s' = error_throttle_timestamp_slack s
    ∧ error_throttle_timestamp_sms s' = error_throttle_timestamp_sms s.
Proof.
  intros Hhooks Hnames Hlevel. unfold SlackHandler_emit.
  rewrite classview_props.bind_run.
  destruct (throttle_open_run error_throttle_timestamp_slack
              (module record, lineno record) s) as (b & s1 & -> & Hs1).
  assert (posts s1 = posts s
          ∧ error_throttle_timestamp_slack s1 = error_throttle_timestamp_slack s
          ∧ error_throttle_timestamp_sms s1 = error_throttle_timestamp_sms s)
    as Hsame by (by destruct Hs1 as [-> | ->]).
  destruct b; [|by exists s1].
  rewrite classview_props.bind_run, Hhooks. unfold lift at 1.
  rewrite classview_props.bind_run, Hnames. unfold lift at 1.
  assert (existsb (λ x, match x with
                        | VStr s0 => bool_decide (s0 = levelname record)
                        | _ => false
                        end) names = false) as ->.
  { apply not_true_is_false. by rewrite existsb_levelname. }
  by exists s1.
Qed.

(** A record of level INFO that no formatter has formatted. *)
Definition unformatted_info_record : LogRecord :=
  {| module := "views"; lineno := 42; levelname := "INFO";
     message := None; exc_info := None; exc_text := None |}.

Lemma SlackHandler_emit_drops_unlisted_level_witness :
  ∃ s',
    SlackHandler_emit example_slack_handler unformatted_info_record
                      example_net_later
    = (inr (), s')
    ∧ posts s' = posts example_net_later
    ∧ error_throttle_timestamp_slack s'
      = error_throttle_timestamp_slack example_net_later
    ∧ error_throttle_timestamp_sms s'
      = error_throttle_timestamp_sms example_net_later.
Proof.
  apply (SlackHandler_emit_drops_unlisted_level example_slack_handler
           unformatted_info_record example_net_later
           [VDict [("levelnames", VList [VStr "ERROR"]);
                   ("url", VStr "https://hooks.slack.com/x")]]
           [VStr "ERROR"]); [reflexivity..|].
  intros [[=]|Hin%elem_of_nil]%elem_of_cons. exact Hin.
Defined.

(** Whether a webhook lists the level name of the record. *)
Definition wants (level : string) (webhook : pyvalue) : bool :=
  match py_get webhook "levelnames" (VList []) with
  | inr levelnames =>
      match py_contains_str level levelnames with
      | inr wanted => wanted
      | inl _ => false
      end
  | inl _ => false
  end.

(** The request made for a webhook: none when the webhook has no [url]. *)
Definition webhook_request (data : payload) (webhook : pyvalue)
  : option http_request :=
  match copy_webhook_attrs webhook data, py_getitem webhook "url" with
  | inr payload, inr hook_url =>
      Some {| url := UrlValue hook_url; auth := None; logger.data := [];
              json := Some payload;
              headers := [("Content-Type", "application/json")] |}
  | _, _ => None
  end.

(** The payload made of a record. *)
Definition slack_data (self : SlackHandler) (record : LogRecord)
    (message info : string) : payload :=
  {| text := "*" +:+ levelname record +:+ "* in " +:+ slack_app_name self
             +:+ ": " +:+ message +:+ ": `" +:+ info +:+ "`";
     attachments := map section_attachment (exc_text_sections record);
     copied := [] |}.

(** One webhook: a post when it lists the level and has a [url], and a
    reading of the clock recorded for the key when it lists the level. *)
Lemma post_to_webhook_run record key data webhook s :
  usable_webhook webhook →
  ∃ s',
    post_to_webhook record key data webhook () s = (inr (), s')
    ∧ clock s' = clock s ∧ network s' = network s
    ∧ error_throttle_timestamp_sms s' = error_throttle_timestamp_sms s
    ∧ if wants (levelname record) webhook then
        posts s' = posts s ++ option_list (webhook_request data webhook)
        ∧ ticks s' = S (ticks s)
        ∧ error_throttle_timestamp_slack s'
          = <[key := clock s (ticks s)]> (error_throttle_timestamp_slack s)
      else
        posts s' = posts s ∧ ticks s' = ticks s
        ∧ error_throttle_timestamp_slack s' = error_throttle_timestamp_slack s.
Proof.
  intros (d & l & -> & Hiter). unfold post_to_webhook, wants, webhook_request.
  rewrite classview_props.bind_run. cbn [py_get lift].
  rewrite classview_props.bind_run.
  destruct (iterable_contains (levelname record) _ _ Hiter) as [[|] ->];
    unfold lift at 1; cbn beta iota; [|by exists s].
  rewrite classview_props.bind_run.
  destruct (copy_webhook_attrs_dict d data) as [payload ->].
  unfold lift at 1. cbn beta iota.
  rewrite classview_props.bind_run.
  unfold try_except, bind, lift, requests_post, utcnow, set_throttle_slack,
    modify, ret.
  destruct (py_getitem (VDict d) "url") as [e|hook_url]; cbn.
  - eexists. split; [done|]. cbn. by rewrite app_nil_r.
  - match goal with
    | |- context [network s ?r] => destruct (network s r)
    end; (eexists; split; [done|]); cbn; done.
Qed.

(** The webhooks that list the level, in their order. *)
Definition listing (level : string) (hooks : list pyvalue) : list pyvalue :=
  List.filter (wants level) hooks.

Lemma post_to_webhooks_run record key data hooks s :
  Forall usable_webhook hooks →
  ∃ s',
    for_each hooks (post_to_webhook record key data) () s = (inr (), s')
    ∧ clock s' = clock s ∧ network s' = network s
    ∧ error_throttle_timestamp_sms s' = error_throttle_timestamp_sms s
    ∧ posts s'
      = posts s ++ omap (webhook_request data) (listing (levelname record) hooks)
    ∧ ticks s' = ticks s + length (listing (levelname record) hooks)
    ∧ error_throttle_timestamp_slack s'
      = match listing (levelname record) hooks with
        | [] => error_throttle_timestamp_slack s
        | _ :: _ => <[key := clock s (ticks s' - 1)]>
                      (error_throttle_timestamp_slack s)
        end.
Proof.
  intros Hall. revert s.
  induction Hall as [|webhook hooks Hh _ IH]; intros s.
  - exists s. cbn. rewrite app_nil_r. repeat split; lia.
  - cbn [for_each]. rewrite classview_props.bind_run.
    destruct (post_to_webhook_run record key data webhook s Hh)
      as (s1 & -> & Hc1 & Hn1 & Hsms1 & Hstep).
    destruct (IH s1) as (s2 & -> & Hc2 & Hn2 & Hsms2 & Hp2 & Ht2 & Hslack2).
    exists s2. split; [done|].
    split; [congruence|]. split; [congruence|]. split; [congruence|].
    unfold listing in *. cbn [List.filter].
    destruct (wants (levelname record) webhook).
    + destruct Hstep as (Hp1 & Ht1 & Hslack1).
      cbn [omap list_omap length].
      split; [|split; [lia|]].
      * rewrite Hp2, Hp1, <-app_assoc. f_equal.
        by destruct (webhook_request data webhook).
      * rewrite Hslack2, Hslack1, Hc1.
        destruct (List.filter _ hooks) as [|h1 rest].
        -- cbn [length] in Ht2. do 2 f_equal. lia.
        -- by rewrite insert_insert_eq.
    + destruct Hstep as (Hp1 & Ht1 & Hslack1).
      split; [congruence|]. split; [lia|].
      rewrite Hslack2, Hslack1, Hc1. done.
Qed.

Lemma is_substring_char a s :
  a ∈ String.list_ascii_of_string s → is_substring (String a "") s = true.
Proof.
  induction s as [|b s IH]; cbn [String.list_ascii_of_string is_substring].
  - by intros ?%elem_of_nil.
  - intros [->|Hin]%elem_of_cons.
    + cbn. destruct (ascii_dec b b); [|done]. by destruct s.
    + destruct (String.prefix _ _); [done|]. by apply IH.
Qed.

Lemma iterated_contains level v l :
  py_iter v = inr l → VStr level ∈ l → py_contains_str level v = inr true.
Proof.
  destruct v as [|b|z|s|l0|l0|d|id]; try done; cbn; intros [= <-] Hin.
  - apply list_elem_of_fmap in Hin as (a & [= ->] & Hin).
    by rewrite is_substring_char.
  - f_equal. by apply existsb_levelname.
  - f_equal. by apply existsb_levelname.
  - f_equal. apply bool_decide_eq_true.
    apply list_elem_of_fmap in Hin as ([k x] & [= ->] & Hin).
    induction d as [|[k0 x0] d IH]; [by apply elem_of_nil in Hin|].
    cbn. destruct (decide (k0 = k)); [done|].
    apply elem_of_cons in Hin as [[= ? ?]|Hin]; [done|]. by apply IH.
Qed.

Lemma listed_level_is_wanted level acc hooks names :
  foldl add_levelnames (inr acc) hooks = inr names →
  VStr level ∈ names →
  VStr level ∈ acc ∨ listing level hooks ≠ [].
Proof.
  revert acc. induction hooks as [|h hooks IH]; intros acc.
  - cbn. intros [= <-]. by left.
  - cbn [foldl]. unfold add_levelnames at 2.
    destruct (py_get h "levelnames" (VList [])) as [e|lv] eqn:Hget;
      [by rewrite all_levelnames_failed|].
    destruct (py_iter lv) as [e|l] eqn:Hiter;
      [by rewrite all_levelnames_failed|].
    intros Hrest Hin.
    destruct (IH _ Hrest Hin) as [[Hacc|Hl]%elem_of_app|Hlisting].
    + by left.
    + right. unfold listing. cbn [List.filter]. unfold wants at 1.
      by rewrite Hget, (iterated_contains level lv l).
    + right. unfold listing in *. cbn [List.filter].
      by destruct (wants level h).
Qed.

(** X18.  When the throttle lets through a formatted record whose level name
    some webhook lists, [emit] of the Slack handler posts to the webhooks
    that list the level, in their order and whether or not the posts
    fail; a webhook without [url] gets no post.  The clock is read once
    after each of these webhooks, and the last reading is the timestamp
    recorded for the key of the record; the timestamps of the SMS handler
    are left alone. *)
Theorem SlackHandler_emit_posts_to_listing_webhooks (self : SlackHandler)
    (record : LogRecord) (s : Net) (message info : string)
    (hooks names : list pyvalue) :
  due (error_throttle_timestamp_slack s !! (module record, lineno record)) s →
  py_iter (webhooks self) = inr hooks →
  all_levelnames hooks = inr names →
  VStr (levelname record) ∈ names →
  get_message record = inr message →
  exc_info_repr record = inr info →
  ∃ s',
    SlackHandler_emit self record s = (inr (), s')
    ∧ posts s'
      = posts s ++ omap (webhook_request (slack_data self record message info))
                        (listing (levelname record) hooks)
    ∧ ticks s'
      = ticks s + readings (error_throttle_timestamp_slack s
                            !! (module record, lineno record))
        + length (listing (levelname record) hooks)
    ∧ error_throttle_timestamp_slack s'
      = <[(module record, lineno record) := clock s (ticks s' - 1)]>
          (error_throttle_timestamp_slack s)
    ∧ error_throttle_timestamp_sms s' = error_throttle_timestamp_sms s.
Proof.
  intros Hdue Hhooks Hnames Hlevel Hmessage Hinfo. unfold SlackHandler_emit.
  destruct (throttle_open_due error_throttle_timestamp_slack _ s Hdue)
    as (s1 & Hopen & Hp1 & Hc1 & Hn1 & Ht1 & Hsms1 & Hslack1).
  rewrite classview_props.bind_run, Hopen.
  rewrite classview_props.bind_run, Hhooks. unfold lift at 1.
  rewrite classview_props.bind_run, Hnames. unfold lift at 1.
  assert (existsb (λ x, match x with
                        | VStr s0 => bool_decide (s0 = levelname record)
                        | _ => false
                        end) names = true) as ->
    by by apply existsb_levelname.
  cbn [negb].
  rewrite classview_props.bind_run, Hmessage. unfold lift at 1.
  rewrite classview_props.bind_run, Hinfo. unfold lift at 1.
  destruct (post_to_webhooks_run record (module record, lineno record)
              (slack_data self record message info) hooks s1
              (all_levelnames_usable _ _ Hnames))
    as (s2 & Hrun & Hc2 & Hn2 & Hsms2 & Hp2 & Ht2 & Hslack2).
  exists s2. split; [exact Hrun|].
  split; [by rewrite Hp2, Hp1|]. split; [lia|]. split; [|congruence].
  rewrite Hslack2, Hslack1, Hc1.
  destruct (listed_level_is_wanted _ _ _ _ Hnames Hlevel)
    as [?%elem_of_nil|Hlisting]; [done|].
  by destruct (listing (levelname record) hooks).
Qed.

(** Three webhooks: one for errors, with a channel; one for warnings;
    one for errors that has lost its [url]. *)
Definition three_webhooks : list pyvalue :=
  [VDict [("levelnames", VList [VStr "ERROR"; VStr "CRITICAL"]);
          ("url", VStr "https://hooks.slack.com/errors");
          ("channel", VStr "#errors")];
   VDict [("levelnames", VList [VStr "WARNING"]);
          ("url", VStr "https://hooks.slack.com/warnings")];
   VDict [("levelnames", VTuple [VStr "ERROR"])]].

Definition three_webhooks_handler : SlackHandler :=
  {| slack_app_name := "app"; webhooks := VList three_webhooks |}.

Lemma SlackHandler_emit_posts_to_listing_webhooks_witness :
  ∃ s',
    SlackHandler_emit three_webhooks_handler example_record example_net_later
    = (inr (), s')
    ∧ posts s'
      = posts example_net_later
        ++ omap (webhook_request
                   (slack_data three_webhooks_handler example_record
                               "Exception on /doc [GET]" ""))
                (listing (levelname example_record) three_webhooks)
    ∧ ticks s'
      = ticks example_net_later
        + readings (error_throttle_timestamp_slack example_net_later
                    !! (module example_record, lineno example_record))
        + length (listing (levelname example_record) three_webhooks)
    ∧ error_throttle_timestamp_slack s'
      = <[(module example_record, lineno example_record) :=
            clock example_net_later (ticks s' - 1)]>
          (error_throttle_timestamp_slack example_net_later)
    ∧ error_throttle_timestamp_sms s'
      = error_throttle_timestamp_sms example_net_later.
Proof.
  apply (SlackHandler_emit_posts_to_listing_webhooks three_webhooks_handler
           example_record example_net_later "Exception on /doc [GET]" ""
           three_webhooks
           [VStr "ERROR"; VStr "CRITICAL"; VStr "WARNING"; VStr "ERROR"]);
    [vm_compute; reflexivity|reflexivity|reflexivity| |reflexivity..].
  by left.
Defined.

Example three_webhooks_posts :
  let r := SlackHandler_emit three_webhooks_handler example_record
                             example_net_later in
  map url (posts r.2) = [UrlValue (VStr "https://hooks.slack.com/errors")]
  ∧ ticks r.2 = 3
  ∧ error_throttle_timestamp_slack r.2 !! ("views", 42%Z) = Some 1300000003%Z.
Proof. vm_compute. done. Qed.

(** ** LocalVarFormatter.format *)

(** [LocalVarFormatter.format]: the cached [record.exc_text] is dropped
    unless it has the signature of [formatException], and the record goes
    to [logging.Formatter.format], here [Formatter_format]. *)
Definition LocalVarFormatter_format {S A}
    (Formatter_format : LogRecord → M S A) (record : LogRecord) : M S A :=
  let record :=
    match exc_info record, exc_text record with
    | Some _, Some cached =>
        if truthy (VStr cached)
           && negb (is_substring "Stack frames (most recent call first)" cached)
        then {| module := module record; lineno := lineno record;
                levelname := levelname record; message := message record;
                exc_info := exc_info record; exc_text := None |}
        else record
    | _, _ => record
    end in
  Formatter_format record.

(** [sio'] is [sio] with more text written to it. *)
Definition written (sio sio' : string) : Prop := ∃ more, sio' = sio +:+ more.

Lemma written_refl sio : written sio sio.
Proof. exists "". by rewrite classview_props.append_nil_r. Qed.

Lemma written_trans a b c : written a b → written b c → written a c.
Proof.
  intros [m1 ->] [m2 ->]. exists (m1 +:+ m2). apply classview_props.append_assoc.
Qed.

Lemma written_app sio more : written sio (sio +:+ more).
Proof. by exists more. Qed.

Lemma written_print text sio : written sio (print text sio).
Proof. apply written_app. Qed.

Lemma written_locals f_locals sio : written sio (locals_text f_locals sio).
Proof.
  revert sio. induction f_locals as [|item rest IH]; intros sio;
    [apply written_refl|].
  cbn [locals_text foldl]. eapply written_trans; [|apply IH].
  eapply written_trans; [apply written_app|apply written_print].
Qed.

Lemma written_frame f sio ctx :
  ∃ sio', format_frame f sio ctx = (inr sio', ctx) ∧ written sio sio'.
Proof.
  destruct f as [co_name co_filename f_lineno f_locals f_back].
  unfold format_frame. rewrite format_locals_run. eexists. split; [done|].
  eapply written_trans; [|apply written_locals].
  eapply written_trans; apply written_print.
Qed.

Lemma written_stack stack sio ctx :
  ∃ sio', for_each stack format_frame sio ctx = (inr sio', ctx)
          ∧ written sio sio'.
Proof.
  revert sio. induction stack as [|f stack IH]; intros sio.
  - exists sio. split; [done|apply written_refl].
  - cbn [for_each]. unfold bind.
    destruct (written_frame f sio ctx) as (sio1 & -> & H1).
    destruct (IH sio1) as (sio2 & -> & H2). exists sio2.
    split; [done|]. by eapply written_trans.
Qed.

Lemma written_context read title sio ctx :
  ∃ sio', format_context read title sio ctx = (inr sio', ctx)
          ∧ written sio sio'.
Proof.
  unfold format_context, bind, gets, try_except, lift, ret.
  destruct (ctx_bool (read ctx)); [|exists sio; split; [done|apply written_refl]].
  unfold pprint_with_indent. destruct (ctx_pprint (read ctx)) as [e|out].
  - eexists. split; [done|].
    eapply written_trans; [|apply written_print].
    eapply written_trans; apply written_print.
  - eexists. split; [done|].
    eapply written_trans; [|apply written_app].
    eapply written_trans; apply written_print.
Qed.

Lemma prefix_append sub more : String.prefix sub (sub +:+ more) = true.
Proof.
  induction sub as [|a sub IH]; [apply classview_props.prefix_nil|].
  simpl. by destruct (ascii_dec a a).
Qed.

Lemma is_substring_append before sub more :
  is_substring sub (before +:+ sub +:+ more) = true.
Proof.
  induction before as [|a before IH].
  - rewrite classview_props.append_nil_l.
    destruct sub; simpl; [by destruct more|].
    pose proof (prefix_append (String a sub) more) as Hp. simpl in Hp.
    by rewrite Hp.
  - change (String a before +:+ sub +:+ more)
      with (String a (before +:+ sub +:+ more)).
    cbn [is_substring]. rewrite IH. by destruct (String.prefix _ _).
Qed.

Lemma chomp_append before more :
  more ≠ "" → chomp (before +:+ more) = before +:+ chomp more.
Proof.
  intros Hmore. induction before as [|a before IH]; [done|].
  change (String a before +:+ more) with (String a (before +:+ more)).
  cbn [chomp]. rewrite IH.
  destruct (before +:+ more) eqn:Happ; [|done].
  by destruct before, more.
Qed.

(** The text of [formatException] has the signature that [format] looks
    for. *)
Lemma formatException_signature ei ctx text :
  (formatException ei ctx).1 = inr text →
  is_substring "Stack frames (most recent call first)" text = true.
Proof.
  unfold formatException, bind.
  generalize (print (NL +:+ "----------" +:+ NL) ("" +:+ exc_printed ei)).
  intros sio0.
  destruct (written_stack
              (frames_from (tb_frame (last_traceback (exc_traceback ei))))
              (print "Stack frames (most recent call first):" sio0)
              ctx) as (sio1 & -> & H1).
  destruct (written_context request "Request context:" sio1 ctx)
    as (sio2 & -> & H2).
  destruct (written_context session "Session cookie contents:" sio2 ctx)
    as (sio3 & -> & H3).
  destruct (written_context g "App context:" sio3 ctx) as (sio4 & -> & H4).
  destruct (written_context current_auth "Current auth:" sio4 ctx)
    as (sio5 & -> & H5).
  cbn. intros [= <-].
  destruct (written_trans _ _ _ H1
              (written_trans _ _ _ H2
                 (written_trans _ _ _ H3 (written_trans _ _ _ H4 H5))))
    as [more ->].
  assert (print "Stack frames (most recent call first):" sio0 +:+ more
          = (sio0 +:+ "Stack frames (most recent call first)")
            +:+ (":" +:+ NL +:+ more)) as ->.
  { unfold print. by rewrite !classview_props.append_assoc. }
  rewrite chomp_append by done.
  rewrite classview_props.append_assoc. apply is_substring_append.
Qed.

(** X19.  A cached [exc_text] that [formatException] has made is kept by
    [format]: it has the signature, and the record goes as it is to the
    formatter of the standard library. *)
Theorem format_keeps_own_exc_text {S A} (Formatter_format : LogRecord → M S A)
    (record : LogRecord) (ei : ExcInfo) (ctx : FlaskContext) (text : string) :
  (formatException ei ctx).1 = inr text →
  exc_text record = Some text →
  LocalVarFormatter_format Formatter_format record = Formatter_format record.
Proof.
  intros Hsig%formatException_signature Htext.
  unfold LocalVarFormatter_format. rewrite Htext, Hsig.
  destruct (exc_info record); [|done]. by rewrite andb_false_r.
Qed.

(** The text [formatException] makes of the exception of the example,
    cached on its record; and a formatter that gives the cached text. *)
Definition cached_text : string :=
  match (formatException example_exc_info no_context).1 with
  | inr text => text
  | inl _ => ""
  end.

Definition cached_record : LogRecord :=
  {| module := "views"; lineno := 42; levelname := "ERROR";
     message := Some "Exception on /doc [GET]";
     exc_info := Some example_exc_info; exc_text := Some cached_text |}.

Definition give_exc_text (record : LogRecord) : M unit (option string) :=
  ret (exc_text record).

Lemma format_keeps_own_exc_text_witness :
  LocalVarFormatter_format give_exc_text cached_record
  = give_exc_text cached_record.
Proof.
  apply (format_keeps_own_exc_text give_exc_text cached_record
           example_exc_info no_context cached_text);
    [vm_compute; reflexivity|reflexivity].
Defined.

(** A cached text of another formatter is dropped. *)
Example format_drops_foreign_exc_text :
  LocalVarFormatter_format give_exc_text
    {| module := "views"; lineno := 42; levelname := "ERROR";
       message := None; exc_info := Some example_exc_info;
       exc_text := Some "Traceback (most recent call last):" |} ()
  = (inr None, ()).
Proof. reflexivity. Qed.

(** ** The handlers init_app makes *)

(** The handlers of a configuration, in the order of their making. *)
Definition configured_handlers (name : string) (c : gmap string pyvalue)
    (address : pyvalue) : list Handler :=
  (if file_enabled c then [the_file_handler c] else [])
  ++ (if sms_enabled c then [the_sms_handler name c] else [])
  ++ (if slack_enabled c then [the_slack_handler name c] else [])
  ++ (if mail_enabled c then [the_mail_handler name c address] else []).

Lemma init_app_result s :
  init_app s
  = let s3 := after_slack (after_sms (after_file s)) in
    if mail_enabled (app_config s)
    then match mail_sender_address (app_config s) with
         | inr address =>
             (inr (), handler_added
                        (the_mail_handler (app_name s) (app_config s) address)
                        s3)
         | inl e => (inl e, s3)
         end
    else (inr (), s3).
Proof.
  rewrite init_app_run, init_mail_handler_run.
  by destruct (after_three_config s) as [-> ->].
Qed.

(** X20.  On a configuration whose mail sender has an address, [init_app] makes
    its handlers from the configuration alone, and adds them after the
    handlers the logger has: the file handler for LOGFILE
    (error.log when not set), the SMS handler with the six SMS settings
    and ADMIN_NUMBERS, the Slack handler with the webhooks, and the SMTP
    handler for MAIL_SERVER (localhost when not set), from the address of
    the sender, to ADMINS, with the name of the app in its subject and
    with credentials only when both MAIL_USERNAME and MAIL_PASSWORD are
    truthy.  All but the SMS handler get the formatter.  The
    configuration and the name of the app are as before. *)
Theorem init_app_adds_these_handlers (s : Logging) (address : pyvalue) :
  mail_sender_address (app_config s) = inr address →
  ∃ s',
    init_app s = (inr (), s')
    ∧ app_logger_handlers s'
      = app_logger_handlers s
        ++ configured_handlers (app_name s) (app_config s) address
    ∧ app_config s' = app_config s
    ∧ app_name s' = app_name s.
Proof.
  intros Haddress. rewrite init_app_result, Haddress. cbn zeta.
  pose proof (after_three_handlers s) as Hthree. cbn zeta in Hthree.
  destruct (after_three_config s) as [Hc Hn]. unfold configured_handlers.
  destruct (mail_enabled (app_config s)); eexists; (split; [done|]); cbn;
    rewrite Hthree, Hc, Hn, <-?app_assoc, ?app_nil_r; done.
Qed.

(** X21.  With ADMINS set and a mail sender that is a list or a tuple of fewer
    than two components, [init_app] raises [IndexError]: no SMTP handler
    is made, and the file, SMS and Slack handlers of the configuration
    have been added by then. *)
Theorem init_app_short_sender_raises (s : Logging) (sender : list pyvalue) :
  truthy (config_value (app_config s) "ADMINS") = true →
  (configured_mail_sender (app_config s) = VList sender
   ∨ configured_mail_sender (app_config s) = VTuple sender) →
  length sender < 2 →
  ∃ s',
    init_app s = (inl IndexError, s')
    ∧ app_logger_handlers s'
      = app_logger_handlers s
        ++ (if file_enabled (app_config s)
            then [the_file_handler (app_config s)] else [])
        ++ (if sms_enabled (app_config s)
            then [the_sms_handler (app_name s) (app_config s)] else [])
        ++ (if slack_enabled (app_config s)
            then [the_slack_handler (app_name s) (app_config s)] else []).
Proof.
  intros Hadmins Hsender Hshort. rewrite init_app_result. cbn zeta.
  unfold mail_enabled. rewrite Hadmins.
  assert (mail_sender_address (app_config s) = inl IndexError) as ->.
  { unfold mail_sender_address.
    assert (sender !! 1 = None) as Hnone by (apply lookup_ge_None; lia).
    destruct Hsender as [-> | ->]; by rewrite Hnone. }
  eexists. split; [done|]. apply after_three_handlers.
Qed.

(** An app with a sender of one component. *)
Definition short_sender_app : Logging :=
  {| app_name := "app";
     app_config := list_to_map
       [("ADMINS", VList [VStr "admin@example.com"]);
        ("MAIL_DEFAULT_SENDER", VList [VStr "app@example.com"])];
     app_logger_handlers := [];
     logging_handlers := ∅ |}.

Lemma init_app_short_sender_raises_witness :
  ∃ s',
    init_app short_sender_app = (inl IndexError, s')
    ∧ app_logger_handlers s'
      = app_logger_handlers short_sender_app
        ++ (if file_enabled (app_config short_sender_app)
            then [the_file_handler (app_config short_sender_app)] else [])
        ++ (if sms_enabled (app_config short_sender_app)
            then [the_sms_handler (app_name short_sender_app)
                                  (app_config short_sender_app)] else [])
        ++ (if slack_enabled (app_config short_sender_app)
            then [the_slack_handler (app_name short_sender_app)
                                    (app_config short_sender_app)] else []).
Proof.
  apply (init_app_short_sender_raises short_sender_app
           [VStr "app@example.com"]);
    [reflexivity|by left|cbn; lia].
Defined.

(** X22.  [init_app] does not look at the handlers the logger has: a second
    call on the same app adds the handlers of the configuration once
    more. *)
Theorem init_app_twice_adds_twice (s : Logging) (address : pyvalue) :
  mail_sender_address (app_config s) = inr address →
  ∃ s1 s2,
    init_app s = (inr (), s1)
    ∧ init_app s1 = (inr (), s2)
    ∧ app_logger_handlers s2
      = app_logger_handlers s
        ++ configured_handlers (app_name s) (app_config s) address
        ++ configured_handlers (app_name s) (app_config s) address.
Proof.
  intros Haddress.
  pose proof (after_three_handlers s) as Hthree. cbn zeta in Hthree.
  destruct (after_three_config s) as [Hc Hn].
  set (s1 := if mail_enabled (app_config s)
             then handler_added
                    (the_mail_handler (app_name s) (app_config s) address)
                    (after_slack (after_sms (after_file s)))
             else after_slack (after_sms (after_file s))).
  assert (app_config s1 = app_config s ∧ app_name s1 = app_name s
          ∧ app_logger_handlers s1
            = app_logger_handlers s
              ++ configured_handlers (app_name s) (app_config s) address)
    as (Hc1 & Hn1 & Hh1).
  { unfold s1, configured_handlers.
    destruct (mail_enabled (app_config s)); cbn;
      rewrite Hthree, <-?app_assoc, ?app_nil_r; done. }
  assert (init_app s = (inr (), s1)) as Hrun1.
  { rewrite init_app_result, Haddress. cbn zeta. unfold s1.
    by destruct (mail_enabled _). }
  clearbody s1. exists s1.
  pose proof (after_three_handlers s1) as Hthree1. cbn zeta in Hthree1.
  rewrite Hc1, Hn1, Hh1 in Hthree1.
  pose proof (init_app_result s1) as Hrun2. cbn zeta in Hrun2.
  rewrite Hc1, Hn1, Haddress in Hrun2.
  unfold configured_handlers at 2.
  destruct (mail_enabled (app_config s)); eexists;
    (split; [exact Hrun1|]); (split; [exact Hrun2|]); cbn;
    rewrite Hthree1, <-?app_assoc, ?app_nil_r; done.
Qed.

Lemma init_app_adds_these_handlers_witness :
  ∃ s',
    init_app example_app = (inr (), s')
    ∧ app_logger_handlers s'
      = app_logger_handlers example_app
        ++ configured_handlers (app_name example_app) (app_config example_app)
                               (VStr "app@example.com")
    ∧ app_config s' = app_config example_app
    ∧ app_name s' = app_name example_app.
Proof.
  apply (init_app_adds_these_handlers example_app (VStr "app@example.com")).
  vm_compute. reflexivity.
Defined.

Lemma init_app_twice_adds_twice_witness :
  ∃ s1 s2,
    init_app example_app = (inr (), s1)
    ∧ init_app s1 = (inr (), s2)
    ∧ app_logger_handlers s2
      = app_logger_handlers example_app
        ++ configured_handlers (app_name example_app) (app_config example_app)
                               (VStr "app@example.com")
        ++ configured_handlers (app_name example_app) (app_config example_app)
                               (VStr "app@example.com").
Proof.
  apply (init_app_twice_adds_twice example_app (VStr "app@example.com")).
  vm_compute. reflexivity.
Defined.

Example example_app_twice :
  match init_app example_app with
  | (_, s1) => map level (app_logger_handlers (init_app s1).2)
  end = [WARNING; ERROR; NOTSET; ERROR; WARNING; ERROR; NOTSET; ERROR].
Proof. vm_compute. reflexivity. Qed.

End logger_extra.
